(** * comic_git: the site builder [src/scripts/build_site.py]

    A shallow embedding of the content-aggregation pipeline of
    [build_site.py] and the properties of its page ordering, navigation
    linkage, scheduling gate, storyline and tag indices, resize grammar,
    thumbnail saving and satellite configuration layering.

    Conventions of the embedding.
    - A Python [str] whose code points are below 256 is the Rocq [string]
      of these code points; comparison is the lexicographic order on
      characters, as Python's is on code points.  Whitespace and letter
      case are those of Python on these code points.
    - A Python [int] is a [Z]; a Python [float] is a binary64 value of
      [SpecFloat] ([prec = 53], [emax = 1024]).
    - A Python [dict] with string keys is a [gmap string value]; where the
      insertion order is observable (the storyline and tag indices) it is an
      association list.
    - A raised exception is the [Raise] case of [result]; statements are
      sequenced with the bind of that monad, in source order.
    - Dictionaries that the program mutates after sharing them live in an
      explicit store addressed by [loc]. *)

From Stdlib Require Import ZArith Ascii String Sorted Permutation SpecFloat.
From stdpp Require Import gmap strings list fin_maps sorting.

Open Scope Z_scope.

(** ** Exceptions and results *)

(** The exceptions the modelled functions raise.  [OSError] carries
    [str(e)], which [save_image] inspects; [ExternalError] stands for an
    exception of any other class raised by a collaborator. *)
Inductive exn :=
| KeyError (key : string)
| IndexError
| TypeError
| ZeroDivisionError
| OverflowError
| NotImplementedError
| MissingImageFilename (page_path : string)
    (* FileNotFoundError("Comic image filename must be provided in {page_path}info.ini") *)
| AmbiguousImage (page_path : string) (image_files : list string)
    (* FileNotFoundError("Found {len(image_files)} images when attempting to auto-detect ...") *)
| OSError (msg : string)
| InvalidLiteral (text : string)      (* ValueError of int() / float() *)
| UnpackError (count : nat)           (* ValueError: wrong number of values to unpack *)
| BadDate (text : string)             (* ValueError of strptime *)
| UnknownResize (size : string)       (* ValueError("Unknown resize value: {!r}") *)
| NanToInteger                        (* ValueError: cannot convert float NaN to integer *)
| NoSuchObject                        (* a reference that is not in the store *)
| ExternalError (cls msg : string).

Inductive result (A : Type) :=
| Ok (a : A)
| Raise (e : exn).
Arguments Ok {A} a.
Arguments Raise {A} e.

#[global] Instance exn_eq_dec : EqDecision exn.
Proof. solve_decision. Defined.

#[global] Instance result_eq_dec {A} `{EqDecision A} : EqDecision (result A).
Proof. solve_decision. Defined.

#[global] Instance result_ret : MRet result := fun A a => Ok a.
#[global] Instance result_bind : MBind result := fun A B f m =>
  match m with
  | Ok a => f a
  | Raise e => Raise e
  end.
#[global] Instance result_fmap : FMap result := fun A B f m =>
  match m with
  | Ok a => Ok (f a)
  | Raise e => Raise e
  end.

Definition is_Ok {A} (r : result A) : Prop := ∃ a, r = Ok a.

(** [for x in l: acc = body(acc, x)], stopping at the first exception. *)
Fixpoint for_each {A S} (body : S → A → result S) (l : list A) (s : S) : result S :=
  match l with
  | [] => Ok s
  | x :: l' => s' ← body s x; for_each body l' s'
  end.

(** ** Values *)

Definition loc := positive.

(** The values stored in the dictionaries of the pipeline: [None],
    strings, lists of labels, and any other object (a boolean, a count, the
    transcript map, the storyline index, the link list), which the modelled
    functions carry around and never open. *)
Inductive value :=
| VNone
| VStr (s : string)
| VList (l : list string)
| VOther (token : positive).

#[global] Instance value_eq_dec : EqDecision value.
Proof. solve_decision. Defined.

(** A dictionary with string keys. *)
Abbreviation dict := (gmap string value).

(** [d[k]] *)
Definition getitem (d : dict) (k : string) : result value :=
  match d !! k with
  | Some v => Ok v
  | None => Raise (KeyError k)
  end.

(** [d.get(k, default)] *)
Definition dict_get (d : dict) (k : string) (dflt : value) : value :=
  default dflt (d !! k).

(** [l[i]] with Python's index rule: a negative index counts from the end,
    an index outside [-len l, len l) raises [IndexError]. *)
Definition list_getitem {A} (l : list A) (i : Z) : result A :=
  let n := Z.of_nat (length l) in
  let j := if i <? 0 then i + n else i in
  if (0 <=? j) && (j <? n) then
    match l !! Z.to_nat j with
    | Some x => Ok x
    | None => Raise IndexError
    end
  else Raise IndexError.

(** ** NavigationLinker: [get_ids] *)

Record nav_ids := {
  first_id : value;
  previous_id : value;
  current_id : value;
  next_id : value;
  last_id : value
}.

(** [comic_list[i]["page_name"]] *)
Definition page_name_at (comic_list : list dict) (i : Z) : result value :=
  page ← list_getitem comic_list i; getitem page "page_name".

(** The dictionary display of [get_ids] evaluates its five entries in
    source order; the first failing subscript raises. *)
Definition get_ids (comic_list : list dict) (index : Z) : result nav_ids :=
  first ← page_name_at comic_list 0;
  previous ← page_name_at comic_list (Z.max 0 (index - 1));
  current ← page_name_at comic_list index;
  next ← page_name_at comic_list (Z.min (Z.of_nat (length comic_list) - 1) (index + 1));
  last ← page_name_at comic_list (-1);
  Ok {| first_id := first; previous_id := previous; current_id := current;
        next_id := next; last_id := last |}.

(** ** Strings *)

(** [str.lower] on one character: the upper-case letters are [A]-[Z] and,
    above ASCII, 0xc0-0xde without the multiplication sign 0xd7; the
    lower-case letter is 32 further on. *)
Definition lower_char (c : ascii) : ascii :=
  let n := N_of_ascii c in
  if ((65 <=? n) && (n <=? 90) || (192 <=? n) && (n <=? 222) && negb (n =? 215))%N
  then ascii_of_N (n + 32) else c.

Fixpoint lower (s : string) : string :=
  match s with
  | EmptyString => EmptyString
  | String c s' => String (lower_char c) (lower s')
  end.

(** [s.startswith(p)] *)
Fixpoint startswith (s p : string) : bool :=
  match p, s with
  | EmptyString, _ => true
  | String _ _, EmptyString => false
  | String a p', String b s' => bool_decide (a = b) && startswith s' p'
  end.

(** [s.endswith(p)] *)
Definition endswith (s p : string) : bool :=
  startswith (String.rev s) (String.rev p).

(** [c in s] for a single character [c] *)
Fixpoint contains_char (c : ascii) (s : string) : bool :=
  match s with
  | EmptyString => false
  | String a s' => bool_decide (a = c) || contains_char c s'
  end.

(** The characters removed by [str.strip()] with no argument: tab, line
    feed, vertical tab, form feed, carriage return, the four separators
    0x1c-0x1f, the space, and above ASCII the next-line character 0x85 and
    the no-break space 0xa0. *)
Definition is_space (c : ascii) : bool :=
  let n := N_of_ascii c in
  ((9 <=? n) && (n <=? 13) || (28 <=? n) && (n <=? 31) || (n =? 32)
   || (n =? 133) || (n =? 160))%N.

(** The characters that [int()] and [float()] skip at both ends of a
    [str]: those of C's [isspace] and the two whitespace characters above
    ASCII, which are read as spaces.  The separators 0x1c-0x1f are not among
    them. *)
Definition is_numeric_space (c : ascii) : bool :=
  let n := N_of_ascii c in
  ((9 <=? n) && (n <=? 13) || (n =? 32) || (n =? 133) || (n =? 160))%N.

(** [s.lstrip(chars)], [s.rstrip(chars)], [s.strip(chars)]: [drop] says which
    characters go. *)
Fixpoint lstrip_with (drop : ascii → bool) (s : string) : string :=
  match s with
  | EmptyString => EmptyString
  | String c s' => if drop c then lstrip_with drop s' else s
  end.

Definition rstrip_with (drop : ascii → bool) (s : string) : string :=
  String.rev (lstrip_with drop (String.rev s)).

Definition strip_with (drop : ascii → bool) (s : string) : string :=
  rstrip_with drop (lstrip_with drop s).

(** [s.strip()] *)
Definition strip (s : string) : string := strip_with is_space s.

(** [s.strip(chars)] *)
Definition strip_chars (chars s : string) : string :=
  strip_with (λ c, contains_char c chars) s.

(** [s.split(sep)] for a one-character separator: the pieces between the
    separators, always at least one piece. *)
Fixpoint split_on (sep : ascii) (s : string) : list string :=
  match s with
  | EmptyString => [EmptyString]
  | String c s' =>
      if bool_decide (c = sep) then EmptyString :: split_on sep s'
      else match split_on sep s' with
           | piece :: rest => String c piece :: rest
           | [] => [String c EmptyString]
           end
  end.

(** [s[:-1]] *)
Definition drop_last (s : string) : string :=
  String.rev (match String.rev s with
              | EmptyString => EmptyString
              | String _ r => r
              end).

(** ** Configuration: [RawConfigParser] *)

(** A parser object holds the default section and the named sections.
    Option names are kept as written ([read_info] sets [optionxform = str]);
    values are strings. *)
Record config := {
  cfg_defaults : gmap string string;
  cfg_sections : gmap string (gmap string string)
}.

Definition DEFAULT_SECTION : string := "DEFAULT".

(** [comic_info.has_section(section)] *)
Definition has_section (c : config) (section : string) : bool :=
  bool_decide (is_Some (cfg_sections c !! section)).

(** [comic_info.has_option(section, option)] *)
Definition has_option (c : config) (section option : string) : bool :=
  if bool_decide (section = "") || bool_decide (section = DEFAULT_SECTION) then
    bool_decide (is_Some (cfg_defaults c !! option))
  else
    match cfg_sections c !! section with
    | None => false
    | Some opts =>
        bool_decide (is_Some (opts !! option)) || bool_decide (is_Some (cfg_defaults c !! option))
    end.

(** [comic_info.get(section, option)]: the section's own value, else the
    default section's; [NoSectionError] and [NoOptionError] otherwise. *)
Definition cfg_get (c : config) (section option : string) : result string :=
  opts ← (if bool_decide (section = DEFAULT_SECTION) then Ok ∅
          else match cfg_sections c !! section with
               | Some opts => Ok opts
               | None => Raise (ExternalError "NoSectionError" section)
               end);
  match opts !! option with
  | Some v => Ok v
  | None =>
      match cfg_defaults c !! option with
      | Some v => Ok v
      | None => Raise (ExternalError "NoOptionError" option)
      end
  end.

(** [comic_info.getboolean(section, option)] *)
Definition cfg_getboolean (c : config) (section option : string) : result bool :=
  v ← cfg_get c section option;
  let w := lower v in
  if bool_decide (w ∈ ["1"; "yes"; "true"; "on"]) then Ok true
  else if bool_decide (w ∈ ["0"; "no"; "false"; "off"]) then Ok false
  else Raise (InvalidLiteral v).

(** [get_option(comic_info, section, option, default=default)] *)
Definition get_option (c : config) (section option dflt : string) : result string :=
  if has_section c section && has_option c section option
  then cfg_get c section option
  else Ok dflt.

(** [get_option(comic_info, section, option, option_type=bool, default=default)] *)
Definition get_option_bool (c : config) (section option : string) (dflt : bool) : result bool :=
  if has_section c section && has_option c section option
  then cfg_getboolean c section option
  else Ok dflt.

(** ** PageScanner: [get_page_info_list] *)

(** [time.struct_time]: a tuple of nine integers, compared as a tuple. *)
Record struct_time := {
  tm_year : Z; tm_mon : Z; tm_mday : Z;
  tm_hour : Z; tm_min : Z; tm_sec : Z;
  tm_wday : Z; tm_yday : Z; tm_isdst : Z
}.

#[global] Instance struct_time_eq_dec : EqDecision struct_time.
Proof. solve_decision. Defined.

Definition struct_time_fields (t : struct_time) : list Z :=
  [tm_year t; tm_mon t; tm_mday t; tm_hour t; tm_min t; tm_sec t;
   tm_wday t; tm_yday t; tm_isdst t].

(** Python's [<] on sequences of integers: the first differing position
    decides, a proper prefix is smaller. *)
Fixpoint seq_ltb (a b : list Z) : bool :=
  match a, b with
  | [], [] => false
  | [], _ :: _ => true
  | _ :: _, [] => false
  | x :: a', y :: b' => if bool_decide (x = y) then seq_ltb a' b' else x <? y
  end.

Definition struct_time_ltb (s t : struct_time) : bool :=
  seq_ltb (struct_time_fields s) (struct_time_fields t).

(** Python's [<] on [str]. *)
Definition str_ltb (s t : string) : bool := String.ltb s t.

(** The collaborators of the scanner that are not part of
    [build_site.py]: the date and timezone libraries, [utils.str_to_list]
    and the theme's hook module. *)
Class Collaborators := {
  tzinfo : Type;
  datetime : Type;
  (** [pytz.timezone(name)] *)
  timezone : string → result tzinfo;
  (** [datetime.strptime(text, format)] *)
  datetime_strptime : string → string → result datetime;
  (** [tz_info.localize(dt)], as the instant it denotes (aware datetimes
      compare by instant) *)
  localize : tzinfo → datetime → result Z;
  (** [time.strptime(text, format)] *)
  time_strptime : string → string → result struct_time;
  (** [utils.str_to_list(text)] *)
  str_to_list : string → list string;
  (** [run_hook(theme, "extra_page_info_processing", [comic_folder,
      comic_info, page_path, page_info])]: the dictionary as the hook leaves
      it, and the hook's return value ([None] when the theme has no such
      hook or the hook returns nothing).  The hook is given as a function
      of its arguments: what a hook module keeps from one call to the next
      is not part of the model, so a property that compares two runs is
      stated for themes without the hook ([no_page_hook]). *)
  extra_page_info_processing :
    string → string → config → string → dict → result (dict * option dict)
}.

(** One entry of [glob(f"{CONTENT_DIR}/{comic_folder}comics/*/")]: the
    directory's name (so that [page_path] is the prefix, the name and a
    slash, and [os.path.basename(os.path.normpath(page_path))] is the name),
    the outcome of [read_info(f"{page_path}info.ini", to_dict=True)] when
    that file exists, and [os.listdir(page_path)]. *)
Record page_dir := {
  dir_name : string;
  info_ini : option (result (gmap string string));
  dir_listing : list string
}.

(** [re.search(r"\.(jpg|jpeg|png|tif|tiff|gif|bmp|webp|webv|svg|eps)$", filename)];
    [$] also matches before a final line feed. *)
Definition image_extensions : list string :=
  [".jpg"; ".jpeg"; ".png"; ".tif"; ".tiff"; ".gif"; ".bmp"; ".webp"; ".webv"; ".svg"; ".eps"].

Definition newline : string := String (ascii_of_N 10) EmptyString.

Definition is_image_file (filename : string) : bool :=
  let stem := if endswith filename newline then drop_last filename else filename in
  existsb (endswith filename) image_extensions || existsb (endswith stem) image_extensions.

(** The state of the scanning loop: the records so far, the count of
    scheduled posts, and the directories removed by [shutil.rmtree]. *)
Record scan_state := {
  page_info_list : list dict;
  scheduled_post_count : Z;
  deleted_paths : list string
}.

(** The sort key [(strptime(x["Post date"], date_format), x["page_name"])].
    The page name is a string, as the scanner writes it; a record whose hook
    made it anything else is refused with [TypeError]. *)
Definition sort_key `{Collaborators} (date_format : string) (x : dict)
  : result (struct_time * string) :=
  d ← getitem x "Post date";
  t ← match d with
      | VStr text => time_strptime text date_format
      | _ => Raise TypeError
      end;
  n ← getitem x "page_name";
  match n with
  | VStr name => Ok (t, name)
  | _ => Raise TypeError
  end.

(** Python's [<] on the key tuples. *)
Definition key_ltb (a b : struct_time * string) : bool :=
  if bool_decide (a.1 = b.1) then str_ltb a.2 b.2 else struct_time_ltb a.1 b.1.

(** [sorted(l, key=...)] is a stable sort that compares keys with [<] only.
    It is modelled as stable insertion: an element is placed before the first
    element that is not smaller than it.  On a strict total order the list a
    stable sort returns does not depend on the procedure. *)
Fixpoint insert_by {K A} (ltb : K → K → bool) (x : K * A) (l : list (K * A)) : list (K * A) :=
  match l with
  | [] => [x]
  | y :: l' => if ltb y.1 x.1 then y :: insert_by ltb x l' else x :: l
  end.

Definition sort_by {K A} (ltb : K → K → bool) (l : list (K * A)) : list (K * A) :=
  foldr (insert_by ltb) [] l.

(** The keys are computed first, in list order. *)
Definition sorted_pages `{Collaborators} (date_format : string) (l : list dict)
  : result (list dict) :=
  keyed ← mapM (λ x, k ← sort_key date_format x; Ok (k, x)) l;
  Ok ((sort_by key_ltb keyed).*2).

(** The image files found by the auto-detection loop over
    [os.listdir(page_path)]. *)
Definition detect_image_files (listing : list string) : list string :=
  filter (λ filename, filename ≠ "thumbnail.jpg" ∧ is_image_file filename) listing.

(** The [else] branch of the loop: a published page becomes a record. *)
Definition publish_page `{Collaborators} (comics_dir comic_folder theme : string)
    (comic_info : config) (auto_detect_comic_images : bool) (p : page_dir)
    (info : gmap string string) : result dict :=
  let page_path := comics_dir +:+ dir_name p +:+ "/" in
  info ← (if bool_decide (default "" (info !! "Filename") = "") then
            if negb auto_detect_comic_images then
              Raise (MissingImageFilename page_path)
            else
              match detect_image_files (dir_listing p) with
              | [image] => Ok (<["Filename" := image]> info)
              | image_files => Raise (AmbiguousImage page_path image_files)
              end
          else Ok info);
  let page_info : dict :=
    <["Tags" := VList (str_to_list (default "" (info !! "Tags")))]>
    (<["Characters" := VList (str_to_list (default "" (info !! "Characters")))]>
    (<["Storyline" := VStr (default "" (info !! "Storyline"))]>
    (<["page_name" := VStr (dir_name p)]> (VStr <$> info)))) in
  '(page_info, hook_result) ← extra_page_info_processing theme comic_folder comic_info page_path page_info;
  match hook_result with
  | Some replaced => if bool_decide (replaced = ∅) then Ok page_info else Ok replaced
  | None => Ok page_info
  end.

(** One iteration of [for page_path in glob(...)]. *)
Definition scan_page `{Collaborators} (comics_dir comic_folder theme : string)
    (comic_info : config) (date_format : string) (tz_info : tzinfo) (local_time : Z)
    (auto_detect_comic_images delete_scheduled_posts publish_all_comics : bool)
    (st : scan_state) (p : page_dir) : result scan_state :=
  match info_ini p with
  | None => Ok st
  | Some read =>
      info ← read;
      text ← match info !! "Post date" with
             | Some text => Ok text
             | None => Raise (KeyError "Post date")
             end;
      dt ← datetime_strptime text date_format;
      post_date ← localize tz_info dt;
      if (local_time <? post_date) && negb publish_all_comics then
        Ok {| page_info_list := page_info_list st;
              scheduled_post_count := scheduled_post_count st + 1;
              deleted_paths :=
                if delete_scheduled_posts
                then deleted_paths st ++ [comics_dir +:+ dir_name p +:+ "/"]
                else deleted_paths st |}
      else
        page_info ← publish_page comics_dir comic_folder theme comic_info
                       auto_detect_comic_images p info;
        Ok {| page_info_list := page_info_list st ++ [page_info];
              scheduled_post_count := scheduled_post_count st;
              deleted_paths := deleted_paths st |}
  end.

(** [get_page_info_list]: [pages] is what [glob] returns, [local_time] the
    instant read by [datetime.now(tz=tz_info)], [comics_dir] the string
    [f"{CONTENT_DIR}/{comic_folder}comics/"].  The result is the returned
    pair together with the directories the run removed. *)
Definition get_page_info_list `{Collaborators} (comics_dir : string) (pages : list page_dir)
    (local_time : Z) (comic_folder : string) (comic_info : config)
    (delete_scheduled_posts publish_all_comics : bool)
  : result (list dict * Z * list string) :=
  date_format ← cfg_get comic_info "Comic Settings" "Date format";
  tz_name ← cfg_get comic_info "Comic Settings" "Timezone";
  tz_info ← timezone tz_name;
  auto_detect_comic_images ←
    get_option_bool comic_info "Comic Settings" "Auto-detect comic images" false;
  theme ← get_option comic_info "Comic Settings" "Theme" "default";
  st ← for_each
         (scan_page comics_dir comic_folder theme comic_info date_format tz_info
            local_time auto_detect_comic_images delete_scheduled_posts publish_all_comics)
         pages
         {| page_info_list := []; scheduled_post_count := 0; deleted_paths := [] |};
  sorted ← sorted_pages date_format (page_info_list st);
  Ok (sorted, scheduled_post_count st, deleted_paths st).

(** ** GroupIndexer: [get_storylines], [write_tagged_pages] *)

(** The store of record dictionaries.  A record is known by its reference;
    two references to one object see each other's updates. *)
Abbreviation store := (gmap loc dict).

Definition deref (h : store) (r : loc) : result dict :=
  match h !! r with
  | Some d => Ok d
  | None => Raise NoSuchObject
  end.

(** [d.copy()]: a new object with the same entries. *)
Definition dict_copy (h : store) (d : dict) : store * loc :=
  let r := fresh (dom h) in (<[r := d]> h, r).

(** An insertion-ordered mapping from labels to buckets of references
    ([OrderedDict], [defaultdict(list)]). *)
Abbreviation index := (list (string * list loc)).

(** [label in idx] *)
Definition index_mem (label : string) (idx : index) : bool :=
  bool_decide (label ∈ idx.*1).

(** [idx[label]] *)
Fixpoint index_lookup (label : string) (idx : index) : option (list loc) :=
  match idx with
  | [] => None
  | (k, bucket) :: rest =>
      if bool_decide (k = label) then Some bucket else index_lookup label rest
  end.

(** [idx[label].append(r)] on a label already present. *)
Fixpoint bucket_append (label : string) (r : loc) (idx : index) : index :=
  match idx with
  | [] => []
  | (k, bucket) :: rest =>
      if bool_decide (k = label) then (k, bucket ++ [r]) :: rest
      else (k, bucket) :: bucket_append label r rest
  end.

(** [idx.move_to_end(label)] on a label already present. *)
Definition move_to_end (label : string) (idx : index) : index :=
  filter (λ kv, kv.1 ≠ label) idx ++ filter (λ kv, kv.1 = label) idx.

(** Python's truth value of a field value; an opaque object has none in
    the model. *)
Definition truthy (v : value) : option bool :=
  match v with
  | VNone => Some false
  | VStr s => Some (negb (bool_decide (s = "")))
  | VList l => Some (negb (bool_decide (l = [])))
  | VOther _ => None
  end.

(** The body of the loop of [get_storylines] up to the choice of the
    bucket: [None] is the [continue].  A storyline is [None] or a string,
    as [create_comic_data] writes it; a non-empty list is unhashable and
    raises in Python as well, and an opaque object is refused. *)
Definition storyline_label (comic_data : dict) (show_uncategorized : bool)
  : result (option string) :=
  storyline ← getitem comic_data "storyline";
  match truthy storyline with
  | Some false => Ok (if show_uncategorized then Some "Uncategorized" else None)
  | Some true =>
      match storyline with
      | VStr s => Ok (Some s)
      | _ => Raise TypeError
      end
  | None => Raise TypeError
  end.

Definition storylines_step (show_uncategorized : bool) (st : store * index) (r : loc)
  : result (store * index) :=
  let '(h, storylines_dict) := st in
  comic_data ← deref h r;
  label ← storyline_label comic_data show_uncategorized;
  match label with
  | None => Ok (h, storylines_dict)
  | Some storyline =>
      let storylines_dict :=
        if index_mem storyline storylines_dict then storylines_dict
        else storylines_dict ++ [(storyline, [])] in
      let '(h, copied) := dict_copy h comic_data in
      Ok (h, bucket_append storyline copied storylines_dict)
  end.

Definition get_storylines (h : store) (comic_data_dicts : list loc) (show_uncategorized : bool)
  : result (store * index) :=
  '(h, storylines_dict) ← for_each (storylines_step show_uncategorized) comic_data_dicts (h, []);
  if index_mem "Uncategorized" storylines_dict
  then Ok (h, move_to_end "Uncategorized" storylines_dict)
  else Ok (h, storylines_dict).

(** What [utils.write_to_template] receives for a comic page: the page
    name that goes into [html_path] and the dictionary handed to the
    template. *)
Record comic_write := {
  cw_page_name : value;
  cw_data : dict
}.

(** [d.update(other)]: the entries of [other] win. *)
Definition dict_update (d other : dict) : dict := other ∪ d.

(** The loop of [write_html_files] over the comic pages: every record is
    updated in place with the global values and then rendered.  The pages
    written afterwards by [write_other_pages] are built in dictionaries of
    their own. *)
Definition write_html_files_step (global_values : dict)
    (st : store * list comic_write) (r : loc) : result (store * list comic_write) :=
  let '(h, written) := st in
  comic_data_dict ← deref h r;
  page_name ← getitem comic_data_dict "page_name";
  let updated := dict_update comic_data_dict global_values in
  Ok (<[r := updated]> h,
      written ++ [{| cw_page_name := page_name; cw_data := updated |}]).

Definition write_html_files (h : store) (comic_data_dicts : list loc) (global_values : dict)
  : result (store * list comic_write) :=
  for_each (write_html_files_step global_values) comic_data_dicts (h, []).

(** Iterating a field as [for label in page.get(field, [])]: a list gives
    its labels, a string its characters; [None] is not iterable, and an
    opaque object is refused. *)
Fixpoint characters_of (s : string) : list string :=
  match s with
  | EmptyString => []
  | String c s' => String c EmptyString :: characters_of s'
  end.

Definition iterate_labels (v : value) : result (list string) :=
  match v with
  | VList l => Ok l
  | VStr s => Ok (characters_of s)
  | VNone => Raise TypeError
  | VOther _ => Raise TypeError
  end.

(** [tags[label].append(page)] on a [defaultdict(list)]: the bucket is
    created at the end of the mapping on first use; the reference itself is
    appended, not a copy. *)
Definition tags_append (page : loc) (tags : index) (label : string) : index :=
  if index_mem label tags then bucket_append label page tags
  else tags ++ [(label, [page])].

Definition tagged_step (h : store) (tags : index) (page : loc) : result index :=
  d ← deref h page;
  characters ← iterate_labels (dict_get d "characters" (VList []));
  let tags := foldl (tags_append page) tags characters in
  labels ← iterate_labels (dict_get d "tags" (VList []));
  Ok (foldl (tags_append page) tags labels).

(** The tag index that [write_tagged_pages] builds before rendering. *)
Definition tag_index (h : store) (comic_data_dicts : list loc) : result index :=
  for_each (tagged_step h) comic_data_dicts [].

(** What [utils.write_to_template("tagged", ...)] receives for one tag:
    the path [f"tagged/{tag}/index.html"], and the label, its bucket and the
    global values merged over them. *)
Record tagged_write := {
  tw_html_path : string;
  tw_tag : string;
  tw_tagged_pages : list loc;
  tw_global_values : dict
}.

Definition write_tagged_pages (h : store) (comic_data_dicts : list loc) (global_values : dict)
  : result (list tagged_write) :=
  if bool_decide (comic_data_dicts = []) then Ok []
  else
    tags ← tag_index h comic_data_dicts;
    Ok (map (λ kv, {| tw_html_path := "tagged/" +:+ kv.1 +:+ "/index.html";
                      tw_tag := kv.1; tw_tagged_pages := kv.2;
                      tw_global_values := global_values |}) tags).

(** ** Numbers: [int()], [float()] and float arithmetic *)

Abbreviation float := spec_float.
Definition prec : Z := 53.
Definition emax : Z := 1024.

Definition digit_value (c : ascii) : option Z :=
  let n := N_of_ascii c in
  if ((48 <=? n) && (n <=? 57))%N then Some (Z.of_N n - 48) else None.

(** The longest prefix of the form digit (["_"] digit)*, as its digits, and
    the rest of the text. *)
Fixpoint read_digits (s : string) : list Z * string :=
  match s with
  | EmptyString => ([], EmptyString)
  | String c s' =>
      match digit_value c with
      | None => ([], s)
      | Some d =>
          match s' with
          | String "_" (String c2 _ as s'') =>
              match digit_value c2 with
              | Some _ => let '(ds, rest) := read_digits s'' in (d :: ds, rest)
              | None => ([d], s')
              end
          | _ => let '(ds, rest) := read_digits s' in (d :: ds, rest)
          end
      end
  end.

Definition digits_value (ds : list Z) : Z := foldl (λ acc d, 10 * acc + d) 0 ds.

(** An optional sign. *)
Definition read_sign (s : string) : bool * string :=
  match s with
  | String "-" s' => (true, s')
  | String "+" s' => (false, s')
  | _ => (false, s)
  end.

(** A decimal integer literal: sign, then digits, and nothing else. *)
Definition int_literal (s : string) : option Z :=
  let '(neg, s1) := read_sign s in
  match read_digits s1 with
  | (d :: ds, EmptyString) =>
      let n := digits_value (d :: ds) in Some (if neg then - n else n)
  | _ => None
  end.

(** [int(text)] on a string: the whitespace that [int] skips at both ends
    is ignored. *)
Definition int_of_str (text : string) : result Z :=
  match int_literal (strip_with is_numeric_space text) with
  | Some n => Ok n
  | None => Raise (InvalidLiteral text)
  end.

(** The binary64 value nearest to [m * 10^e], ties to even. *)
Definition decimal_to_float (neg : bool) (m : Z) (e : Z) : float :=
  match m with
  | Zpos p =>
      if 0 <=? e then binary_normalize prec emax (if neg then - (m * 10 ^ e) else m * 10 ^ e) 0 neg
      else SFdiv prec emax (S754_finite neg p 0) (S754_finite false (Z.to_pos (10 ^ (- e))) 0)
  | _ => S754_zero neg
  end.

(** The exponent part [e[sign]digits], when there is one. *)
Definition read_exponent (s : string) : option (Z * string) :=
  match s with
  | String c s1 =>
      if bool_decide (lower_char c = "e"%char) then
        let '(neg, s2) := read_sign s1 in
        match read_digits s2 with
        | (d :: ds, rest) =>
            let n := digits_value (d :: ds) in Some (if neg then - n else n, rest)
        | _ => None
        end
      else Some (0, s)
  | EmptyString => Some (0, s)
  end.

(** A floating-point literal: sign, then [inf], [infinity], [nan] in any
    case, or digits with an optional fraction and exponent. *)
Definition float_literal (s : string) : option float :=
  let '(neg, s1) := read_sign s in
  let word := lower s1 in
  if bool_decide (word = "inf") || bool_decide (word = "infinity") then Some (S754_infinity neg)
  else if bool_decide (word = "nan") then Some S754_nan
  else
    let '(ip, s2) := read_digits s1 in
    let '(fp, s3) :=
      match s2 with
      | String "." s2' => read_digits s2'
      | _ => ([], s2)
      end in
    if bool_decide (ip = []) && bool_decide (fp = []) then None
    else
      match read_exponent s3 with
      | Some (e, EmptyString) =>
          Some (decimal_to_float neg (digits_value (ip ++ fp)) (e - Z.of_nat (length fp)))
      | _ => None
      end.

(** [float(text)] on a string: likewise. *)
Definition float_of_str (text : string) : result float :=
  match float_literal (strip_with is_numeric_space text) with
  | Some x => Ok x
  | None => Raise (InvalidLiteral text)
  end.

(** [float(n)] for an integer, as in mixed arithmetic. *)
Definition float_of_int (n : Z) : result float :=
  match binary_normalize prec emax n 0 false with
  | S754_infinity _ => Raise OverflowError
  | x => Ok x
  end.

(** The correctly rounded quotient of two non-zero integers given by sign
    and magnitude; a quotient too large for a float raises. *)
Definition rounded_quotient (sa : bool) (p : positive) (sb : bool) (q : positive)
  : result float :=
  match SFdiv prec emax (S754_finite sa p 0) (S754_finite sb q 0) with
  | S754_infinity _ => Raise OverflowError
  | x => Ok x
  end.

(** [a / b] on integers. *)
Definition int_truediv (a b : Z) : result float :=
  match a, b with
  | _, Z0 => Raise ZeroDivisionError
  | Z0, Zpos _ => Ok (S754_zero false)
  | Z0, Zneg _ => Ok (S754_zero true)
  | Zpos p, Zpos q => rounded_quotient false p false q
  | Zpos p, Zneg q => rounded_quotient false p true q
  | Zneg p, Zpos q => rounded_quotient true p false q
  | Zneg p, Zneg q => rounded_quotient true p true q
  end.

(** [n * x] and [x * n] for an integer and a float. *)
Definition int_mul_float (n : Z) (x : float) : result float :=
  y ← float_of_int n; Ok (SFmul prec emax y x).

Definition float_mul_int (x : float) (n : Z) : result float :=
  y ← float_of_int n; Ok (SFmul prec emax x y).

(** [int(x)] on a float: truncation towards zero. *)
Definition int_of_float (x : float) : result Z :=
  match x with
  | S754_zero _ => Ok 0
  | S754_infinity _ => Raise OverflowError
  | S754_nan => Raise NanToInteger
  | S754_finite neg m e =>
      let magnitude := if 0 <=? e then Z.pos m * 2 ^ e else Z.pos m / 2 ^ (- e) in
      Ok (if neg then - magnitude else magnitude)
  end.

(** ** ThumbnailProcessor: [resize], [save_image] *)

(** [resize(im, size)], with [im.size] as the image: the result is the
    pair [(int(w), int(h))] that is handed to [im.resize]. *)
Definition resize (im_size : Z * Z) (size : string) : result (Z * Z) :=
  let '(im_w, im_h) := im_size in
  if contains_char "," size then
    match split_on "," (strip size) with
    | [w; h] =>
        let w := strip w in
        let h := strip h in
        w ← int_of_str w; h ← int_of_str h; Ok (w, h)
    | parts => Raise (UnpackError (length parts))
    end
  else if endswith size "%" then
    size ← float_of_str (strip_chars "%" (strip size));
    let size := SFdiv prec emax size (S754_finite false 100 0) in
    w ← int_mul_float im_w size;
    h ← int_mul_float im_h size;
    w ← int_of_float w; h ← int_of_float h; Ok (w, h)
  else if endswith size "h" then
    h ← int_of_str (strip (drop_last size));
    ratio ← int_truediv im_w im_h;
    w ← float_mul_int ratio h;
    w ← int_of_float w; Ok (w, h)
  else if endswith size "w" then
    w ← int_of_str (strip (drop_last size));
    ratio ← int_truediv im_h im_w;
    h ← float_mul_int ratio w;
    h ← int_of_float h; Ok (w, h)
  else Raise (UnknownResize size).

(** The image library as [save_image] uses it.  [files] is the state of
    the file system; a save that raises may still have changed it. *)
Class ImageLib := {
  image : Type;
  files : Type;
  (** [im.mode] *)
  im_mode : image → string;
  (** [im.convert('RGB')] *)
  im_convert_rgb : image → result image;
  (** [im.save(path)] *)
  im_save : image → string → files → files * result ();
  (** [bg = Image.new("RGB", im.size, "WHITE"); bg.paste(im, (0, 0), im)]:
      the image composited onto an opaque white background *)
  white_composite : image → result image
}.

(** The body of the [try]: the image bound to [im] when the body ends,
    the file system, and how the body ended. *)
Definition save_attempt `{ImageLib} (im : image) (path : string) (fs : files)
  : image * files * result () :=
  if endswith (lower path) "jpg" || endswith (lower path) "jpeg" then
    if bool_decide (im_mode im ≠ "RGB") then
      match im_convert_rgb im with
      | Ok converted => let '(fs, r) := im_save converted path fs in (converted, fs, r)
      | Raise e => (im, fs, Raise e)
      end
    else let '(fs, r) := im_save im path fs in (im, fs, r)
  else let '(fs, r) := im_save im path fs in (im, fs, r).

(** [except OSError as e] catches [OSError] and its subclasses and looks
    at [str(e)]; an exception with any other text, of whatever class, leaves
    [save_image] as it was raised. *)
Definition save_image `{ImageLib} (im : image) (path : string) (fs : files)
  : files * result () :=
  let '(im, fs, r) := save_attempt im path fs in
  match r with
  | Ok _ => (fs, Ok ())
  | Raise (OSError text) =>
      if bool_decide (text = "cannot write mode RGBA as JPEG") then
        match white_composite im with
        | Ok bg => im_save bg path fs
        | Raise e' => (fs, Raise e')
        end
      else (fs, Raise (OSError text))
  | Raise e => (fs, Raise e)
  end.

(** ** ConfigResolver: [get_extra_comic_info] *)

Abbreviation config_store := (gmap loc config).

(** [del comic_info[section]]: the default section cannot be removed, and
    a section that is not there is a [KeyError]. *)
Definition del_section (c : config) (section : string) : result config :=
  if bool_decide (section = DEFAULT_SECTION) then
    Raise (ExternalError "ValueError" "Cannot remove the default section.")
  else if has_section c section then
    Ok {| cfg_defaults := cfg_defaults c; cfg_sections := delete section (cfg_sections c) |}
  else Raise (KeyError section).

(** [comic_info.read(path)] for a file with the given content: the file's
    options are written over the parser's, section by section; sections and
    options the file does not mention stay. *)
Definition read_into (c file : config) : config :=
  {| cfg_defaults := cfg_defaults file ∪ cfg_defaults c;
     cfg_sections := union_with (λ new old, Some (new ∪ old)) (cfg_sections file) (cfg_sections c) |}.

Definition empty_config : config := {| cfg_defaults := ∅; cfg_sections := ∅ |}.

(** [deepcopy(comic_info)]: a new parser object with the same content. *)
Definition deepcopy (h : config_store) (r : loc) : result (config_store * loc) :=
  match h !! r with
  | Some c => let copied := fresh (dom h) in Ok (<[copied := c]> h, copied)
  | None => Raise NoSuchObject
  end.

(** An in-place change of the parser object at [r]. *)
Definition modify (h : config_store) (r : loc) (f : config → result config)
  : result config_store :=
  match h !! r with
  | Some c => c' ← f c; Ok (<[r := c']> h)
  | None => Raise NoSuchObject
  end.

(** [get_extra_comic_info].  [comic_info] refers to the main site's parser
    in the store; [file] is the satellite's
    [f"{CONTENT_DIR}/{folder_name}/comic_info.ini"]: [None] when there is no
    such file ([read] skips it), else what parsing it gives.  The name
    [comic_info] is rebound to the copy, which the later statements change in
    place. *)
Definition get_extra_comic_info (h : config_store) (comic_info : loc)
    (file : option (result config)) : result (config_store * loc) :=
  '(h, comic_info) ← deepcopy h comic_info;
  h ← modify h comic_info (λ c, del_section c "Pages");
  extra_comic_info ← match file with
                     | Some parsed => parsed
                     | None => Ok empty_config
                     end;
  h ← (if has_section extra_comic_info "Links Bar"
       then modify h comic_info (λ c, del_section c "Links Bar")
       else Ok h);
  h ← modify h comic_info (λ c, Ok (read_into c extra_comic_info));
  Ok (h, comic_info).

(** The page name of the record at position [i], when there is one. *)
Definition page_name_of (comic_list : list dict) (i : nat) : option value :=
  comic_list !! i ≫= λ page, page !! "page_name".

(** ** TranscriptLoader: [get_transcripts] *)

(** An insertion-ordered mapping with string keys ([OrderedDict]). *)
Abbreviation odict V := (list (string * V)).

(** [d[k]] when [k] is a key. *)
Fixpoint odict_lookup {V} (k : string) (d : odict V) : option V :=
  match d with
  | [] => None
  | (k', v) :: rest => if bool_decide (k' = k) then Some v else odict_lookup k rest
  end.

(** [d[k] = v]: a key that is present keeps its place, a new key goes to
    the end. *)
Fixpoint odict_set {V} (k : string) (v : V) (d : odict V) : odict V :=
  match d with
  | [] => [(k, v)]
  | (k', v') :: rest =>
      if bool_decide (k' = k) then (k, v) :: rest else (k', v') :: odict_set k v rest
  end.

(** [d.move_to_end(k, last=False)] on a key that is present. *)
Definition move_to_front {V} (k : string) (d : odict V) : odict V :=
  filter (λ kv, kv.1 = k) d ++ filter (λ kv, kv.1 ≠ k) d.

(** The text before the first occurrence of [c], all of it when there is
    none, and the text after that occurrence, when there is one. *)
Fixpoint before_first (c : ascii) (s : string) : string :=
  match s with
  | EmptyString => EmptyString
  | String a s' => if bool_decide (a = c) then EmptyString else String a (before_first c s')
  end.

Fixpoint after_first (c : ascii) (s : string) : option string :=
  match s with
  | EmptyString => None
  | String a s' => if bool_decide (a = c) then Some s' else after_first c s'
  end.

(** [os.path.basename(path)]: what follows the last slash. *)
Definition basename (path : string) : string :=
  String.rev (before_first "/" (String.rev path)).

(** [os.path.splitext(name)[0]] for a name without a slash: the name up to
    its last dot, or the whole name when it has no dot or only dots come
    before the last one. *)
Definition splitext_root (name : string) : string :=
  match after_first "." (String.rev name) with
  | Some reversed =>
      let root := String.rev reversed in
      if bool_decide (lstrip_with (λ a, bool_decide (a = "."%char)) root = "") then name
      else root
  | None => name
  end.

(** The files and the converter that the loader reads through. *)
Class TranscriptFiles := {
  (** [glob(os.path.join(transcripts_dir, page_name, "*.txt"))]: the paths
      found, in any order, each with what [f.read().decode("utf-8")] gives *)
  glob_txt : string → string → list (string * result string);
  (** [MARKDOWN.convert(text)] *)
  markdown_convert : string → string
}.

(** One iteration of the loop of [load_transcripts_from_folder]. *)
Definition load_transcript `{TranscriptFiles} (transcripts : odict string)
    (file : string * result string) : result (odict string) :=
  let '(transcript_path, content) := file in
  if endswith transcript_path "post.txt" then Ok transcripts
  else
    let language := splitext_root (basename transcript_path) in
    text ← content;
    Ok (odict_set language (markdown_convert text) transcripts).

(** [load_transcripts_from_folder]: the mapping is updated in place, which
    the model returns. *)
Definition load_transcripts_from_folder `{TranscriptFiles} (transcripts : odict string)
    (transcripts_dir page_name : string) : result (odict string) :=
  for_each load_transcript
    (sort_by str_ltb ((λ file : string * result string, (file.1, file)) <$>
               glob_txt transcripts_dir page_name)).*2
    transcripts.

(** [get_transcripts]; [content_dir] is the global [CONTENT_DIR]. *)
Definition get_transcripts `{TranscriptFiles} (content_dir comic_folder : string)
    (comic_info : config) (page_name : string) : result (odict string) :=
  enabled ← cfg_getboolean comic_info "Transcripts" "Enable transcripts";
  if negb (enabled : bool) then Ok []
  else
    from_comic_folder ←
      get_option_bool comic_info "Transcripts" "Load transcripts from comic folder" true;
    transcripts ←
      (if (from_comic_folder : bool)
       then load_transcripts_from_folder []
              (content_dir +:+ "/" +:+ comic_folder +:+ "comics") page_name
       else Ok []);
    transcripts_dir ← get_option comic_info "Transcripts" "Transcripts folder" "";
    transcripts ←
      (if bool_decide ((transcripts_dir : string) ≠ "")
       then load_transcripts_from_folder transcripts transcripts_dir page_name
       else Ok transcripts);
    default_language ← get_option comic_info "Transcripts" "Default language" "English";
    if bool_decide (default_language ∈ (transcripts : odict string).*1)
    then Ok (move_to_front default_language transcripts)
    else Ok transcripts.

(** ** PageWriter: [write_other_pages], [delete_output_file_space] *)

(** [os.path.join(a, b)] *)
Definition path_join (a b : string) : string :=
  if startswith b "/" then b
  else if bool_decide (a = "") || endswith a "/" then a +:+ b
  else a +:+ "/" +:+ b.

(** An entry of [get_pages_list]: an option of the section [Pages] and its
    value. *)
Record page_entry := {
  template_name : string;
  title : string
}.

(** What [utils.write_to_template] receives for a page that is no comic
    page. *)
Record page_write := {
  pw_template : string;
  pw_html_path : string;
  pw_data : dict
}.

(** What one entry of the page list gives rise to: the tagged pages, or a
    page of its own. *)
Inductive other_write :=
| TaggedPages (tagged : list tagged_write)
| TemplatePage (written : page_write).

(** The body of the loop of [write_other_pages]; [None] is a [continue]
    that writes nothing. *)
Definition write_other_page (h : store) (comic_folder : string)
    (comic_data_dicts : list loc) (global_values last_comic_page : dict) (p : page_entry)
  : result (option other_write) :=
  if bool_decide (template_name p = "tagged") then
    tagged ← write_tagged_pages h comic_data_dicts global_values;
    Ok (Some (TaggedPages tagged))
  else
    let html_path :=
      if bool_decide (lower (template_name p) ∈ ["index"; "404"])
      then template_name p +:+ ".html"
      else path_join (template_name p) "index.html" in
    let html_path :=
      if bool_decide (comic_folder ≠ "") then path_join comic_folder html_path
      else html_path in
    if bool_decide (template_name p = "latest") && bool_decide (comic_data_dicts = [])
    then Ok None
    else
      let data_dict : dict := dict_update ∅ last_comic_page in
      let data_dict :=
        if bool_decide (title p ≠ "") then <["page_title" := VStr (title p)]> data_dict
        else data_dict in
      let data_dict := dict_update data_dict global_values in
      Ok (Some (TemplatePage {| pw_template := template_name p;
                                pw_html_path := html_path;
                                pw_data := data_dict |})).

(** [write_other_pages], given the list that [get_pages_list] returns. *)
Definition write_other_pages (h : store) (comic_folder : string) (pages_list : list page_entry)
    (comic_data_dicts : list loc) (global_values : dict) : result (list other_write) :=
  last_comic_page ← (if bool_decide (comic_data_dicts = []) then Ok ∅
                     else r ← list_getitem comic_data_dicts (-1); deref h r);
  written ← mapM (write_other_page h comic_folder comic_data_dicts global_values
                    last_comic_page) pages_list;
  Ok (omap id written).

(** What [delete_output_file_space] asks to have removed, each when it
    exists: a directory with all it holds, or a file. *)
Inductive removal :=
| RemoveTree (path : string)
| RemoveFile (path : string).

(** The body of the loop over the page list. *)
Definition page_removal (p : page_entry) : removal :=
  if bool_decide (template_name p = "index") then RemoveFile "index.html"
  else if bool_decide (template_name p = "404") then RemoveFile "404.html"
  else RemoveTree (template_name p).

Definition delete_output_file_space (pages_list : list page_entry) (extra_comics : list string)
  : list removal :=
  [RemoveTree "comic"; RemoveFile "feed.xml"] ++
  (page_removal <$> pages_list) ++
  (RemoveTree <$> extra_comics).

(** ** ThumbnailProcessor: [process_comic_image], [process_comic_images] *)

(** The text from the first occurrence of [c] on, empty when there is
    none. *)
Fixpoint from_first (c : ascii) (s : string) : string :=
  match s with
  | EmptyString => EmptyString
  | String a s' => if bool_decide (a = c) then s else from_first c s'
  end.

Definition is_slash (c : ascii) : bool := bool_decide (c = "/"%char).

(** [os.path.dirname(path)]: the path up to its last slash, without the
    slashes at the end unless slashes are all there is. *)
Definition dirname (path : string) : string :=
  let head := String.rev (from_first "/" (String.rev path)) in
  if bool_decide (lstrip_with is_slash head = "") then head
  else rstrip_with is_slash head.

(** What [process_comic_image] needs of the image library besides what
    [save_image] needs. *)
Class ImageFiles `{ImageLib} := {
  (** [Image.open(f)] on the file opened at a path *)
  image_open : string → files → result image;
  (** [im.size] *)
  im_size : image → Z * Z;
  (** [im.resize((w, h))] *)
  im_resize : image → Z * Z → result image;
  (** [os.path.isfile(path)] *)
  isfile : string → files → bool
}.

(** [os.path.join(comic_page_dir, "thumbnail.jpg")] in
    [process_comic_image] *)
Definition thumbnail_path_of (comic_page_path : string) : string :=
  path_join (dirname comic_page_path) "thumbnail.jpg".

Definition process_comic_image `{ImageFiles} (comic_info : config) (comic_page_path : string)
    (fs : files) : files * result () :=
  match image_open comic_page_path fs with
  | Raise e => (fs, Raise e)
  | Ok im =>
      let thumbnail_path := thumbnail_path_of comic_page_path in
      match cfg_getboolean comic_info "Image Reprocessing" "Overwrite existing images" with
      | Raise e => (fs, Raise e)
      | Ok overwrite =>
          if overwrite || negb (isfile thumbnail_path fs) then
            match (size ← cfg_get comic_info "Image Reprocessing" "Thumbnail size";
                   dimensions ← resize (im_size im) size;
                   im_resize im dimensions) with
            | Raise e => (fs, Raise e)
            | Ok thumb_im => save_image thumb_im thumbnail_path fs
            end
          else (fs, Ok ())
      end
  end.

(** The loop of [process_comic_images] over the records. *)
Fixpoint process_each `{ImageFiles} (h : store) (comic_info : config)
    (comic_data_dicts : list loc) (fs : files) : files * result () :=
  match comic_data_dicts with
  | [] => (fs, Ok ())
  | r :: rest =>
      match (comic_data ← deref h r; getitem comic_data "comic_path") with
      | Raise e => (fs, Raise e)
      | Ok (VStr comic_path) =>
          match process_comic_image comic_info comic_path fs with
          | (fs, Ok _) => process_each h comic_info rest fs
          | (fs, Raise e) => (fs, Raise e)
          end
      | Ok _ => (fs, Raise TypeError)
      end
  end.

Definition process_comic_images `{ImageFiles} (h : store) (comic_info : config)
    (comic_data_dicts : list loc) (fs : files) : files * result () :=
  match cfg_getboolean comic_info "Image Reprocessing" "Create thumbnails" with
  | Raise e => (fs, Raise e)
  | Ok true => process_each h comic_info comic_data_dicts fs
  | Ok false => (fs, Ok ())
  end.

(** ** Reference notions for the indices *)

(** The bucket a record goes to, when it goes to one. *)
Definition record_label (h : store) (show_uncategorized : bool) (r : loc) : option string :=
  match deref h r ≫= λ d, storyline_label d show_uncategorized with
  | Ok label => label
  | Raise _ => None
  end.

(** The distinct labels of a list, each at its first position. *)
Fixpoint first_seen (labels : list string) : list string :=
  match labels with
  | [] => []
  | x :: rest => x :: filter (λ y, y ≠ x) (first_seen rest)
  end.

(** The entries of a record as the store has them. *)
Definition contents (h : store) (refs : list loc) : list (option dict) :=
  (λ r, h !! r) <$> refs.

(** The label of the record can be computed: the record is in the store
    and its storyline is [None], a string or an empty list. *)
Definition labelled (h : store) (show_uncategorized : bool) (r : loc) : Prop :=
  is_Ok (deref h r ≫= λ d, storyline_label d show_uncategorized).

Definition well_labelled (h : store) (show_uncategorized : bool) (refs : list loc) : Prop :=
  ∀ r, r ∈ refs → labelled h show_uncategorized r.

(** The records among [refs] that go to the bucket [label]. *)
Definition records_labelled (h : store) (show_uncategorized : bool) (label : string)
    (refs : list loc) : list loc :=
  filter (λ r, record_label h show_uncategorized r = Some label) refs.

(** What the loop of [get_storylines] maintains, after the records
    [visited]: the records of the initial store are untouched, the keys are
    the labels seen so far in order of first appearance, and every bucket
    holds fresh objects whose entries are those of the records with that
    label, in order. *)
Definition storylines_inv (h : store) (show_uncategorized : bool) (visited : list loc)
    (st : store * index) : Prop :=
  (∀ r d, h !! r = Some d → st.1 !! r = Some d) ∧
  st.2.*1 = first_seen (omap (record_label h show_uncategorized) visited) ∧
  ∀ label bucket, index_lookup label st.2 = Some bucket →
    contents st.1 bucket = contents h (records_labelled h show_uncategorized label visited) ∧
    Forall (λ e, h !! e = None ∧ is_Some (st.1 !! e)) bucket.

(** The labels under which [write_tagged_pages] files a record: its
    characters, then its tags. *)
Definition tag_labels (h : store) (page : loc) : result (list string) :=
  d ← deref h page;
  characters ← iterate_labels (dict_get d "characters" (VList []));
  labels ← iterate_labels (dict_get d "tags" (VList []));
  Ok (characters ++ labels).

Definition tag_labels_of (h : store) (page : loc) : list string :=
  match tag_labels h page with
  | Ok labels => labels
  | Raise _ => []
  end.

(** How often [label] occurs among [labels]. *)
Definition occurrences (label : string) (labels : list string) : nat :=
  length (filter (λ l, l = label) labels).

(** The bucket of [label]: every page, in order, once for each time it
    carries the label. *)
Definition tagged_refs (h : store) (label : string) (pages : list loc) : list loc :=
  flat_map (λ page, replicate (occurrences label (tag_labels_of h page)) page) pages.

(** What the loops of [write_tagged_pages] maintain after the pages
    [visited] and the labels [seen] of the page [page] being filed. *)
Definition tag_index_inv (h : store) (visited : list loc) (page : loc) (seen : list string)
    (tags : index) : Prop :=
  tags.*1 = first_seen (flat_map (tag_labels_of h) visited ++ seen) ∧
  ∀ label,
    index_lookup label tags =
      if decide (label ∈ flat_map (tag_labels_of h) visited ++ seen)
      then Some (tagged_refs h label visited ++ replicate (occurrences label seen) page)
      else None.

(** ** Reference notions for the page order *)

(** A boolean [<] that is a strict total order. *)
Class StrictTotalB {K} (ltb : K → K → bool) := {
  ltb_irrefl : ∀ a, ltb a a = false;
  ltb_trans : ∀ a b c, ltb a b = true → ltb b c = true → ltb a c = true;
  ltb_total : ∀ a b, a ≠ b → ltb a b = true ∨ ltb b a = true
}.

(** [a] may stand before [b] in an ascending list: [b] is not smaller. *)
Definition not_after {K} (ltb : K → K → bool) (a b : K) : Prop := ltb b a = false.

(** A keyed list is ascending. *)
Definition ascending {K A} (ltb : K → K → bool) (l : list (K * A)) : Prop :=
  StronglySorted (λ x y, not_after ltb x.1 y.1) l.

(** A keyed list keeps, for every key, the elements of that key in the
    order they have in another list. *)
Definition same_order_per_key {K A} `{EqDecision K} (l1 l2 : list (K * A)) : Prop :=
  ∀ k, filter (λ x, x.1 = k) l1 = filter (λ x, x.1 = k) l2.

(** ** Reference notions for the scanner *)

(** What one iteration of the scanning loop does with a page: skip it (no
    [info.ini]), hold it back as scheduled, or publish its record. *)
Inductive page_outcome :=
| Skipped
| Scheduled
| Published (page_info : dict).

#[global] Instance page_outcome_eq_dec : EqDecision page_outcome.
Proof. solve_decision. Defined.

Definition outcome_of `{Collaborators} (comics_dir comic_folder theme : string)
    (comic_info : config) (date_format : string) (tz_info : tzinfo) (local_time : Z)
    (auto_detect_comic_images publish_all_comics : bool) (p : page_dir)
  : result page_outcome :=
  match info_ini p with
  | None => Ok Skipped
  | Some read =>
      info ← read;
      text ← match info !! "Post date" with
             | Some text => Ok text
             | None => Raise (KeyError "Post date")
             end;
      dt ← datetime_strptime text date_format;
      post_date ← localize tz_info dt;
      if (local_time <? post_date) && negb publish_all_comics then Ok Scheduled
      else
        Published <$> publish_page comics_dir comic_folder theme comic_info
                        auto_detect_comic_images p info
  end.

(** The records of the published pages, in scanning order. *)
Definition published_records (outcomes : list page_outcome) : list dict :=
  omap (λ o, match o with Published r => Some r | _ => None end) outcomes.

(** The number of pages held back. *)
Definition scheduled_count (outcomes : list page_outcome) : Z :=
  Z.of_nat (length (filter (λ o, o = Scheduled) outcomes)).

(** The directories of the pages held back. *)
Fixpoint scheduled_paths (comics_dir : string) (pages : list page_dir)
    (outcomes : list page_outcome) : list string :=
  match pages, outcomes with
  | p :: pages', o :: outcomes' =>
      (if decide (o = Scheduled) then [comics_dir +:+ dir_name p +:+ "/"] else []) ++
      scheduled_paths comics_dir pages' outcomes'
  | _, _ => []
  end.

(** The state of the scanning loop after pages with the given outcomes. *)
Definition state_after (comics_dir : string) (delete_scheduled_posts : bool)
    (st : scan_state) (pages : list page_dir) (outcomes : list page_outcome) : scan_state :=
  {| page_info_list := page_info_list st ++ published_records outcomes;
     scheduled_post_count := scheduled_post_count st + scheduled_count outcomes;
     deleted_paths :=
       deleted_paths st ++
       (if delete_scheduled_posts then scheduled_paths comics_dir pages outcomes else []) |}.

(** The record a page ends up with after the hook: the hook's return
    value when it is a non-empty dictionary, else the dictionary as the hook
    left it. *)
Definition after_hook (hooked : dict * option dict) : dict :=
  match hooked.2 with
  | Some replaced => if bool_decide (replaced = ∅) then hooked.1 else replaced
  | None => hooked.1
  end.

(** The theme's hook leaves the page name alone. *)
Definition hook_keeps_page_name `{Collaborators} : Prop :=
  ∀ theme comic_folder comic_info page_path page_info hooked,
    extra_page_info_processing theme comic_folder comic_info page_path page_info = Ok hooked →
    after_hook hooked !! "page_name" = page_info !! "page_name".

(** The theme has no hook for page records: [run_hook] finds no
    [hooks.py], or no function of that name in it, returns [None] and leaves
    the record as it is. *)
Definition no_page_hook `{Collaborators} : Prop :=
  ∀ theme comic_folder comic_info page_path page_info,
    extra_page_info_processing theme comic_folder comic_info page_path page_info
      = Ok (page_info, None).

(** The pairs of key and record that [sorted] works on. *)
Definition keyed_by `{Collaborators} (date_format : string)
    (keyed : list ((struct_time * string) * dict)) : Prop :=
  Forall (λ kx, sort_key date_format kx.2 = Ok kx.1) keyed.

(** The record [r] has the sort key [k]. *)
Definition has_key `{Collaborators} (date_format : string) (k : struct_time * string)
    (r : dict) : Prop :=
  sort_key date_format r = Ok k.

#[global] Instance has_key_dec `{Collaborators} date_format k r :
  Decision (has_key date_format k r).
Proof. unfold has_key. apply _. Defined.

(** ** Reference notions for the further properties *)

(** The characters and the tags of a record can be iterated. *)
Definition taggable (d : dict) : Prop :=
  is_Ok (iterate_labels (dict_get d "characters" (VList []))) ∧
  is_Ok (iterate_labels (dict_get d "tags" (VList []))).

(** How often the character [c] occurs in [s]. *)
Fixpoint count_char (c : ascii) (s : string) : nat :=
  match s with
  | EmptyString => 0
  | String a s' => (if bool_decide (a = c) then 1 else 0) + count_char c s'
  end.

(** What a computation returns, with a fallback for the case that it raises. *)
Definition result_default {A} (dflt : A) (r : result A) : A :=
  match r with
  | Ok a => a
  | Raise _ => dflt
  end.

(** A computation that does not end in the error of unpacking. *)
Definition no_unpack {A} (r : result A) : Prop := ∀ n, r ≠ Raise (UnpackError n).

(** The files of a folder that the loader reads for a language: those
    named after the language, but for the paths that end in [post.txt]. *)
Definition language_files `{TranscriptFiles} (transcripts_dir page_name language : string)
  : list (string * result string) :=
  filter (λ file, endswith file.1 "post.txt" = false ∧
                  splitext_root (basename file.1) = language)
         (glob_txt transcripts_dir page_name).

(** The folders that [get_transcripts] reads, in the order it reads them:
    the comic folder unless that is switched off, then the configured
    transcripts folder, when one is configured. *)
Definition transcript_folders (content_dir comic_folder : string) (comic_info : config)
  : list string :=
  match get_option_bool comic_info "Transcripts" "Load transcripts from comic folder" true with
  | Ok true => [content_dir +:+ "/" +:+ comic_folder +:+ "comics"]
  | _ => []
  end ++
  match get_option comic_info "Transcripts" "Transcripts folder" "" with
  | Ok transcripts_dir => if bool_decide (transcripts_dir ≠ "") then [transcripts_dir] else []
  | Raise _ => []
  end.

(** A removal covers a path: the path is the removed file, or it begins
    with the name of the removed directory, taken without slashes at its
    end, and a slash.  A directory with the empty name does not exist and
    covers nothing. *)
Definition covers (r : removal) (path : string) : Prop :=
  match r with
  | RemoveFile file => path = file
  | RemoveTree dir => dir ≠ "" ∧ ∃ rest, path = rstrip_with is_slash dir +:+ "/" +:+ rest
  end.

(** The record has a comic image that opens and whose thumbnail is
    already on the file system. *)
Definition thumbnail_kept `{ImageFiles} (h : store) (fs : files) (r : loc) : Prop :=
  ∃ d comic_path im,
    h !! r = Some d ∧ d !! "comic_path" = Some (VStr comic_path) ∧
    image_open comic_path fs = Ok im ∧
    isfile (thumbnail_path_of comic_path) fs = true.

(** ** Sample inputs *)

(** A list of two pages. *)
Definition two_pages : list dict :=
  [{["page_name" := VStr "page-1"]}; {["page_name" := VStr "page-2"]}].

(** Every character of [s] satisfies [p]. *)
Fixpoint all_chars (p : ascii → bool) (s : string) : bool :=
  match s with
  | EmptyString => true
  | String c s' => p c && all_chars p s'
  end.

(** The file separator 0x1c, which [str.strip()] removes and [float()]
    does not skip. *)
Definition file_separator : string := String (ascii_of_N 28) EmptyString.

(** A run of whitespace, possibly empty. *)
Definition whitespace (s : string) : Prop := all_chars is_space s = true.

(** A number as it is written in a specification: not empty, and free of
    whitespace, commas and percent signs. *)
Definition plain_char (c : ascii) : bool :=
  negb (is_space c) && negb (bool_decide (c = ","%char)) && negb (bool_decide (c = "%"%char)).

Definition token (s : string) : Prop := s ≠ "" ∧ all_chars plain_char s = true.

(** [(x, y)] for two computations run in that order. *)
Definition result_pair {A B} (x : result A) (y : result B) : result (A * B) :=
  a ← x; b ← y; Ok (a, b).

(** A small image library: an image is its mode, the file system the list
    of files written with their modes.  The encoder is chosen from the
    extension; the JPEG encoder refuses the mode [RGBA]. *)
Definition sample_is_jpeg (path : string) : bool :=
  existsb (endswith (lower path)) [".jpg"; ".jpeg"; ".jpe"; ".jfif"].

Definition sample_image_lib : ImageLib := {|
  image := string;
  files := list (string * string);
  im_mode := λ im, im;
  im_convert_rgb := λ _, Ok "RGB";
  im_save := λ im path fs,
    if sample_is_jpeg path && bool_decide (im ≠ "RGB") then
      (fs, Raise (OSError ("cannot write mode " +:+ im +:+ " as JPEG")))
    else (fs ++ [(path, im)], Ok ());
  white_composite := λ im,
    if bool_decide (im = "RGBA") then Ok "RGB"
    else Raise (ExternalError "ValueError" "bad transparency mask")
|}.

(** An assembled record with the fields the indices read. *)
Definition sample_record (name : string) (storyline : value)
    (characters tags : list string) : dict :=
  {[ "page_name" := VStr name; "storyline" := storyline;
     "characters" := VList characters; "tags" := VList tags ]}.

(** Four records: storylines "A", [None], "B", [None]; the first is tagged
    "x" and "y" and has the character "y". *)
Definition sample_store : store :=
  {[ 1%positive := sample_record "p1" (VStr "A") ["y"] ["x"; "y"];
     2%positive := sample_record "p2" VNone [] [];
     3%positive := sample_record "p3" (VStr "B") [] [];
     4%positive := sample_record "p4" VNone [] [] ]}.

Definition sample_records : list loc := [1; 2; 3; 4]%positive.

(** The value of an option of a section, when the section has it. *)
Definition section_option (c : config) (section name : string) : option string :=
  cfg_sections c !! section ≫= λ opts, opts !! name.

(** What a satellite's file contributes: nothing when there is no file. *)
Definition file_config (file : option (result config)) : result config :=
  match file with
  | Some parsed => parsed
  | None => Ok empty_config
  end.

(** A main configuration and a satellite file that defines pages of its
    own, overrides the theme, and has no link bar. *)
Definition sample_main : config :=
  {| cfg_defaults := ∅;
     cfg_sections :=
       {[ "Pages" := {[ "index" := "Home"; "archive" := "Archive" ]};
          "Links Bar" := {[ "Archive" := "/archive" ]};
          "Comic Settings" := {[ "Theme" := "default"; "Date format" := "%B %d, %Y" ]} ]} |}.

Definition sample_extra : config :=
  {| cfg_defaults := ∅;
     cfg_sections :=
       {[ "Pages" := {[ "index" := "Extra" ]};
          "Comic Settings" := {[ "Theme" := "dark" ]} ]} |}.

Definition sample_config_store : config_store := {[ 1%positive := sample_main ]}.


(** A small date library: a date is written as eight digits, year, month
    and day; every timezone is UTC and an instant is the number the digits
    spell.  Labels are separated by commas; the theme has no hooks. *)
Definition sample_struct_time (n : Z) : struct_time :=
  {| tm_year := n / 10000; tm_mon := (n / 100) mod 100; tm_mday := n mod 100;
     tm_hour := 0; tm_min := 0; tm_sec := 0; tm_wday := 0; tm_yday := 0; tm_isdst := -1 |}.

Definition sample_collaborators : Collaborators := {|
  tzinfo := ();
  datetime := Z;
  timezone := λ _, Ok ();
  datetime_strptime := λ text _,
    match int_literal text with Some n => Ok n | None => Raise (BadDate text) end;
  localize := λ _ dt, Ok dt;
  time_strptime := λ text _,
    match int_literal text with
    | Some n => Ok (sample_struct_time n)
    | None => Raise (BadDate text)
    end;
  str_to_list := λ text, if bool_decide (text = "") then [] else strip <$> split_on "," text;
  extra_page_info_processing := λ _ _ _ _ page_info, Ok (page_info, None)
|}.

Definition sample_comic_info : config :=
  {| cfg_defaults := ∅;
     cfg_sections :=
       {[ "Comic Settings" := {[ "Date format" := "%Y%m%d"; "Timezone" := "UTC" ]} ]} |}.

Definition sample_page (name date : string) : page_dir :=
  {| dir_name := name;
     info_ini := Some (Ok {[ "Post date" := date; "Filename" := name +:+ ".png";
                             "Title" := name; "Alt text" := "" ]});
     dir_listing := [name +:+ ".png"; "info.ini"] |}.

(** Three pages: two of the same day, scanned in the order opposite to
    their names, and one dated after the build. *)
Definition sample_pages : list page_dir :=
  [sample_page "b" "20240105"; sample_page "later" "20990101"; sample_page "a" "20240105"].

Definition sample_now : Z := 20240301.


(** The records that the sample scan returns with publish-all off. *)
Definition sample_sorted : list dict :=
  match @get_page_info_list sample_collaborators "content/comics/" sample_pages sample_now
          "" sample_comic_info true false with
  | Ok (l, _, _) => l
  | Raise _ => []
  end.

(** The metadata of the sample page dated after the build. *)
Definition sample_later_info : gmap string string :=
  {[ "Post date" := "20990101"; "Filename" := "later" +:+ ".png";
     "Title" := "later"; "Alt text" := "" ]}.

(** A configuration whose auto-detection flag is no boolean literal. *)
Definition sample_bad_flag : config :=
  {| cfg_defaults := ∅;
     cfg_sections := {[ "Comic Settings" := {[ "Auto-detect comic images" := "maybe" ]} ]} |}.

(** The first record of the sample scan. *)
Definition sample_first : dict := default ∅ (head sample_sorted).

(** A page directory whose metadata names no image, and which holds one
    image besides the thumbnail. *)
Definition sample_info_no_image : gmap string string :=
  {[ "Post date" := "20240110"; "Title" := "c"; "Alt text" := "" ]}.

Definition sample_page_no_image : page_dir :=
  {| dir_name := "c";
     info_ini := Some (Ok sample_info_no_image);
     dir_listing := ["c.png"; "thumbnail.jpg"; "info.ini"] |}.

(** The sample store with a fifth record, which has no storyline entry. *)
Definition sample_store_unlabelled : store :=
  <[5%positive := {[ "page_name" := VStr "p5" ]}]> sample_store.

(** Transcripts of the page "p1": three files and the post text in the
    comic folder, one of them not decodable but never read, and two files
    in the folder "scripts". *)
Definition sample_transcript_files : TranscriptFiles := {|
  glob_txt := λ transcripts_dir page_name,
    if bool_decide (transcripts_dir = "content/comics") then
      [(transcripts_dir +:+ "/" +:+ page_name +:+ "/post.txt", Ok "The post");
       (transcripts_dir +:+ "/" +:+ page_name +:+ "/French.txt", Ok "bonjour");
       (transcripts_dir +:+ "/" +:+ page_name +:+ "/English.txt", Ok "hello");
       (transcripts_dir +:+ "/" +:+ page_name +:+ "/Compost.txt",
        Raise (ExternalError "UnicodeDecodeError" "invalid start byte"))]
    else if bool_decide (transcripts_dir = "scripts") then
      [(transcripts_dir +:+ "/" +:+ page_name +:+ "/French.txt", Ok "salut");
       (transcripts_dir +:+ "/" +:+ page_name +:+ "/Deutsch.txt", Ok "hallo")]
    else [];
  markdown_convert := λ text, "<p>" +:+ text +:+ "</p>"
|}.

Definition sample_transcripts_info : config :=
  {| cfg_defaults := ∅;
     cfg_sections :=
       {[ "Transcripts" := {[ "Enable transcripts" := "True";
                              "Transcripts folder" := "scripts";
                              "Default language" := "Deutsch" ]} ]} |}.

(** What [get_transcripts] returns for the page "p1". *)
Definition sample_transcripts : odict string :=
  [("Deutsch", "<p>hallo</p>"); ("English", "<p>hello</p>"); ("French", "<p>salut</p>")].

(** The pages of a site, and what [write_other_pages] writes for them after
    the four sample records, for the main comic and for a satellite. *)
Definition sample_pages_list : list page_entry :=
  [ {| template_name := "index"; title := "" |};
    {| template_name := "archive"; title := "Archive" |};
    {| template_name := "tagged"; title := "" |};
    {| template_name := "latest"; title := "" |};
    {| template_name := "404"; title := "Page not found" |} ].

Definition sample_other_writes (comic_folder : string) : list other_write :=
  match write_other_pages sample_store comic_folder sample_pages_list sample_records
          {["version" := VStr "0.3.8"]} with
  | Ok writes => writes
  | Raise _ => []
  end.

(** The page written for the archive. *)
Definition sample_archive_write (comic_folder : string) : page_write :=
  match sample_other_writes comic_folder !! 1%nat with
  | Some (TemplatePage w) => w
  | _ => {| pw_template := ""; pw_html_path := ""; pw_data := ∅ |}
  end.

(** The tagged pages written for the sample records, and the first of
    them. *)
Definition sample_tagged (comic_folder : string) : list tagged_write :=
  match sample_other_writes comic_folder !! 2%nat with
  | Some (TaggedPages tagged) => tagged
  | _ => []
  end.

Definition sample_tagged_write (comic_folder : string) : tagged_write :=
  default {| tw_html_path := ""; tw_tag := ""; tw_tagged_pages := []; tw_global_values := ∅ |}
          (head (sample_tagged comic_folder)).

(** A file system as [sample_image_lib] has it, with one page whose
    thumbnail exists; every image is 200 by 100. *)
Definition sample_image_files : @ImageFiles sample_image_lib :=
  @Build_ImageFiles sample_image_lib
    (λ path (fs : list (string * string)),
       match (list_to_map fs : gmap string string) !! path with
       | Some mode => Ok mode
       | None => Raise (ExternalError "FileNotFoundError" path)
       end)
    (λ _, (200, 100))
    (λ (im : string) _, Ok im)
    (λ path (fs : list (string * string)), bool_decide (path ∈ fs.*1)).

Definition sample_files : list (string * string) :=
  [("content/comics/p1/a.png", "RGBA"); ("content/comics/p1/thumbnail.jpg", "RGB")].

Definition sample_comic_paths : store :=
  {[ 1%positive := {[ "comic_path" := VStr "content/comics/p1/a.png" ]};
     2%positive := {[ "comic_path" := VStr "content/comics/p2/b.png" ]} ]}.

Definition sample_thumbnail_info : config :=
  {| cfg_defaults := ∅;
     cfg_sections :=
       {[ "Image Reprocessing" := {[ "Create thumbnails" := "True";
                                     "Overwrite existing images" := "False";
                                     "Thumbnail size" := "100, 36" ]} ]} |}.

(** * Properties *)

(** ** NavigationLinker *)

Lemma list_getitem_in_range {A} (l : list A) (i : Z) :
  0 ≤ i < Z.of_nat (length l) →
  ∃ x, l !! Z.to_nat i = Some x ∧ list_getitem l i = Ok x.
Proof.
  intros Hi. unfold list_getitem.
  destruct (Z.ltb_spec i 0) as [?|_]; [lia|].
  destruct (Z.leb_spec 0 i) as [_|?]; [|lia].
  destruct (Z.ltb_spec i (Z.of_nat (length l))) as [_|?]; [|lia].
  destruct (lookup_lt_is_Some_2 l (Z.to_nat i)) as [x Hx]; [lia|].
  exists x. by rewrite Hx.
Qed.

Lemma list_getitem_last {A} (l : list A) :
  l ≠ [] → list_getitem l (-1) = list_getitem l (Z.of_nat (length l) - 1).
Proof.
  intros Hl. assert (0 < length l)%nat by (destruct l; [done | simpl; lia]).
  unfold list_getitem.
  destruct (Z.ltb_spec (-1) 0) as [_|?]; [|lia].
  destruct (Z.ltb_spec (Z.of_nat (length l) - 1) 0) as [?|_]; [lia|].
  by replace (-1 + Z.of_nat (length l)) with (Z.of_nat (length l) - 1) by lia.
Qed.

Lemma page_name_at_in_range (comic_list : list dict) (i : Z) :
  0 ≤ i < Z.of_nat (length comic_list) →
  Forall (λ page : dict, is_Some (page !! "page_name")) comic_list →
  ∃ v, page_name_of comic_list (Z.to_nat i) = Some v ∧ page_name_at comic_list i = Ok v.
Proof.
  intros Hi Hall.
  destruct (list_getitem_in_range comic_list i Hi) as (page & Hpage & Hget).
  rewrite Forall_lookup in Hall. destruct (Hall _ _ Hpage) as [v Hv].
  exists v. unfold page_name_of, page_name_at, getitem.
  rewrite Hpage, Hget. simpl. by rewrite Hv.
Qed.

(** Two names read at the same position are the same name. *)
Ltac same_position :=
  repeat match goal with
  | H1 : page_name_of ?l ?a = Some ?v, H2 : page_name_of ?l ?b = Some ?w |- _ =>
      assert (a = b) as Hab by lia;
      rewrite Hab in H1; assert (v = w) by congruence; subst v; clear H1 Hab
  end.

(** C2.  For a non-empty page list whose records carry a page name, and an
    index in range, [get_ids] returns the five identifiers: [first_id] and
    [last_id] are the names of the first and the last record, [current_id]
    the name at [index], and [previous_id] and [next_id] the names at the
    neighbouring positions clamped to the list ([max 0 (index - 1)] and
    [min (len - 1) (index + 1)]).  At index 0 the previous, first and current
    identifiers coincide, at the last index the next, last and current ones,
    and for a single-element list all five are that element's name. *)
Theorem get_ids_clamps_at_boundaries (comic_list : list dict) (index : Z) :
  0 ≤ index < Z.of_nat (length comic_list) →
  Forall (λ page : dict, is_Some (page !! "page_name")) comic_list →
  ∃ ids, get_ids comic_list index = Ok ids ∧
    page_name_of comic_list 0 = Some (first_id ids) ∧
    page_name_of comic_list (length comic_list - 1) = Some (last_id ids) ∧
    page_name_of comic_list (Z.to_nat index) = Some (current_id ids) ∧
    page_name_of comic_list (Z.to_nat (Z.max 0 (index - 1))) = Some (previous_id ids) ∧
    page_name_of comic_list
      (Z.to_nat (Z.min (Z.of_nat (length comic_list) - 1) (index + 1))) = Some (next_id ids) ∧
    (index = 0 → previous_id ids = first_id ids ∧ first_id ids = current_id ids) ∧
    (index = Z.of_nat (length comic_list) - 1 →
       next_id ids = last_id ids ∧ last_id ids = current_id ids) ∧
    (length comic_list = 1%nat →
       first_id ids = current_id ids ∧ previous_id ids = current_id ids ∧
       next_id ids = current_id ids ∧ last_id ids = current_id ids).
Proof.
  intros Hi Hall.
  set (n := Z.of_nat (length comic_list)) in *.
  assert (Hne : comic_list ≠ []) by (intros ->; simpl in *; lia).
  destruct (page_name_at_in_range comic_list 0) as (vf & Hf & Ef); [lia|done|].
  destruct (page_name_at_in_range comic_list (Z.max 0 (index - 1))) as (vp & Hp & Ep); [lia|done|].
  destruct (page_name_at_in_range comic_list index) as (vc & Hc & Ec); [lia|done|].
  destruct (page_name_at_in_range comic_list (Z.min (n - 1) (index + 1))) as (vn & Hn & En);
    [lia|done|].
  destruct (page_name_at_in_range comic_list (n - 1)) as (vl & Hl & El); [lia|done|].
  assert (El' : page_name_at comic_list (-1) = Ok vl).
  { unfold page_name_at in *. by rewrite list_getitem_last. }
  exists {| first_id := vf; previous_id := vp; current_id := vc; next_id := vn; last_id := vl |}.
  split.
  { unfold get_ids. fold n. rewrite Ef, Ep, Ec, En, El'. reflexivity. }
  simpl. subst n.
  replace (Z.to_nat (Z.of_nat (length comic_list) - 1)) with (length comic_list - 1)%nat in Hl by lia.
  change (Z.to_nat 0) with 0%nat in Hf.
  repeat split; try done; intros; same_position; done.
Qed.

Lemma get_ids_clamps_at_boundaries_witness :
  0 ≤ 0 < Z.of_nat (length two_pages) ∧
  Forall (λ page : dict, is_Some (page !! "page_name")) two_pages ∧
  ∃ ids, get_ids two_pages 0 = Ok ids ∧
         previous_id ids = first_id ids ∧ first_id ids = current_id ids.
Proof.
  assert (H1 : 0 ≤ 0 < Z.of_nat (length two_pages)) by (simpl; lia).
  assert (H2 : Forall (λ page : dict, is_Some (page !! "page_name")) two_pages).
  { repeat constructor; eexists; apply lookup_singleton_eq. }
  split; [exact H1|]. split; [exact H2|].
  destruct (get_ids_clamps_at_boundaries two_pages 0 H1 H2)
    as (ids & Hids & _ & _ & _ & _ & _ & H0 & _).
  exists ids. split; [exact Hids | exact (H0 eq_refl)].
Defined.

(** ** ThumbnailProcessor: the resize grammar *)

(** C6.  [resize] reads the specification with the precedence comma, [%],
    [h], [w]: ["100, 36"] is the pair (100, 36) whatever the source;
    on a 200x100 source ["50%"] is (100, 50), ["40h"] is width 80 and
    height 40, ["80w"] is width 80 and height 40; a specification with a
    comma is read as a pair even when it ends in a marker; and every string
    with no comma that ends in none of [%], [h], [w] raises the
    unknown-resize error. *)
Theorem resize_grammar :
  (∀ im, resize im "100, 36" = Ok (100, 36)) ∧
  resize (200, 100) "50%" = Ok (100, 50) ∧
  resize (200, 100) "40h" = Ok (80, 40) ∧
  resize (200, 100) "80w" = Ok (80, 40) ∧
  (∀ im, resize im "10,20%" = Raise (InvalidLiteral "20%")) ∧
  (∀ im size,
     contains_char "," size = false → endswith size "%" = false →
     endswith size "h" = false → endswith size "w" = false →
     resize im size = Raise (UnknownResize size)).
Proof.
  split; [by intros [w h]|].
  split; [by vm_compute|]. split; [by vm_compute|]. split; [by vm_compute|].
  split; [by intros [w h]|].
  intros [w h] size Hc Hp Hh Hw. unfold resize. by rewrite Hc, Hp, Hh, Hw.
Qed.

Lemma resize_grammar_witness :
  contains_char "," "large" = false ∧ endswith "large" "%" = false ∧
  endswith "large" "h" = false ∧ endswith "large" "w" = false ∧
  resize (200, 100) "large" = Raise (UnknownResize "large").
Proof.
  repeat (split; [reflexivity|]).
  apply (proj2 (proj2 (proj2 (proj2 (proj2 resize_grammar))))); reflexivity.
Defined.

(** *** Strings: append, reversal, stripping and splitting *)

Lemma str_app_cons c (s t : string) : String c s +:+ t = String c (s +:+ t).
Proof. reflexivity. Qed.

Lemma str_app_nil_r (s : string) : s +:+ "" = s.
Proof. induction s as [|c s IH]; [done|]. by rewrite str_app_cons, IH. Qed.

Lemma str_app_assoc (s t u : string) : (s +:+ t) +:+ u = s +:+ t +:+ u.
Proof. induction s as [|c s IH]; [done|]. by rewrite !str_app_cons, IH. Qed.

Lemma rev_app_app (s t u : string) :
  String.rev_app s (t +:+ u) = String.rev_app s t +:+ u.
Proof.
  revert t. induction s as [|c s IH]; intros t; [done|].
  simpl. by rewrite <- IH.
Qed.

Lemma rev_app_append (s t u : string) :
  String.rev_app (s +:+ t) u = String.rev_app t (String.rev_app s u).
Proof.
  revert u. induction s as [|c s IH]; intros u; [done|].
  rewrite str_app_cons. simpl. by rewrite IH.
Qed.

Lemma rev_append (s t : string) : String.rev (s +:+ t) = String.rev t +:+ String.rev s.
Proof.
  unfold String.rev. rewrite rev_app_append.
  by rewrite <- rev_app_app.
Qed.

Lemma rev_cons c (s : string) : String.rev (String c s) = String.rev s +:+ String c "".
Proof. change (String c s) with (String c "" +:+ s). by rewrite rev_append. Qed.

Lemma rev_involutive (s : string) : String.rev (String.rev s) = s.
Proof.
  induction s as [|c s IH]; [done|].
  by rewrite rev_cons, rev_append, IH.
Qed.

Lemma rev_snoc c (s : string) : String.rev (s +:+ String c "") = String c (String.rev s).
Proof. by rewrite rev_append. Qed.

Lemma all_chars_app p (s t : string) :
  all_chars p (s +:+ t) = all_chars p s && all_chars p t.
Proof.
  induction s as [|c s IH]; [done|].
  rewrite str_app_cons. simpl. by rewrite IH, andb_assoc.
Qed.

Lemma all_chars_rev p (s : string) : all_chars p (String.rev s) = all_chars p s.
Proof.
  induction s as [|c s IH]; [done|].
  rewrite rev_cons, all_chars_app, IH. simpl. by rewrite andb_true_r, andb_comm.
Qed.

Lemma contains_char_app c (s t : string) :
  contains_char c (s +:+ t) = contains_char c s || contains_char c t.
Proof.
  induction s as [|a s IH]; [done|].
  rewrite str_app_cons. simpl. by rewrite IH, orb_assoc.
Qed.

Lemma contains_char_none c p (s : string) :
  all_chars p s = true → p c = false → contains_char c s = false.
Proof.
  intros Hall Hc. induction s as [|a s IH]; [done|].
  simpl in *. apply andb_true_iff in Hall as [Ha Hs].
  rewrite (IH Hs), orb_false_r. apply bool_decide_eq_false. by intros ->; congruence.
Qed.

Lemma endswith_snoc c d (s : string) :
  endswith (s +:+ String c "") (String d "") = bool_decide (d = c).
Proof.
  unfold endswith. rewrite rev_snoc. simpl.
  change (String.rev (String d "")) with (String d ""). simpl.
  destruct (String.rev s); by rewrite andb_true_r.
Qed.

Lemma drop_last_snoc c (s : string) : drop_last (s +:+ String c "") = s.
Proof. unfold drop_last. by rewrite rev_snoc, rev_involutive. Qed.

Lemma lstrip_whitespace drop (ws s : string) :
  all_chars drop ws = true → lstrip_with drop (ws +:+ s) = lstrip_with drop s.
Proof.
  induction ws as [|c ws IH]; [done|].
  intros [Hc Hws]%andb_true_iff. rewrite str_app_cons. simpl. rewrite Hc. auto.
Qed.

Lemma lstrip_kept drop (a s : string) :
  a ≠ "" → all_chars (λ c, negb (drop c)) a = true →
  lstrip_with drop (a +:+ s) = a +:+ s.
Proof.
  destruct a as [|c a]; [done|]. intros _ [Hc _]%andb_true_iff.
  rewrite str_app_cons. simpl. by apply negb_true_iff in Hc as ->.
Qed.

Lemma rstrip_whitespace drop (s ws : string) :
  all_chars drop ws = true → rstrip_with drop (s +:+ ws) = rstrip_with drop s.
Proof.
  intros Hws. unfold rstrip_with. rewrite rev_append, lstrip_whitespace; [done|].
  by rewrite all_chars_rev.
Qed.

Lemma rstrip_kept drop (s a : string) :
  a ≠ "" → all_chars (λ c, negb (drop c)) a = true →
  rstrip_with drop (s +:+ a) = s +:+ a.
Proof.
  intros Hne Ha. unfold rstrip_with. rewrite rev_append, lstrip_kept.
  - by rewrite <- rev_append, rev_involutive.
  - intros Hr. apply Hne. by rewrite <- (rev_involutive a), Hr.
  - by rewrite all_chars_rev.
Qed.

Lemma all_chars_impl (p q : ascii → bool) (s : string) :
  (∀ c, p c = true → q c = true) → all_chars p s = true → all_chars q s = true.
Proof.
  intros Hpq. induction s as [|c s IH]; [done|].
  simpl. intros [Hc Hs]%andb_true_iff. by rewrite (Hpq _ Hc), IH.
Qed.

Lemma split_on_no_sep sep (s : string) :
  contains_char sep s = false → split_on sep s = [s].
Proof.
  induction s as [|c s IH]; [done|].
  simpl. intros [Hc Hs]%orb_false_iff. rewrite Hc, (IH Hs). done.
Qed.

Lemma split_on_app sep (x y : string) :
  contains_char sep x = false →
  split_on sep (x +:+ String sep y) = x :: split_on sep y.
Proof.
  induction x as [|c x IH].
  - intros _. change ("" +:+ String sep y) with (String sep y). simpl.
    by rewrite bool_decide_eq_true_2.
  - intros [Hc Hx]%orb_false_iff. rewrite str_app_cons. simpl.
    by rewrite Hc, (IH Hx).
Qed.

Lemma whitespace_no_char c (ws : string) :
  whitespace ws → is_space c = false → contains_char c ws = false.
Proof. intros Hws Hc. by eapply contains_char_none. Qed.

Lemma token_not_space (a : string) :
  token a → all_chars (λ c, negb (is_space c)) a = true.
Proof.
  intros [_ Ha]. eapply all_chars_impl; [|exact Ha].
  intros c. unfold plain_char. by intros [[? _]%andb_true_iff _]%andb_true_iff.
Qed.

Lemma token_no_comma (a : string) : token a → contains_char "," a = false.
Proof.
  intros [_ Ha]. eapply contains_char_none; [exact Ha|]. reflexivity.
Qed.

Lemma token_not_percent (a : string) :
  token a → all_chars (λ c, negb (contains_char c "%")) a = true.
Proof.
  intros [_ Ha]. eapply all_chars_impl; [|exact Ha].
  intros c. unfold plain_char. intros [_ Hc]%andb_true_iff. simpl.
  rewrite orb_false_r. apply negb_true_iff, bool_decide_eq_false.
  apply negb_true_iff, bool_decide_eq_false in Hc. congruence.
Qed.

Lemma whitespace_not_percent (ws : string) :
  whitespace ws → all_chars (λ c, negb (contains_char c "%")) ws = true.
Proof.
  intros Hws. eapply all_chars_impl; [|exact Hws].
  intros c Hc. simpl. rewrite orb_false_r. apply negb_true_iff, bool_decide_eq_false.
  intros <-. discriminate Hc.
Qed.

(** Stripping removes the whitespace around a block that starts and ends
    with a token. *)
Lemma strip_context (ws1 a mid b ws2 : string) :
  whitespace ws1 → whitespace ws2 → token a → token b →
  strip (ws1 +:+ a +:+ mid +:+ b +:+ ws2) = a +:+ mid +:+ b.
Proof.
  intros H1 H2 Ha Hb. unfold strip, strip_with.
  rewrite lstrip_whitespace by done.
  rewrite lstrip_kept by first [by destruct Ha | by apply token_not_space].
  rewrite <- !str_app_assoc. rewrite rstrip_whitespace by done.
  rewrite rstrip_kept by first [by destruct Hb | by apply token_not_space].
  done.
Qed.

Lemma strip_token (ws1 a ws2 : string) :
  whitespace ws1 → whitespace ws2 → token a → strip (ws1 +:+ a +:+ ws2) = a.
Proof.
  intros H1 H2 Ha. unfold strip, strip_with.
  rewrite lstrip_whitespace by done.
  rewrite lstrip_kept by first [by destruct Ha | by apply token_not_space].
  rewrite rstrip_whitespace by done.
  change a with ("" +:+ a) at 1.
  by rewrite rstrip_kept by first [by destruct Ha | by apply token_not_space].
Qed.

Lemma strip_token_l (ws a : string) : whitespace ws → token a → strip (ws +:+ a) = a.
Proof. intros. rewrite <- (str_app_nil_r a) at 1. by apply strip_token. Qed.

Lemma strip_token_r (a ws : string) : whitespace ws → token a → strip (a +:+ ws) = a.
Proof. intros. by apply (strip_token "" a ws). Qed.

Lemma strip_token_id (a : string) : token a → strip a = a.
Proof. intros. by apply (strip_token_l "" a). Qed.

(** *** The branches of [resize] *)

Lemma resize_pair (im : Z * Z) (size w h : string) :
  contains_char "," size = true → split_on "," (strip size) = [w; h] →
  resize im size = result_pair (int_of_str (strip w)) (int_of_str (strip h)).
Proof. intros Hc Hs. destruct im. unfold resize. by rewrite Hc, Hs. Qed.

Lemma resize_percent (im : Z * Z) (x : string) :
  contains_char "," x = false →
  resize im (x +:+ "%") =
    (size ← float_of_str (strip_chars "%" (strip (x +:+ "%")));
     let size := SFdiv prec emax size (S754_finite false 100 0) in
     w ← int_mul_float im.1 size;
     h ← int_mul_float im.2 size;
     w ← int_of_float w; h ← int_of_float h; Ok (w, h)).
Proof.
  intros Hc. destruct im. unfold resize.
  rewrite contains_char_app, Hc, endswith_snoc. done.
Qed.

Lemma resize_height (im : Z * Z) (x : string) :
  contains_char "," x = false →
  resize im (x +:+ "h") =
    (h ← int_of_str (strip x);
     ratio ← int_truediv im.1 im.2;
     w ← float_mul_int ratio h;
     w ← int_of_float w; Ok (w, h)).
Proof.
  intros Hc. destruct im. unfold resize.
  rewrite contains_char_app, Hc, !endswith_snoc, drop_last_snoc. done.
Qed.

Lemma resize_width (im : Z * Z) (x : string) :
  contains_char "," x = false →
  resize im (x +:+ "w") =
    (w ← int_of_str (strip x);
     ratio ← int_truediv im.2 im.1;
     h ← float_mul_int ratio w;
     h ← int_of_float h; Ok (w, h)).
Proof.
  intros Hc. destruct im. unfold resize.
  rewrite contains_char_app, Hc, !endswith_snoc, drop_last_snoc. done.
Qed.

(** A specification without a comma whose last character is not a marker
    is unknown. *)
Lemma resize_unknown_last (im : Z * Z) (x : string) (c : ascii) :
  contains_char "," x = false →
  c ≠ ","%char → c ≠ "%"%char → c ≠ "h"%char → c ≠ "w"%char →
  resize im (x +:+ String c "") = Raise (UnknownResize (x +:+ String c "")).
Proof.
  intros Hx H1 H2 H3 H4. destruct im. unfold resize.
  rewrite contains_char_app, Hx, !endswith_snoc. simpl.
  rewrite !bool_decide_eq_false_2 by congruence. done.
Qed.

(** A non-empty string ends with its last character. *)
Lemma string_last (s : string) :
  s ≠ "" → ∃ init c, s = init +:+ String c "".
Proof.
  intros Hs. destruct (String.rev s) as [|c r] eqn:Hr.
  - destruct Hs. by rewrite <- (rev_involutive s), Hr.
  - exists (String.rev r), c. by rewrite <- (rev_involutive s), Hr, rev_cons.
Qed.

Lemma strip_percent_spec (ws1 a ws2 : string) :
  whitespace ws1 → whitespace ws2 → token a →
  strip_chars "%" (strip (ws1 +:+ a +:+ ws2 +:+ "%")) = a +:+ ws2.
Proof.
  intros H1 H2 Ha.
  assert (Hs : strip (ws1 +:+ a +:+ ws2 +:+ "%") = a +:+ ws2 +:+ "%").
  { unfold strip, strip_with. rewrite lstrip_whitespace by done.
    rewrite lstrip_kept by first [by destruct Ha | by apply token_not_space].
    rewrite <- !str_app_assoc. by rewrite rstrip_kept. }
  rewrite Hs. unfold strip_chars, strip_with.
  rewrite lstrip_kept by first [by destruct Ha | by apply token_not_percent].
  rewrite <- str_app_assoc. rewrite rstrip_whitespace by done.
  change (a +:+ ws2) with ("" +:+ (a +:+ ws2)) at 1.
  rewrite rstrip_kept; [done| |].
  - destruct Ha as [Hne _]. by destruct a.
  - rewrite all_chars_app, token_not_percent, whitespace_not_percent; done.
Qed.

(** *** Number literals hold no whitespace *)

Section NumberLiterals.

Local Abbreviation not_space := (λ c : ascii, negb (is_space c)).

Lemma is_space_lower_char (c : ascii) : is_space (lower_char c) = is_space c.
Proof. by destruct c as [[] [] [] [] [] [] [] []]. Qed.

Lemma numeric_space_is_space (c : ascii) : is_numeric_space c = true → is_space c = true.
Proof. destruct c as [[] [] [] [] [] [] [] []]; intros Hc; first [reflexivity | discriminate Hc]. Qed.

Lemma digit_not_space (c : ascii) (d : Z) : digit_value c = Some d → is_space c = false.
Proof.
  destruct c as [[] [] [] [] [] [] [] []]; intros Hd; first [reflexivity | discriminate Hd].
Qed.

Lemma lower_not_space (s : string) :
  all_chars (λ c, negb (is_space c)) (lower s) = all_chars (λ c, negb (is_space c)) s.
Proof. induction s as [|c s IH]; [done|]. simpl. by rewrite is_space_lower_char, IH. Qed.

(** [read_digits] on a text that starts with a digit. *)
Lemma read_digits_digit (c : ascii) (d : Z) (s : string) :
  digit_value c = Some d →
  read_digits (String c s) =
    match s with
    | String c1 (String c2 s2) =>
        if bool_decide (c1 = "_"%char) then
          match digit_value c2 with
          | Some _ => let '(ds, rest) := read_digits (String c2 s2) in (d :: ds, rest)
          | None => ([d], s)
          end
        else let '(ds, rest) := read_digits s in (d :: ds, rest)
    | _ => let '(ds, rest) := read_digits s in (d :: ds, rest)
    end.
Proof.
  intros Hd. cbn [read_digits]. rewrite Hd.
  destruct s as [|c1 [|c2 s2]]; [done| |].
  - destruct c1 as [[] [] [] [] [] [] [] []]; reflexivity.
  - destruct c1 as [[] [] [] [] [] [] [] []]; reflexivity.
Qed.

(** What [read_digits] consumes holds no whitespace. *)
Lemma read_digits_consumed (s : string) :
  ∃ pre, s = pre +:+ (read_digits s).2 ∧ all_chars not_space pre = true.
Proof.
  remember (String.length s) as n eqn:Hn.
  revert s Hn. induction (lt_wf n) as [n _ IH]. intros s Hn.
  destruct s as [|c s]; [by exists ""|].
  destruct (digit_value c) as [d|] eqn:Hd; [|exists ""; cbn [read_digits]; by rewrite Hd].
  pose proof (digit_not_space c d Hd) as Hc.
  assert (Hnext : ∀ t, (String.length t < n)%nat →
            ∃ pre, String c t = pre +:+ (let '(ds, rest) := read_digits t in (d :: ds, rest)).2
                   ∧ all_chars not_space pre = true).
  { intros t Ht. destruct (IH _ Ht t eq_refl) as (pre & Hpre & Hok).
    exists (String c pre). destruct (read_digits t) as [ds rest]. simpl in *.
    rewrite Hc. split; [by rewrite Hpre at 1 | done]. }
  rewrite (read_digits_digit c d s Hd).
  destruct s as [|c1 [|c2 s2]].
  - apply Hnext. simpl in *. lia.
  - apply Hnext. simpl in *. lia.
  - case_bool_decide as Hus; [|apply Hnext; simpl in *; lia].
    subst c1. destruct (digit_value c2) as [d2|] eqn:Hd2.
    + destruct (IH (String.length (String c2 s2)) ltac:(simpl in *; lia) _ eq_refl)
        as (pre & Hpre & Hok).
      exists (String c (String "_" pre)). destruct (read_digits (String c2 s2)) as [ds rest].
      simpl in *. rewrite Hc. split; [by rewrite Hpre at 1 | done].
    + exists (String c ""). simpl. by rewrite Hc.
Qed.

Lemma read_sign_consumed (s : string) :
  ∃ pre, s = pre +:+ (read_sign s).2 ∧ all_chars not_space pre = true.
Proof.
  destruct s as [|c s]; [by exists ""|].
  destruct (decide (c = "-"%char)) as [->|Hm]; [by exists "-"|].
  destruct (decide (c = "+"%char)) as [->|Hp]; [by exists "+"|].
  exists "". split; [|done].
  destruct c as [[] [] [] [] [] [] [] []]; first [reflexivity | by destruct Hm | by destruct Hp].
Qed.

Lemma read_exponent_consumed (s rest : string) (e : Z) :
  read_exponent s = Some (e, rest) →
  ∃ pre, s = pre +:+ rest ∧ all_chars not_space pre = true.
Proof.
  destruct s as [|c s]; [intros [= _ <-]; by exists ""|].
  cbn [read_exponent]. case_bool_decide as He; [|intros [= _ <-]; by exists ""].
  destruct (read_sign_consumed s) as (p1 & H1 & Hok1).
  destruct (read_sign s) as [neg s2]. cbn [snd] in H1.
  destruct (read_digits_consumed s2) as (p2 & H2 & Hok2).
  destruct (read_digits s2) as [[|d ds] rest']; [done|]. cbn [snd] in H2.
  intros [= _ <-]. exists (String c (p1 +:+ p2)). split.
  - rewrite str_app_cons, str_app_assoc, <- H2, <- H1. done.
  - simpl. rewrite all_chars_app, Hok1, Hok2, andb_true_r.
    rewrite <- (is_space_lower_char c), He. reflexivity.
Qed.

(** A text that [float()] reads as a literal holds no whitespace. *)
Lemma float_literal_not_space (s : string) (x : float) :
  float_literal s = Some x → all_chars not_space s = true.
Proof.
  unfold float_literal.
  destruct (read_sign_consumed s) as (p0 & H0 & Hok0).
  destruct (read_sign s) as [neg s1]. cbn [snd] in H0.
  assert (Hword : ∀ w, lower s1 = w → all_chars not_space w = true →
                       all_chars not_space s = true).
  { intros w Hw Hok. rewrite H0, all_chars_app, Hok0, <- lower_not_space, Hw. done. }
  case_bool_decide as Hinf; [intros _; by apply (Hword "inf")|].
  case_bool_decide as Hinfinity; [intros _; by apply (Hword "infinity")|].
  cbn [orb]. case_bool_decide as Hnan; [intros _; by apply (Hword "nan")|].
  destruct (read_digits_consumed s1) as (p1 & H1 & Hok1).
  destruct (read_digits s1) as [ip s2]. cbn [snd] in H1.
  assert (Hfrac : ∃ p2, s2 = p2 +:+ (match s2 with
                                      | String "." s2' => read_digits s2'
                                      | _ => ([], s2)
                                      end).2 ∧ all_chars not_space p2 = true).
  { destruct s2 as [|c s2']; [by exists ""|].
    destruct (decide (c = "."%char)) as [->|Hdot].
    - destruct (read_digits_consumed s2') as (p & Hp & Hok).
      exists (String "." p). split; [by rewrite Hp at 1 | done].
    - exists "". split; [|done].
      destruct c as [[] [] [] [] [] [] [] []]; first [reflexivity | by destruct Hdot]. }
  destruct Hfrac as (p2 & H2 & Hok2).
  destruct (match s2 with String "." s2' => read_digits s2' | _ => ([], s2) end) as [fp s3].
  cbn [snd] in H2.
  destruct (bool_decide (ip = []) && bool_decide (fp = [])); [done|].
  destruct (read_exponent s3) as [[e rest]|] eqn:He; [|done].
  destruct rest; [|done]. intros _.
  destruct (read_exponent_consumed _ _ _ He) as (p3 & H3 & Hok3).
  rewrite H0, H1, H2, H3, !all_chars_app, Hok0, Hok1, Hok2, Hok3. done.
Qed.

Lemma token_not_numeric_space (a : string) :
  token a → all_chars (λ c, negb (is_numeric_space c)) a = true.
Proof.
  intros Ha. eapply all_chars_impl; [|exact (token_not_space a Ha)].
  intros c Hc. simpl in *. destruct (is_numeric_space c) eqn:Hn; [|done].
  by rewrite (numeric_space_is_space c Hn) in Hc.
Qed.

(** What [int()] and [float()] skip after a number. *)
Lemma numeric_strip_token (a ws : string) :
  token a → all_chars is_numeric_space ws = true →
  strip_with is_numeric_space (a +:+ ws) = a.
Proof.
  intros Ha Hws. unfold strip_with.
  rewrite lstrip_kept by first [by destruct Ha | by apply token_not_numeric_space].
  rewrite rstrip_whitespace by done.
  change a with ("" +:+ a) at 1.
  by rewrite rstrip_kept by first [by destruct Ha | by apply token_not_numeric_space].
Qed.

Lemma lstrip_stops (drop p : ascii → bool) (w s : string) :
  all_chars p w = true → all_chars drop w = false →
  ∃ c t, lstrip_with drop (w +:+ s) = String c t ∧ p c = true.
Proof.
  induction w as [|c w IH]; [done|]. cbn [all_chars]. intros [Hc Hw]%andb_true_iff.
  rewrite str_app_cons. cbn [lstrip_with]. destruct (drop c); cbn [andb]; [by apply IH|].
  intros _. by exists c, (w +:+ s).
Qed.

(** Whitespace that they do not skip stays in the text. *)
Lemma numeric_strip_keeps_space (a ws : string) :
  token a → whitespace ws → all_chars is_numeric_space ws = false →
  all_chars not_space (strip_with is_numeric_space (a +:+ ws)) = false.
Proof.
  intros Ha Hws Hnum. unfold strip_with.
  rewrite lstrip_kept by first [by destruct Ha | by apply token_not_numeric_space].
  unfold rstrip_with. rewrite rev_append.
  destruct (lstrip_stops is_numeric_space is_space (String.rev ws) (String.rev a))
    as (c & t & -> & Hc); [by rewrite all_chars_rev..|].
  rewrite all_chars_rev. simpl. by rewrite Hc.
Qed.

End NumberLiterals.

(** C7, counterexample.  An upper-case marker is not accepted, and neither
    is whitespace after the marker: on a 200x100 source ["40h"] gives
    (80, 40) while ["40H"] and ["40h "] raise the unknown-resize error. *)
Lemma resize_marker_case_sensitive :
  resize (200, 100) "40h" = Ok (80, 40) ∧
  resize (200, 100) "40H" = Raise (UnknownResize "40H") ∧
  resize (200, 100) "40h " = Raise (UnknownResize "40h ").
Proof. by vm_compute. Qed.

(** C7, as amended.  [resize] tolerates whitespace before the first number,
    around the comma, after the second number of a pair, and between a
    number and its trailing [h] or [w]: such a variant of a valid
    specification denotes the same size.  Between a number and a trailing
    [%] it tolerates the whitespace that [float()] skips, which gives the
    same size; whitespace with a character that [float()] does not skip,
    one of the separators 0x1c-0x1f, makes the number an invalid literal.
    The marker is matched as written: an upper-case [H] or [W], or
    whitespace after the marker, makes the specification unknown. *)
Theorem resize_whitespace_tolerance (im : Z * Z) (a b ws1 ws2 ws3 ws4 : string) :
  token a → token b →
  whitespace ws1 → whitespace ws2 → whitespace ws3 → whitespace ws4 →
  resize im (ws1 +:+ a +:+ ws2 +:+ "," +:+ ws3 +:+ b +:+ ws4) = resize im (a +:+ "," +:+ b) ∧
  (all_chars is_numeric_space ws2 = true →
     ∀ sz, resize im (ws1 +:+ a +:+ ws2 +:+ "%") = Ok sz ↔ resize im (a +:+ "%") = Ok sz) ∧
  (all_chars is_numeric_space ws2 = false →
     resize im (ws1 +:+ a +:+ ws2 +:+ "%") = Raise (InvalidLiteral (a +:+ ws2))) ∧
  resize im (ws1 +:+ a +:+ ws2 +:+ "h") = resize im (a +:+ "h") ∧
  resize im (ws1 +:+ a +:+ ws2 +:+ "w") = resize im (a +:+ "w") ∧
  resize im (a +:+ "H") = Raise (UnknownResize (a +:+ "H")) ∧
  resize im (a +:+ "W") = Raise (UnknownResize (a +:+ "W")) ∧
  (∀ marker, marker ∈ ["%"; "h"; "w"] → ws1 ≠ "" →
     resize im (a +:+ marker +:+ ws1) = Raise (UnknownResize (a +:+ marker +:+ ws1))).
Proof.
  intros Ha Hb H1 H2 H3 H4.
  assert (Hca := token_no_comma a Ha). assert (Hcb := token_no_comma b Hb).
  assert (Hcw : ∀ ws, whitespace ws → contains_char "," ws = false)
    by (intros; by apply whitespace_no_char).
  assert (Hbody : contains_char "," (ws1 +:+ a +:+ ws2) = false)
    by (by rewrite !contains_char_app, Hca, !Hcw).
  assert (Hre : ∀ m, ws1 +:+ a +:+ ws2 +:+ m = (ws1 +:+ a +:+ ws2) +:+ m)
    by (intros; by rewrite !str_app_assoc).
  assert (Hint : ∀ x, token x → int_of_str (strip x) = int_of_str x).
  { intros x Hx. by rewrite strip_token_id. }
  split; [|split; [|split; [|split; [|split; [|split; [|split]]]]]].
  - rewrite (resize_pair im _ (a +:+ ws2) (ws3 +:+ b)).
    + rewrite (resize_pair im (a +:+ "," +:+ b) a b).
      * by rewrite strip_token_r, strip_token_l, !strip_token_id.
      * rewrite !contains_char_app. simpl. by rewrite orb_true_r.
      * pose proof (strip_context "" a "," b "" eq_refl eq_refl Ha Hb) as Hs.
        rewrite str_app_nil_r in Hs. change (strip (a +:+ "," +:+ b) = a +:+ "," +:+ b) in Hs.
        rewrite Hs. change (a +:+ "," +:+ b) with (a +:+ String "," b).
        by rewrite split_on_app, split_on_no_sep.
    + rewrite !contains_char_app. simpl. by rewrite !orb_true_r.
    + pose proof (strip_context ws1 a (ws2 +:+ "," +:+ ws3) b ws4 H1 H4 Ha Hb) as Hs.
      rewrite !str_app_assoc in Hs. rewrite Hs, <- (str_app_assoc a ws2).
      change ("," +:+ ws3 +:+ b) with (String "," (ws3 +:+ b)).
      rewrite split_on_app by (by rewrite contains_char_app, Hca, Hcw).
      by rewrite split_on_no_sep by (by rewrite contains_char_app, Hcb, Hcw).
  - intros Hnum sz. rewrite (resize_percent im a Hca).
    rewrite Hre, (resize_percent im _ Hbody), <- Hre.
    rewrite strip_percent_spec by done.
    pose proof (strip_percent_spec "" a "" eq_refl eq_refl Ha) as Hs.
    rewrite str_app_nil_r in Hs. change (strip_chars "%" (strip (a +:+ "%")) = a) in Hs.
    rewrite Hs. unfold float_of_str.
    rewrite numeric_strip_token by done.
    pose proof (numeric_strip_token a "" Ha eq_refl) as Hid.
    rewrite str_app_nil_r in Hid. rewrite Hid.
    by destruct (float_literal a).
  - intros Hnum. rewrite Hre, (resize_percent im _ Hbody), <- Hre.
    rewrite strip_percent_spec by done. unfold float_of_str.
    destruct (float_literal (strip_with is_numeric_space (a +:+ ws2))) as [x|] eqn:Hx; [|done].
    apply float_literal_not_space in Hx.
    by rewrite numeric_strip_keeps_space in Hx.
  - rewrite Hre, (resize_height im _ Hbody), (resize_height im a Hca).
    by rewrite strip_token, strip_token_id.
  - rewrite Hre, (resize_width im _ Hbody), (resize_width im a Hca).
    by rewrite strip_token, strip_token_id.
  - by apply resize_unknown_last.
  - by apply resize_unknown_last.
  - intros marker Hm Hne.
    destruct (string_last ws1 Hne) as (init & c & ->).
    assert (Hc : is_space c = true).
    { unfold whitespace in H1. rewrite all_chars_app in H1.
      apply andb_true_iff in H1 as [_ H1]. simpl in H1. by rewrite andb_true_r in H1. }
    assert (Hi : whitespace init).
    { unfold whitespace in *. rewrite all_chars_app in H1. by apply andb_true_iff in H1 as [? _]. }
    assert (Hmc : contains_char "," marker = false).
    { repeat (apply elem_of_cons in Hm as [->|Hm]; [reflexivity|]).
      by apply elem_of_nil in Hm. }
    rewrite <- !str_app_assoc. apply resize_unknown_last.
    + by rewrite !contains_char_app, Hca, Hmc, (Hcw _ Hi).
    + by intros ->.
    + by intros ->.
    + by intros ->.
    + by intros ->.
Qed.

Lemma resize_whitespace_tolerance_witness :
  token "100" ∧ token "36" ∧ token "50" ∧ whitespace " " ∧ whitespace "" ∧
  whitespace file_separator ∧
  resize (200, 100) " 100 , 36 " = resize (200, 100) "100,36" ∧
  resize (200, 100) " 100h" = resize (200, 100) "100h" ∧
  resize (200, 100) " 50 %" = Ok (100, 50) ∧
  resize (200, 100) ("50" +:+ file_separator +:+ "h") = resize (200, 100) "50h" ∧
  resize (200, 100) ("50" +:+ file_separator +:+ "%")
    = Raise (InvalidLiteral ("50" +:+ file_separator)).
Proof.
  assert (Ha : token "100") by (split; [done | reflexivity]).
  assert (Hb : token "36") by (split; [done | reflexivity]).
  assert (Hc : token "50") by (split; [done | reflexivity]).
  assert (H1 : whitespace " ") by reflexivity.
  assert (H0 : whitespace "") by reflexivity.
  assert (Hs : whitespace file_separator) by reflexivity.
  repeat (split; [assumption|]).
  split; [|split; [|split; [|split]]].
  - exact (proj1 (resize_whitespace_tolerance (200, 100) "100" "36" " " " " " " " "
                    Ha Hb H1 H1 H1 H1)).
  - exact (proj1 (proj2 (proj2 (proj2 (resize_whitespace_tolerance (200, 100) "100" "36"
                                         " " "" "" "" Ha Hb H1 H0 H0 H0))))).
  - apply (proj1 (proj2 (resize_whitespace_tolerance (200, 100) "50" "36" " " " " "" ""
                          Hc Hb H1 H1 H0 H0)) eq_refl (100, 50)).
    vm_compute. reflexivity.
  - exact (proj1 (proj2 (proj2 (proj2 (resize_whitespace_tolerance (200, 100) "50" "36"
                                         "" file_separator "" "" Hc Hb H0 Hs H0 H0))))).
  - exact (proj1 (proj2 (proj2 (resize_whitespace_tolerance (200, 100) "50" "36"
                                  "" file_separator "" "" Hc Hb H0 Hs H0 H0))) eq_refl).
Defined.

(** ** ThumbnailProcessor: saving *)

Section SaveImage.
Context `{ImageLib}.

(** The text of the error that [save_image] recovers from. *)
Local Abbreviation alpha_error := (OSError "cannot write mode RGBA as JPEG").

(** When the path does not name a JPEG by its last letters, or the image
    is already RGB, the attempt is the plain save of the image. *)
Lemma save_attempt_plain (im : image) (path : string) (fs : files) :
  endswith (lower path) "jpg" || endswith (lower path) "jpeg" = false ∨ im_mode im = "RGB" →
  save_attempt im path fs = (im, (im_save im path fs).1, (im_save im path fs).2).
Proof.
  intros Hplain. unfold save_attempt.
  destruct (endswith (lower path) "jpg" || endswith (lower path) "jpeg") eqn:Hj.
  - destruct Hplain as [?|Hmode]; [done|].
    rewrite bool_decide_eq_false_2 by (by intros ?). by destruct (im_save im path fs).
  - by destruct (im_save im path fs).
Qed.

(** C9.  Let the body of the [try] end with the image [im'] bound to [im],
    the file system [fs'] and the outcome [r].  If [r] is success, so is
    [save_image].  If [r] is the error "cannot write mode RGBA as JPEG",
    [save_image] composites [im'] onto an opaque white background and saves
    the composite to the same path; its outcome is that of this second save.
    Any other exception leaves [save_image] as it was raised, with the file
    system as the failed attempt left it.  In particular, when the attempt
    is the plain save of an image and that save fails with the alpha error,
    the result is the save of the white composite of that image. *)
Theorem save_image_recovers_alpha_only (im : image) (path : string) (fs : files) :
  (∀ im' fs' r, save_attempt im path fs = (im', fs', r) →
     (r = Ok () → save_image im path fs = (fs', Ok ())) ∧
     (r = Raise alpha_error →
        save_image im path fs =
          match white_composite im' with
          | Ok bg => im_save bg path fs'
          | Raise e => (fs', Raise e)
          end) ∧
     (∀ e, r = Raise e → e ≠ alpha_error → save_image im path fs = (fs', Raise e))) ∧
  (∀ fs' bg,
     endswith (lower path) "jpg" || endswith (lower path) "jpeg" = false ∨ im_mode im = "RGB" →
     im_save im path fs = (fs', Raise alpha_error) →
     white_composite im = Ok bg →
     save_image im path fs = im_save bg path fs').
Proof.
  split.
  - intros im' fs' r Hr. unfold save_image. rewrite Hr. repeat split.
    + by intros ->.
    + intros ->. by rewrite bool_decide_eq_true_2.
    + intros e -> Hne. destruct e; try done.
      case_bool_decide; [by subst|done].
  - intros fs' bg Hplain Hsave Hbg. unfold save_image.
    rewrite (save_attempt_plain _ _ _ Hplain), Hsave. simpl.
    by rewrite Hbg.
Qed.

End SaveImage.

Lemma save_image_recovers_alpha_only_witness :
  (endswith (lower "thumb.jpe") "jpg" || endswith (lower "thumb.jpe") "jpeg" = false
   ∨ @im_mode sample_image_lib "RGBA" = "RGB") ∧
  @im_save sample_image_lib "RGBA" "thumb.jpe" [] =
    ([], Raise (OSError "cannot write mode RGBA as JPEG")) ∧
  @white_composite sample_image_lib "RGBA" = Ok "RGB" ∧
  @save_image sample_image_lib "RGBA" "thumb.jpe" [] = ([("thumb.jpe", "RGB")], Ok ()).
Proof.
  assert (H1 : endswith (lower "thumb.jpe") "jpg" || endswith (lower "thumb.jpe") "jpeg" = false
               ∨ @im_mode sample_image_lib "RGBA" = "RGB") by (left; reflexivity).
  assert (H2 : @im_save sample_image_lib "RGBA" "thumb.jpe" [] =
               ([], Raise (OSError "cannot write mode RGBA as JPEG"))) by reflexivity.
  assert (H3 : @white_composite sample_image_lib "RGBA" = Ok "RGB") by reflexivity.
  repeat (split; [assumption|]).
  exact (proj2 (@save_image_recovers_alpha_only sample_image_lib "RGBA" "thumb.jpe" [])
           [] "RGB" H1 H2 H3).
Defined.

(** ** GroupIndexer *)

Lemma first_seen_elem (x : string) (l : list string) : x ∈ first_seen l ↔ x ∈ l.
Proof.
  induction l as [|y l IH]; [done|]. simpl.
  rewrite !elem_of_cons, list_elem_of_filter, IH.
  destruct (decide (x = y)); tauto.
Qed.

Lemma first_seen_snoc (l : list string) (x : string) :
  first_seen (l ++ [x]) = if decide (x ∈ l) then first_seen l else first_seen l ++ [x].
Proof.
  induction l as [|y l IH]; [done|].
  simpl. rewrite IH. destruct (decide (x ∈ l)) as [Hin|Hnin].
  - rewrite decide_True by set_solver. done.
  - rewrite filter_app. destruct (decide (x = y)) as [->|Hne].
    + rewrite decide_True by set_solver. simpl.
      rewrite filter_cons_False by (by intros ?). by rewrite filter_nil, app_nil_r.
    + rewrite decide_False by set_solver. by rewrite filter_cons_True.
Qed.

Lemma first_seen_NoDup (l : list string) : NoDup (first_seen l).
Proof.
  induction l as [|y l IH]; [constructor|].
  simpl. constructor.
  - rewrite list_elem_of_filter. naive_solver.
  - by apply NoDup_filter.
Qed.

(** A loop whose body succeeds under the invariant runs to the end. *)
Lemma for_each_total {A S} (body : S → A → result S) (I : list A → S → Prop)
    (l : list A) (s0 : S) :
  I [] s0 →
  (∀ visited x s1, x ∈ l → I visited s1 → ∃ s2, body s1 x = Ok s2 ∧ I (visited ++ [x]) s2) →
  ∃ s, for_each body l s0 = Ok s ∧ I l s.
Proof.
  intros H0 Hstep.
  cut (∀ visited rest s1, visited ++ rest = l → I visited s1 →
         ∃ s, for_each body rest s1 = Ok s ∧ I l s).
  { intros Hgen. by apply (Hgen [] l s0). }
  intros visited rest. revert visited.
  induction rest as [|x rest IH]; intros visited s1 Hl Hv.
  - exists s1. rewrite app_nil_r in Hl. by subst.
  - destruct (Hstep visited x s1) as (s2 & Hb & Hi); [rewrite <- Hl; set_solver|done|].
    simpl. rewrite Hb. simpl.
    apply (IH (visited ++ [x]) s2); [by rewrite <- app_assoc | done].
Qed.

(** *** The ordered index *)

Lemma index_mem_keys (label : string) (idx : index) :
  index_mem label idx = true ↔ label ∈ idx.*1.
Proof. unfold index_mem. by rewrite bool_decide_eq_true. Qed.

Lemma index_lookup_None (label : string) (idx : index) :
  index_lookup label idx = None ↔ label ∉ idx.*1.
Proof.
  induction idx as [|[k b] idx IH]; simpl.
  - split; [intros _; apply not_elem_of_nil | done].
  - rewrite not_elem_of_cons. case_bool_decide; subst; [naive_solver|].
    rewrite IH. naive_solver.
Qed.

Lemma index_lookup_app (label : string) (idx1 idx2 : index) :
  index_lookup label (idx1 ++ idx2) =
    match index_lookup label idx1 with
    | Some b => Some b
    | None => index_lookup label idx2
    end.
Proof.
  induction idx1 as [|[k b] idx1 IH]; [done|].
  simpl. by case_bool_decide.
Qed.

Lemma bucket_append_keys (label : string) (e : loc) (idx : index) :
  (bucket_append label e idx).*1 = idx.*1.
Proof.
  induction idx as [|[k b] idx IH]; [done|].
  cbn [bucket_append]. case_bool_decide; rewrite !fmap_cons; [done|]. by rewrite IH.
Qed.

Lemma index_lookup_bucket_append (label label' : string) (e : loc) (idx : index) :
  index_lookup label' (bucket_append label e idx) =
    if decide (label' = label) then (λ b, b ++ [e]) <$> index_lookup label idx
    else index_lookup label' idx.
Proof.
  induction idx as [|[k b] idx IH]; cbn [bucket_append index_lookup].
  - by case_decide.
  - destruct (decide (k = label)) as [->|Hk].
    + rewrite !(bool_decide_eq_true_2 (label = label)) by done. cbn [index_lookup].
      destruct (decide (label' = label)) as [->|Hne].
      * by rewrite bool_decide_eq_true_2.
      * by rewrite !bool_decide_eq_false_2.
    + rewrite !(bool_decide_eq_false_2 (k = label)) by done. cbn [index_lookup].
      rewrite IH. destruct (decide (label' = label)) as [->|Hne]; [|done].
      by rewrite bool_decide_eq_false_2.
Qed.

Lemma index_lookup_filter (P : string → Prop) `{∀ k, Decision (P k)}
    (label : string) (idx : index) :
  index_lookup label (filter (λ kv, P kv.1) idx) =
    if decide (P label) then index_lookup label idx else None.
Proof.
  induction idx as [|[k b] idx IH]; simpl.
  - by case_decide.
  - destruct (decide (P k)) as [Hk|Hk].
    + rewrite filter_cons_True by done. simpl. case_bool_decide; subst.
      * by rewrite decide_True.
      * done.
    + rewrite filter_cons_False by done. rewrite IH. case_bool_decide; subst.
      * by rewrite !decide_False.
      * done.
Qed.

Lemma filter_keys (P : string → Prop) `{∀ k, Decision (P k)} (idx : index) :
  (filter (λ kv, P kv.1) idx).*1 = filter P (idx.*1).
Proof.
  induction idx as [|[k b] idx IH]; [done|].
  rewrite fmap_cons. cbn [fst]. destruct (decide (P k)).
  - rewrite !filter_cons_True by done. rewrite fmap_cons. by rewrite IH.
  - by rewrite !filter_cons_False by done.
Qed.

Lemma filter_eq_NoDup (x : string) (l : list string) :
  NoDup l → x ∈ l → filter (λ y, y = x) l = [x].
Proof.
  induction 1 as [|y l Hy Hl IH]; [by intros ?%elem_of_nil|].
  intros [->|Hin]%elem_of_cons.
  - rewrite filter_cons_True by done. f_equal.
    clear IH Hl. induction l as [|z l IH]; [done|].
    rewrite filter_cons_False by set_solver. apply IH. set_solver.
  - rewrite filter_cons_False by (intros ->; done). by apply IH.
Qed.

(** *** The store *)

Lemma fresh_lookup {V} (h : gmap loc V) : h !! fresh (dom h) = None.
Proof. apply not_elem_of_dom, is_fresh. Qed.

Lemma contents_insert_fresh (h : store) (e : loc) (d : dict) (refs : list loc) :
  h !! e = None → Forall (λ r, is_Some (h !! r)) refs →
  contents (<[e := d]> h) refs = contents h refs.
Proof.
  intros He Hall. unfold contents. apply Forall_fmap_ext_1.
  eapply Forall_impl; [exact Hall|]. intros r [v Hr]. simpl.
  rewrite lookup_insert_ne; [done|]. intros ->. congruence.
Qed.

Lemma contents_app (h : store) (l1 l2 : list loc) :
  contents h (l1 ++ l2) = contents h l1 ++ contents h l2.
Proof. unfold contents. by rewrite fmap_app. Qed.

Lemma records_labelled_snoc (h : store) show label (visited : list loc) (r : loc) :
  records_labelled h show label (visited ++ [r]) =
    records_labelled h show label visited ++
    (if decide (record_label h show r = Some label) then [r] else []).
Proof.
  unfold records_labelled. rewrite filter_app. by f_equal.
Qed.

Lemma records_labelled_nil (h : store) show label (visited : list loc) :
  label ∉ omap (record_label h show) visited → records_labelled h show label visited = [].
Proof.
  intros Hn. unfold records_labelled. induction visited as [|r visited IH]; [done|].
  rewrite filter_cons_False.
  - apply IH. intros Hin. apply Hn. simpl. destruct (record_label h show r); set_solver.
  - intros Hr. apply Hn. simpl. rewrite Hr. set_solver.
Qed.

Lemma omap_snoc_label (h : store) show (visited : list loc) (r : loc) :
  omap (record_label h show) (visited ++ [r]) =
    omap (record_label h show) visited ++
    match record_label h show r with Some k => [k] | None => [] end.
Proof. rewrite omap_app. simpl. by destruct (record_label h show r). Qed.

(** One iteration of the loop of [get_storylines] succeeds on a labelled
    record and re-establishes the invariant. *)
Lemma storylines_step_inv (h : store) show (visited : list loc) (r : loc)
    (st : store * index) :
  labelled h show r → storylines_inv h show visited st →
  ∃ st', storylines_step show st r = Ok st' ∧ storylines_inv h show (visited ++ [r]) st'.
Proof.
  destruct st as [h1 idx]. intros [lab Hlab] (Ha & Hkeys & Hb). simpl in Ha, Hkeys, Hb.
  destruct (deref h r) as [d|] eqn:Hd; [|done]. simpl in Hlab.
  assert (Hr : h !! r = Some d).
  { unfold deref in Hd. destruct (h !! r); by inversion Hd. }
  assert (Hrl : record_label h show r = lab).
  { unfold record_label. rewrite Hd. simpl. by rewrite Hlab. }
  assert (Hd1 : deref h1 r = Ok d) by (unfold deref; by rewrite (Ha _ _ Hr)).
  unfold storylines_step. rewrite Hd1. simpl. rewrite Hlab. simpl.
  destruct lab as [k|].
  - set (idx0 := if index_mem k idx then idx else idx ++ [(k, [])]).
    set (e := fresh (dom h1)).
    assert (He1 : h1 !! e = None) by apply fresh_lookup.
    assert (He : h !! e = None).
    { destruct (h !! e) as [d0|] eqn:Hhe; [|done]. rewrite (Ha _ _ Hhe) in He1. done. }
    assert (Hseen : k ∈ idx.*1 ↔ k ∈ omap (record_label h show) visited).
    { by rewrite Hkeys, first_seen_elem. }
    assert (Hb0 : ∃ b, index_lookup k idx0 = Some b ∧
               contents h1 b = contents h (records_labelled h show k visited) ∧
               Forall (λ e0, h !! e0 = None ∧ is_Some (h1 !! e0)) b).
    { subst idx0. destruct (index_mem k idx) eqn:Hm.
      - apply index_mem_keys in Hm.
        destruct (index_lookup k idx) as [b|] eqn:Hl.
        + exists b. split; [done|]. by apply Hb.
        + apply index_lookup_None in Hl. done.
      - assert (Hk : k ∉ idx.*1).
        { intros Hin%index_mem_keys. congruence. }
        exists []. rewrite index_lookup_app.
        rewrite (proj2 (index_lookup_None k idx) Hk). simpl.
        rewrite bool_decide_eq_true_2 by done. split; [done|].
        rewrite records_labelled_nil by (by rewrite <- Hseen). done. }
    exists (<[e := d]> h1, bucket_append k e idx0). split; [done|].
    split; [|split]; simpl.
    + intros r0 d0 Hr0. rewrite lookup_insert_ne; [by apply Ha|].
      intros <-. congruence.
    + rewrite bucket_append_keys, omap_snoc_label, Hrl, first_seen_snoc.
      subst idx0. destruct (index_mem k idx) eqn:Hm.
      * apply index_mem_keys in Hm. rewrite decide_True by (by apply Hseen). done.
      * rewrite decide_False.
        -- by rewrite fmap_app, Hkeys.
        -- intros Hin%Hseen%index_mem_keys. congruence.
    + intros label bucket. rewrite index_lookup_bucket_append, records_labelled_snoc, Hrl.
      destruct (decide (label = k)) as [->|Hne].
      * destruct Hb0 as (b & Hlb & Hcb & Hfb). rewrite Hlb. simpl. intros [= <-].
        rewrite decide_True by done. rewrite !contents_app. split.
        -- rewrite contents_insert_fresh; [|done|].
           ++ rewrite Hcb. f_equal. unfold contents. simpl.
              by rewrite lookup_insert_eq, Hr.
           ++ eapply Forall_impl; [exact Hfb|]. by intros ? [_ ?].
        -- apply Forall_app. split.
           ++ eapply Forall_impl; [exact Hfb|]. intros e0 [? [v Hv]]. split; [done|].
              rewrite lookup_insert_ne; [by eexists|]. intros <-. congruence.
           ++ repeat constructor; [done|]. rewrite lookup_insert_eq. by eexists.
      * rewrite decide_False by congruence. rewrite app_nil_r. intros Hl.
        assert (Hl' : index_lookup label idx = Some bucket).
        { subst idx0. destruct (index_mem k idx); [done|].
          rewrite index_lookup_app in Hl.
          destruct (index_lookup label idx); [done|]. simpl in Hl.
          rewrite bool_decide_eq_false_2 in Hl by congruence. done. }
        destruct (Hb _ _ Hl') as [Hc Hf]. split.
        -- rewrite contents_insert_fresh; [done..|].
           eapply Forall_impl; [exact Hf|]. by intros ? [_ ?].
        -- eapply Forall_impl; [exact Hf|]. intros e0 [? [v Hv]]. split; [done|].
           rewrite lookup_insert_ne; [by eexists|]. intros <-. congruence.
  - exists (h1, idx). split; [done|]. split; [done|]. split; simpl.
    + by rewrite omap_snoc_label, Hrl, app_nil_r.
    + intros label bucket Hl. rewrite records_labelled_snoc, Hrl.
      rewrite decide_False by done. rewrite app_nil_r. by apply Hb.
Qed.

Lemma index_lookup_move_to_end (label label' : string) (idx : index) :
  index_lookup label' (move_to_end label idx) = index_lookup label' idx.
Proof.
  unfold move_to_end. rewrite index_lookup_app.
  pose proof (index_lookup_filter (λ k, k ≠ label) label' idx) as H1.
  pose proof (index_lookup_filter (λ k, k = label) label' idx) as H2.
  cbv beta in H1, H2. rewrite H1, H2. clear H1 H2.
  repeat case_decide; try done; by destruct (index_lookup label' idx).
Qed.

Lemma filter_ne_absent (x : string) (l : list string) :
  x ∉ l → filter (λ y, y ≠ x) l = l.
Proof.
  induction l as [|y l IH]; [done|].
  intros [Hy Hl]%not_elem_of_cons. rewrite filter_cons_True by done. by rewrite IH.
Qed.

(** [get_storylines] on labelled records: the run succeeds; the keys are
    the labels in order of first appearance with "Uncategorized" moved to the
    end; the bucket of a label holds fresh objects with the entries of the
    records of that label, in order; the records themselves are untouched. *)
Lemma get_storylines_spec (h : store) (records : list loc) (show : bool) :
  well_labelled h show records →
  ∃ h' idx, get_storylines h records show = Ok (h', idx) ∧
    (∀ r d, h !! r = Some d → h' !! r = Some d) ∧
    idx.*1 =
      filter (λ k, k ≠ "Uncategorized") (first_seen (omap (record_label h show) records)) ++
      (if decide ("Uncategorized" ∈ omap (record_label h show) records)
       then ["Uncategorized"] else []) ∧
    ∀ label bucket, index_lookup label idx = Some bucket →
      contents h' bucket = contents h (records_labelled h show label records) ∧
      Forall (λ e, h !! e = None ∧ is_Some (h' !! e)) bucket.
Proof.
  intros Hwl.
  destruct (for_each_total (storylines_step show) (storylines_inv h show) records (h, []))
    as ([h1 idx1] & Hrun & Ha & Hkeys & Hb).
  { split; [done|]. split; [done|]. by intros ??. }
  { intros visited r st Hr Hinv. apply storylines_step_inv; [by apply Hwl | done]. }
  simpl in Ha, Hkeys, Hb. unfold get_storylines. rewrite Hrun. simpl.
  destruct (index_mem "Uncategorized" idx1) eqn:Hm.
  - apply index_mem_keys in Hm.
    exists h1, (move_to_end "Uncategorized" idx1). split; [done|]. split; [done|]. split.
    + unfold move_to_end. rewrite fmap_app.
      pose proof (filter_keys (λ k, k ≠ "Uncategorized") idx1) as H1.
      pose proof (filter_keys (λ k, k = "Uncategorized") idx1) as H2.
      cbv beta in H1, H2. rewrite H1, H2. clear H1 H2.
      rewrite Hkeys in Hm |- *.
      rewrite (filter_eq_NoDup _ _ (first_seen_NoDup _) Hm).
      by rewrite decide_True by (by apply first_seen_elem).
    + intros label bucket. rewrite index_lookup_move_to_end. apply Hb.
  - assert (Hk : "Uncategorized" ∉ idx1.*1).
    { intros Hin%index_mem_keys. congruence. }
    exists h1, idx1. split; [done|]. split; [done|]. split; [|done].
    rewrite Hkeys in Hk |- *. rewrite filter_ne_absent by done.
    rewrite decide_False by (by rewrite <- first_seen_elem). by rewrite app_nil_r.
Qed.

Lemma record_label_named (h : store) show (r : loc) (d : dict) (s : string) :
  h !! r = Some d → d !! "storyline" = Some (VStr s) → s ≠ "" →
  labelled h show r ∧ record_label h show r = Some s.
Proof.
  intros Hr Hs Hne. unfold labelled, record_label, deref, storyline_label, getitem.
  rewrite Hr. simpl. rewrite Hs. simpl.
  rewrite bool_decide_eq_false_2 by done. simpl. split; [by eexists | done].
Qed.

Lemma record_label_uncategorized (h : store) show (r : loc) (d : dict) :
  h !! r = Some d →
  d !! "storyline" = Some VNone ∨ d !! "storyline" = Some (VStr "") →
  labelled h show r ∧
  record_label h show r = if show then Some "Uncategorized" else None.
Proof.
  intros Hr Hs. unfold labelled, record_label, deref, storyline_label, getitem.
  rewrite Hr. simpl. destruct Hs as [-> | ->]; simpl; (split; [by eexists | done]).
Qed.

Lemma index_lookup_is_Some (label : string) (idx : index) :
  label ∈ idx.*1 → is_Some (index_lookup label idx).
Proof.
  intros Hin. destruct (index_lookup label idx) eqn:Hl; [by eexists|].
  by apply index_lookup_None in Hl.
Qed.

(** C4.  On records whose storyline is [None] or a string, [get_storylines]
    returns an index whose keys are the storyline labels in order of first
    appearance, except that "Uncategorized", when present, comes last; the
    bucket of a label holds the entries of the records of that label in
    their original order; a record whose storyline is [None] or empty has
    the label "Uncategorized" when uncategorized display is on and no label
    (it is dropped) when it is off, and any other record has its storyline as
    label.  In particular four records with storylines "A", [None], "B",
    [None] and uncategorized display on give the keys "A", "B",
    "Uncategorized", and the last bucket holds the second and the fourth
    record, in that order. *)
Theorem get_storylines_buckets :
  (∀ (h : store) (records : list loc) (show : bool),
     well_labelled h show records →
     ∃ h' idx, get_storylines h records show = Ok (h', idx) ∧
       idx.*1 =
         filter (λ k, k ≠ "Uncategorized")
                (first_seen (omap (record_label h show) records)) ++
         (if decide ("Uncategorized" ∈ omap (record_label h show) records)
          then ["Uncategorized"] else []) ∧
       (∀ label bucket, index_lookup label idx = Some bucket →
          contents h' bucket = contents h (records_labelled h show label records)) ∧
       (∀ r d, r ∈ records → h !! r = Some d →
          d !! "storyline" = Some VNone ∨ d !! "storyline" = Some (VStr "") →
          record_label h show r = if show then Some "Uncategorized" else None) ∧
       (∀ r d s, r ∈ records → h !! r = Some d →
          d !! "storyline" = Some (VStr s) → s ≠ "" → record_label h show r = Some s)) ∧
  (∀ (h : store) (r1 r2 r3 r4 : loc) (d1 d2 d3 d4 : dict),
     h !! r1 = Some d1 → h !! r2 = Some d2 → h !! r3 = Some d3 → h !! r4 = Some d4 →
     d1 !! "storyline" = Some (VStr "A") → d2 !! "storyline" = Some VNone →
     d3 !! "storyline" = Some (VStr "B") → d4 !! "storyline" = Some VNone →
     ∃ h' idx bucket, get_storylines h [r1; r2; r3; r4] true = Ok (h', idx) ∧
       idx.*1 = ["A"; "B"; "Uncategorized"] ∧
       index_lookup "Uncategorized" idx = Some bucket ∧
       contents h' bucket = [Some d2; Some d4]).
Proof.
  split.
  - intros h records show Hwl.
    destruct (get_storylines_spec h records show Hwl) as (h' & idx & Hrun & _ & Hkeys & Hb).
    exists h', idx. split; [done|]. split; [done|]. split; [|split].
    + intros label bucket Hl. by apply Hb.
    + intros r d _ Hr Hs. by apply (record_label_uncategorized h show r d).
    + intros r d s _ Hr Hs Hne. by apply (record_label_named h show r d s).
  - intros h r1 r2 r3 r4 d1 d2 d3 d4 H1 H2 H3 H4 S1 S2 S3 S4.
    destruct (record_label_named h true r1 d1 "A" H1 S1) as [W1 L1]; [done|].
    destruct (record_label_uncategorized h true r2 d2 H2 (or_introl S2)) as [W2 L2].
    destruct (record_label_named h true r3 d3 "B" H3 S3) as [W3 L3]; [done|].
    destruct (record_label_uncategorized h true r4 d4 H4 (or_introl S4)) as [W4 L4].
    destruct (get_storylines_spec h [r1; r2; r3; r4] true)
      as (h' & idx & Hrun & _ & Hkeys & Hb).
    { intros r Hr. repeat (apply elem_of_cons in Hr as [->|Hr]; [done|]).
      by apply elem_of_nil in Hr. }
    assert (Hlabels : omap (record_label h true) [r1; r2; r3; r4] =
                      ["A"; "Uncategorized"; "B"; "Uncategorized"]).
    { simpl. by rewrite L1, L2, L3, L4. }
    rewrite Hlabels in Hkeys.
    assert (Hk : idx.*1 = ["A"; "B"; "Uncategorized"]) by (rewrite Hkeys; by vm_compute).
    destruct (index_lookup_is_Some "Uncategorized" idx) as [bucket Hl].
    { rewrite Hk. set_solver. }
    exists h', idx, bucket. split; [done|]. split; [done|]. split; [done|].
    destruct (Hb _ _ Hl) as [-> _]. unfold records_labelled.
    rewrite filter_cons_False by (rewrite L1; done).
    rewrite filter_cons_True by (by rewrite L2).
    rewrite filter_cons_False by (rewrite L3; done).
    rewrite filter_cons_True by (by rewrite L4).
    unfold contents. simpl. by rewrite H2, H4.
Qed.

Lemma get_storylines_buckets_witness :
  sample_store !! 1%positive = Some (sample_record "p1" (VStr "A") ["y"] ["x"; "y"]) ∧
  sample_store !! 2%positive = Some (sample_record "p2" VNone [] []) ∧
  sample_store !! 3%positive = Some (sample_record "p3" (VStr "B") [] []) ∧
  sample_store !! 4%positive = Some (sample_record "p4" VNone [] []) ∧
  ∃ h' idx bucket, get_storylines sample_store sample_records true = Ok (h', idx) ∧
    idx.*1 = ["A"; "B"; "Uncategorized"] ∧
    index_lookup "Uncategorized" idx = Some bucket ∧
    contents h' bucket =
      [Some (sample_record "p2" VNone [] []); Some (sample_record "p4" VNone [] [])].
Proof.
  assert (H1 : sample_store !! 1%positive = Some (sample_record "p1" (VStr "A") ["y"] ["x"; "y"]))
    by reflexivity.
  assert (H2 : sample_store !! 2%positive = Some (sample_record "p2" VNone [] [])) by reflexivity.
  assert (H3 : sample_store !! 3%positive = Some (sample_record "p3" (VStr "B") [] []))
    by reflexivity.
  assert (H4 : sample_store !! 4%positive = Some (sample_record "p4" VNone [] [])) by reflexivity.
  repeat (split; [assumption|]).
  apply (proj2 get_storylines_buckets sample_store 1%positive 2%positive 3%positive 4%positive
           _ _ _ _ H1 H2 H3 H4); reflexivity.
Defined.

(** *** The tag index *)

Lemma occurrences_snoc (label l : string) (labels : list string) :
  occurrences label (labels ++ [l]) =
    if decide (l = label) then S (occurrences label labels) else occurrences label labels.
Proof.
  unfold occurrences. rewrite filter_app, length_app.
  case_decide.
  - rewrite filter_cons_True by done. simpl. lia.
  - rewrite filter_cons_False by done. simpl. lia.
Qed.

Lemma occurrences_absent (label : string) (labels : list string) :
  label ∉ labels → occurrences label labels = 0%nat.
Proof.
  unfold occurrences. induction labels as [|l labels IH]; [done|].
  intros [Hl Hn]%not_elem_of_cons. rewrite filter_cons_False by congruence. by apply IH.
Qed.

Lemma tagged_refs_absent (h : store) (label : string) (pages : list loc) :
  label ∉ flat_map (tag_labels_of h) pages → tagged_refs h label pages = [].
Proof.
  unfold tagged_refs. induction pages as [|p pages IH]; [done|].
  simpl. rewrite elem_of_app. intros Hn.
  rewrite occurrences_absent by tauto. simpl. apply IH. tauto.
Qed.

Lemma tagged_refs_snoc (h : store) (label : string) (pages : list loc) (page : loc) :
  tagged_refs h label (pages ++ [page]) =
    tagged_refs h label pages ++ replicate (occurrences label (tag_labels_of h page)) page.
Proof. unfold tagged_refs. rewrite flat_map_app. simpl. by rewrite app_nil_r. Qed.

(** Filing the page under one more label. *)
Lemma tags_append_inv (h : store) (visited : list loc) (page : loc) (seen : list string)
    (l : string) (tags : index) :
  tag_index_inv h visited page seen tags →
  tag_index_inv h visited page (seen ++ [l]) (tags_append page tags l).
Proof.
  intros [Hkeys Hl]. unfold tag_index_inv, tags_append.
  set (before := flat_map (tag_labels_of h) visited) in *.
  assert (Hseen : l ∈ tags.*1 ↔ l ∈ before ++ seen) by (by rewrite Hkeys, first_seen_elem).
  rewrite app_assoc, first_seen_snoc.
  destruct (index_mem l tags) eqn:Hm.
  - apply index_mem_keys in Hm. rewrite decide_True by (by apply Hseen).
    split; [by rewrite bucket_append_keys|].
    intros label. rewrite index_lookup_bucket_append, occurrences_snoc.
    destruct (decide (label = l)) as [->|Hne].
    + rewrite Hl. rewrite !decide_True by set_solver.
      simpl. rewrite <- app_assoc. do 2 f_equal.
      by rewrite <- replicate_S_end.
    + rewrite Hl. rewrite (decide_False (P := l = label)) by done.
      destruct (decide (label ∈ before ++ seen)).
      * by rewrite decide_True by set_solver.
      * by rewrite decide_False by set_solver.
  - assert (Hk : l ∉ tags.*1) by (intros Hin%index_mem_keys; congruence).
    assert (Hnew : l ∉ before ∧ l ∉ seen) by (apply not_elem_of_app; by rewrite <- Hseen).
    destruct Hnew as [Hnb Hns].
    rewrite decide_False by (by rewrite <- Hseen).
    split; [by rewrite fmap_app, Hkeys|].
    intros label. rewrite index_lookup_app, Hl, occurrences_snoc.
    destruct (decide (label = l)) as [->|Hne].
    + rewrite decide_False by (by rewrite <- Hseen). simpl.
      rewrite bool_decide_eq_true_2 by done.
      rewrite !decide_True by set_solver.
      by rewrite tagged_refs_absent, occurrences_absent.
    + rewrite (decide_False (P := l = label)) by done.
      destruct (decide (label ∈ before ++ seen)).
      * by rewrite decide_True by set_solver.
      * simpl. rewrite bool_decide_eq_false_2 by congruence.
        by rewrite decide_False by set_solver.
Qed.

Lemma foldl_tags_append_inv (h : store) (visited : list loc) (page : loc)
    (seen labels : list string) (tags : index) :
  tag_index_inv h visited page seen tags →
  tag_index_inv h visited page (seen ++ labels) (foldl (tags_append page) tags labels).
Proof.
  revert seen tags. induction labels as [|l labels IH]; intros seen tags Hinv.
  - by rewrite app_nil_r.
  - simpl. replace (seen ++ l :: labels) with ((seen ++ [l]) ++ labels)
      by (by rewrite <- app_assoc).
    apply IH. by apply tags_append_inv.
Qed.

Lemma tagged_step_labels (h : store) (tags : index) (page : loc) (labels : list string) :
  tag_labels h page = Ok labels →
  tagged_step h tags page = Ok (foldl (tags_append page) tags labels).
Proof.
  unfold tag_labels, tagged_step. destruct (deref h page) as [d|]; [|done]. simpl.
  destruct (iterate_labels (dict_get d "characters" (VList []))) as [cs|]; [|done]. simpl.
  destruct (iterate_labels (dict_get d "tags" (VList []))) as [ts|]; [|done]. simpl.
  intros [= <-]. by rewrite foldl_app.
Qed.

(** The tag index of pages whose labels can be read. *)
Lemma tag_index_spec (h : store) (pages : list loc) :
  (∀ p, p ∈ pages → is_Ok (tag_labels h p)) →
  ∃ tags, tag_index h pages = Ok tags ∧
    tags.*1 = first_seen (flat_map (tag_labels_of h) pages) ∧
    ∀ label, index_lookup label tags =
      if decide (label ∈ flat_map (tag_labels_of h) pages)
      then Some (tagged_refs h label pages) else None.
Proof.
  intros Hok.
  destruct (for_each_total (tagged_step h)
              (λ visited tags, tag_index_inv h visited 1%positive [] tags) pages [])
    as (tags & Hrun & Hkeys & Hl).
  { split; [done|]. by intros label. }
  { intros visited p tags Hp Hinv. destruct (Hok p Hp) as [labels Hlabels].
    exists (foldl (tags_append p) tags labels). split; [by apply tagged_step_labels|].
    assert (Hinv0 : tag_index_inv h visited p [] tags).
    { destruct Hinv as [Hk Hlk]. split; [done|]. intros label. by rewrite Hlk. }
    apply (foldl_tags_append_inv h visited p [] labels) in Hinv0 as [Hk Hlk].
    assert (Hof : tag_labels_of h p = labels) by (unfold tag_labels_of; by rewrite Hlabels).
    simpl in Hk, Hlk. split.
    - rewrite app_nil_r, flat_map_app. simpl. by rewrite app_nil_r, Hof.
    - intros label. rewrite Hlk, app_nil_r, flat_map_app, tagged_refs_snoc. simpl.
      by rewrite !app_nil_r, Hof. }
  exists tags. split; [done|]. rewrite app_nil_r in Hkeys. split; [done|].
  intros label. rewrite Hl, !app_nil_r. done.
Qed.

Lemma tagged_refs_app (h : store) (label : string) (l1 l2 : list loc) :
  tagged_refs h label (l1 ++ l2) = tagged_refs h label l1 ++ tagged_refs h label l2.
Proof. unfold tagged_refs. by rewrite flat_map_app. Qed.

(** C5, counterexample.  A record tagged "x" and "y" with the character
    "y" is listed twice in the bucket "y". *)
Lemma tag_index_lists_twice :
  ∃ tags, tag_index sample_store [1%positive] = Ok tags ∧
    index_lookup "x" tags = Some [1%positive] ∧
    index_lookup "y" tags = Some [1%positive; 1%positive].
Proof. eexists. by vm_compute. Qed.

Lemma tag_labels_xy (h : store) (page : loc) (d : dict) :
  h !! page = Some d →
  d !! "tags" = Some (VList ["x"; "y"]) → d !! "characters" = Some (VList ["y"]) →
  tag_labels h page = Ok ["y"; "x"; "y"].
Proof.
  intros Hp Ht Hc. unfold tag_labels, deref, dict_get. rewrite Hp. simpl.
  by rewrite Hc, Ht.
Qed.

(** C5, as amended.  The tag index holds, for every label, the pages that
    carry it in their original order, each page once for every time the
    label occurs among its characters and its tags; the labels are in order
    of first appearance, and one page is rendered per label.  A record tagged
    "x" and "y" with the character "y" is therefore listed once in the
    bucket "x" and twice in the bucket "y": once for the character and once
    for the tag. *)
Theorem tag_index_buckets :
  (∀ (h : store) (pages : list loc) (global_values : dict),
     (∀ p, p ∈ pages → is_Ok (tag_labels h p)) →
     ∃ tags, tag_index h pages = Ok tags ∧
       write_tagged_pages h pages global_values =
         Ok (map (λ kv, {| tw_html_path := "tagged/" +:+ kv.1 +:+ "/index.html";
                           tw_tag := kv.1; tw_tagged_pages := kv.2;
                           tw_global_values := global_values |}) tags) ∧
       tags.*1 = first_seen (flat_map (tag_labels_of h) pages) ∧
       ∀ label, index_lookup label tags =
         if decide (label ∈ flat_map (tag_labels_of h) pages)
         then Some (tagged_refs h label pages) else None) ∧
  (∀ (h : store) (before after : list loc) (page : loc) (d : dict),
     h !! page = Some d →
     d !! "tags" = Some (VList ["x"; "y"]) → d !! "characters" = Some (VList ["y"]) →
     (∀ p, p ∈ before ++ after → is_Ok (tag_labels h p)) →
     ∃ tags, tag_index h (before ++ page :: after) = Ok tags ∧
       index_lookup "x" tags =
         Some (tagged_refs h "x" before ++ [page] ++ tagged_refs h "x" after) ∧
       index_lookup "y" tags =
         Some (tagged_refs h "y" before ++ [page; page] ++ tagged_refs h "y" after)).
Proof.
  split.
  - intros h pages gv Hok.
    destruct (tag_index_spec h pages Hok) as (tags & Hrun & Hkeys & Hl).
    exists tags. split; [done|]. split; [|done].
    unfold write_tagged_pages. case_bool_decide as Hnil; [|by rewrite Hrun].
    subst pages. simpl in Hrun. by injection Hrun as <-.
  - intros h before after page d Hp Ht Hc Hok.
    pose proof (tag_labels_xy h page d Hp Ht Hc) as Hlabels.
    assert (Hof : tag_labels_of h page = ["y"; "x"; "y"])
      by (unfold tag_labels_of; by rewrite Hlabels).
    destruct (tag_index_spec h (before ++ page :: after)) as (tags & Hrun & _ & Hl).
    { intros p [Hin|[->|Hin]%elem_of_cons]%elem_of_app;
        [apply Hok; set_solver | by eexists | apply Hok; set_solver]. }
    exists tags. split; [done|].
    assert (Hin : ∀ label, label ∈ ["y"; "x"; "y"] →
              label ∈ flat_map (tag_labels_of h) (before ++ page :: after)).
    { intros label Hlab. rewrite flat_map_app. simpl. rewrite Hof. set_solver. }
    rewrite !Hl, !decide_True by (apply Hin; set_solver).
    rewrite !tagged_refs_app.
    change (page :: after) with ([page] ++ after). rewrite !tagged_refs_app.
    unfold tagged_refs at 2 5. simpl. rewrite Hof. done.
Qed.

Lemma tag_index_buckets_witness :
  sample_store !! 1%positive = Some (sample_record "p1" (VStr "A") ["y"] ["x"; "y"]) ∧
  ∃ tags, tag_index sample_store ([] ++ 1%positive :: []) = Ok tags ∧
    index_lookup "x" tags = Some [1%positive] ∧
    index_lookup "y" tags = Some [1%positive; 1%positive].
Proof.
  assert (H1 : sample_store !! 1%positive = Some (sample_record "p1" (VStr "A") ["y"] ["x"; "y"]))
    by reflexivity.
  split; [exact H1|].
  apply (proj2 tag_index_buckets sample_store [] [] 1%positive _ H1); [reflexivity..|].
  intros p Hp. by apply elem_of_nil in Hp.
Defined.

(** *** Rendering updates the records in place *)

Lemma dict_update_idemp (d global_values : dict) :
  dict_update (dict_update d global_values) global_values = dict_update d global_values.
Proof. unfold dict_update. by rewrite (assoc_L (∪)), (idemp_L (∪)). Qed.

(** [write_html_files] on records that carry a page name: the run succeeds,
    every record of the list ends up merged with the global values, and no
    other object of the store is touched. *)
Lemma write_html_files_spec (h : store) (records : list loc) (global_values : dict) :
  (∀ r, r ∈ records → ∃ d, h !! r = Some d ∧ is_Some (d !! "page_name")) →
  ∃ h' written, write_html_files h records global_values = Ok (h', written) ∧
    (∀ e, e ∉ records → h' !! e = h !! e) ∧
    (∀ r d, r ∈ records → h !! r = Some d → h' !! r = Some (dict_update d global_values)).
Proof.
  intros Hrec.
  destruct (for_each_total (write_html_files_step global_values)
              (λ visited st,
                 (∀ e, e ∉ visited → st.1 !! e = h !! e) ∧
                 (∀ r d, r ∈ visited → h !! r = Some d →
                    st.1 !! r = Some (dict_update d global_values)))
              records (h, [])) as ([h' written] & Hrun & Hout & Hin).
  { split; [done|]. intros r d Hr. by apply elem_of_nil in Hr. }
  { intros visited x [hc out] Hx [Hout Hin]. simpl in Hout, Hin.
    destruct (Hrec x Hx) as (d0 & Hd0 & [name Hname]).
    assert (Hcur' : ∃ dc, hc !! x = Some dc ∧ is_Some (dc !! "page_name") ∧
                          dict_update dc global_values = dict_update d0 global_values).
    { destruct (decide (x ∈ visited)) as [Hv|Hv].
      - exists (dict_update d0 global_values). split; [by apply Hin|]. split.
        + unfold dict_update. apply lookup_union_is_Some. right. by eexists.
        + apply dict_update_idemp.
      - exists d0. rewrite Hout by done. split; [done|]. split; [by eexists | done]. }
    destruct Hcur' as (dc & Hdc & [n Hn] & Hupd).
    eexists. split.
    { unfold write_html_files_step, deref, getitem. rewrite Hdc. simpl. rewrite Hn. simpl.
      reflexivity. }
    simpl. split.
    - intros e [He Hex]%not_elem_of_app. rewrite lookup_insert_ne; [by apply Hout|].
      intros ->. apply Hex. set_solver.
    - intros r d [Hr|Hr%list_elem_of_singleton]%elem_of_app Hd.
      + destruct (decide (r = x)) as [->|Hne].
        * rewrite lookup_insert_eq, Hupd. congruence.
        * rewrite lookup_insert_ne by done. by apply Hin.
      + subst r. rewrite lookup_insert_eq, Hupd. congruence. }
  exists h', written. done.
Qed.

(** C10.  Every bucket of the storyline index holds copies: objects that
    are not among the records and whose entries are those the records had
    when the index was built.  When [write_html_files] then merges the global
    values into every record, the records change and the entries of the index
    do not; the same holds for any later store that differs from the indexed
    one only at the records. *)
Theorem storyline_index_keeps_copies (h : store) (records : list loc) (show : bool)
    (global_values : dict) :
  well_labelled h show records →
  (∀ r, r ∈ records → ∃ d, h !! r = Some d ∧ is_Some (d !! "page_name")) →
  ∃ h1 idx h2 written,
    get_storylines h records show = Ok (h1, idx) ∧
    write_html_files h1 records global_values = Ok (h2, written) ∧
    (∀ r d, r ∈ records → h !! r = Some d →
       h1 !! r = Some d ∧ h2 !! r = Some (dict_update d global_values)) ∧
    (∀ label bucket, index_lookup label idx = Some bucket →
       Forall (λ e, e ∉ records) bucket ∧
       contents h1 bucket = contents h (records_labelled h show label records) ∧
       contents h2 bucket = contents h1 bucket ∧
       ∀ h3 : store, (∀ e, e ∉ records → h3 !! e = h1 !! e) →
                     contents h3 bucket = contents h1 bucket).
Proof.
  intros Hwl Hnames.
  destruct (get_storylines_spec h records show Hwl) as (h1 & idx & Hrun & Hframe & _ & Hb).
  destruct (write_html_files_spec h1 records global_values) as (h2 & written & Hw & Hout & Hin).
  { intros r Hr. destruct (Hnames r Hr) as (d & Hd & Hn). exists d. split; [by apply Hframe|done]. }
  exists h1, idx, h2, written. split; [done|]. split; [done|]. split.
  - intros r d Hr Hd. split; [by apply Hframe|]. apply Hin; [done|]. by apply Hframe.
  - intros label bucket Hl. destruct (Hb _ _ Hl) as [Hc Hfresh].
    assert (Hcopies : Forall (λ e, e ∉ records) bucket).
    { eapply Forall_impl; [exact Hfresh|]. intros e [He _] Hin_e.
      destruct (Hnames e Hin_e) as (d & Hd & _). congruence. }
    split; [done|]. split; [done|].
    assert (Hgen : ∀ h3 : store, (∀ e, e ∉ records → h3 !! e = h1 !! e) →
                     contents h3 bucket = contents h1 bucket).
    { intros h3 Hsame. unfold contents. apply Forall_fmap_ext_1.
      eapply Forall_impl; [exact Hcopies|]. intros e He. by apply Hsame. }
    split; [by apply Hgen | done].
Qed.

Lemma storyline_index_keeps_copies_witness :
  well_labelled sample_store true sample_records ∧
  (∀ r, r ∈ sample_records → ∃ d, sample_store !! r = Some d ∧ is_Some (d !! "page_name")) ∧
  ∃ h1 idx h2 written,
    get_storylines sample_store sample_records true = Ok (h1, idx) ∧
    write_html_files h1 sample_records {["version" := VStr "0.3.8"]} = Ok (h2, written) ∧
    ∀ label bucket, index_lookup label idx = Some bucket →
      contents h2 bucket = contents h1 bucket.
Proof.
  assert (H1 : well_labelled sample_store true sample_records).
  { intros r Hr. unfold sample_records in Hr.
    repeat (apply elem_of_cons in Hr as [->|Hr]; [by eexists|]).
    by apply elem_of_nil in Hr. }
  assert (H2 : ∀ r, r ∈ sample_records →
                 ∃ d, sample_store !! r = Some d ∧ is_Some (d !! "page_name")).
  { intros r Hr. unfold sample_records in Hr.
    repeat (apply elem_of_cons in Hr as [->|Hr];
            [eexists; split; [reflexivity | by eexists]|]).
    by apply elem_of_nil in Hr. }
  split; [exact H1|]. split; [exact H2|].
  destruct (storyline_index_keeps_copies sample_store sample_records true
              {["version" := VStr "0.3.8"]} H1 H2)
    as (h1 & idx & h2 & written & Hrun & Hw & _ & Hb).
  exists h1, idx, h2, written. split; [exact Hrun|]. split; [exact Hw|].
  intros label bucket Hl. exact (proj1 (proj2 (proj2 (Hb label bucket Hl)))).
Defined.

(** ** ConfigResolver *)

Lemma del_section_present (c : config) (section : string) :
  section ≠ DEFAULT_SECTION → has_section c section = true →
  del_section c section =
    Ok {| cfg_defaults := cfg_defaults c; cfg_sections := delete section (cfg_sections c) |}.
Proof.
  intros Hd Hs. unfold del_section. rewrite bool_decide_eq_false_2 by done. by rewrite Hs.
Qed.

(** Without a [Pages] section in the main configuration the deletion
    raises. *)
Lemma get_extra_comic_info_needs_pages (h : config_store) (comic_info : loc)
    (main : config) (file : option (result config)) :
  h !! comic_info = Some main → has_section main "Pages" = false →
  get_extra_comic_info h comic_info file = Raise (KeyError "Pages").
Proof.
  intros Hm Hp. unfold get_extra_comic_info, deepcopy, modify. rewrite Hm. simpl.
  rewrite lookup_insert_eq. unfold del_section.
  rewrite bool_decide_eq_false_2 by done. by rewrite Hp.
Qed.




(** ** PageScanner: the page order *)

Section StableSort.
Context {K A : Type} `{!EqDecision K} (ltb : K → K → bool) `{!StrictTotalB ltb}.
Implicit Types (x y : K * A) (l : list (K * A)).

Lemma ltb_asym (a b : K) : ltb a b = true → ltb b a = false.
Proof.
  intros Hab. destruct (ltb b a) eqn:Hba; [|done].
  by rewrite <- (ltb_irrefl a), <- (ltb_trans a b a Hab Hba).
Qed.

Lemma not_after_trans (a b c : K) :
  not_after ltb a b → not_after ltb b c → not_after ltb a c.
Proof.
  unfold not_after. intros Hba Hcb. destruct (ltb c a) eqn:Hca; [|done].
  destruct (decide (a = b)) as [->|Hne]; [congruence|].
  destruct (ltb_total a b Hne) as [Hab|Hab']; [|congruence].
  by rewrite (ltb_trans c a b Hca Hab) in Hcb.
Qed.

Lemma not_after_antisym (a b : K) : not_after ltb a b → not_after ltb b a → a = b.
Proof.
  unfold not_after. intros Hba Hab.
  destruct (decide (a = b)) as [|Hne]; [done|].
  destruct (ltb_total a b Hne); congruence.
Qed.

Lemma insert_by_perm x l : insert_by ltb x l ≡ₚ x :: l.
Proof.
  induction l as [|y l IH]; [done|].
  simpl. destruct (ltb y.1 x.1); [|done].
  rewrite IH. apply Permutation_swap.
Qed.

Lemma sort_by_perm l : sort_by ltb l ≡ₚ l.
Proof.
  induction l as [|x l IH]; [done|].
  simpl. fold (sort_by ltb l). by rewrite insert_by_perm, IH.
Qed.

Lemma insert_by_ascending x l : ascending ltb l → ascending ltb (insert_by ltb x l).
Proof.
  unfold ascending. induction l as [|y l IH]; intros Hl.
  - repeat constructor.
  - apply StronglySorted_inv in Hl as [Hs Hy]. simpl.
    destruct (ltb y.1 x.1) eqn:Hyx.
    + constructor; [by apply IH|].
      rewrite insert_by_perm. constructor; [|done]. by apply ltb_asym.
    + constructor; [by constructor|]. constructor; [done|].
      eapply Forall_impl; [exact Hy|]. intros z Hz. simpl in *.
      by apply (not_after_trans x.1 y.1 z.1).
Qed.

Lemma sort_by_ascending l : ascending ltb (sort_by ltb l).
Proof.
  induction l as [|x l IH]; [constructor|].
  simpl. fold (sort_by ltb l). by apply insert_by_ascending.
Qed.

(** An ascending list is left as it is. *)
Lemma sort_by_ascending_id l : ascending ltb l → sort_by ltb l = l.
Proof.
  unfold ascending. induction l as [|x l IH]; [done|].
  intros [Hs Hx]%StronglySorted_inv. simpl. fold (sort_by ltb l). rewrite IH by done.
  destruct l as [|y l]; [done|]. simpl.
  apply Forall_cons in Hx as [Hxy _]. unfold not_after in Hxy. by rewrite Hxy.
Qed.

Lemma sort_by_idemp l : sort_by ltb (sort_by ltb l) = sort_by ltb l.
Proof. apply sort_by_ascending_id, sort_by_ascending. Qed.

(** The sort is stable: elements of equal key keep their order. *)
Lemma insert_by_same_order x l : same_order_per_key (insert_by ltb x l) (x :: l).
Proof.
  intros k. induction l as [|y l IH]; [done|].
  simpl. destruct (ltb y.1 x.1) eqn:Hyx; [|done].
  assert (Hne : y.1 ≠ x.1).
  { intros Heq. rewrite Heq, ltb_irrefl in Hyx. done. }
  destruct (decide (y.1 = k)) as [Hy|Hy].
  - rewrite filter_cons_True by done. rewrite IH.
    rewrite (filter_cons_False _ x) by congruence.
    rewrite (filter_cons_False _ x) by congruence.
    by rewrite filter_cons_True.
  - rewrite filter_cons_False by done. rewrite IH.
    destruct (decide (x.1 = k)).
    + rewrite !(filter_cons_True _ x) by done. by rewrite filter_cons_False.
    + rewrite !(filter_cons_False _ x) by done. by rewrite filter_cons_False.
Qed.

Lemma sort_by_stable l : same_order_per_key (sort_by ltb l) l.
Proof.
  induction l as [|x l IH]; [done|].
  intros k. simpl. fold (sort_by ltb l). rewrite insert_by_same_order.
  destruct (decide (x.1 = k)).
  - rewrite !filter_cons_True by done. by rewrite IH.
  - rewrite !filter_cons_False by done. by rewrite IH.
Qed.

(** An ascending list is determined by the order of its elements within
    each key: any stable sort returns the list that [sort_by] returns. *)
Lemma ascending_unique l1 l2 :
  ascending ltb l1 → ascending ltb l2 → same_order_per_key l1 l2 → l1 = l2.
Proof.
  unfold ascending. revert l2. induction l1 as [|x l1 IH]; intros l2 H1 H2 Hsame.
  - destruct l2 as [|y l2]; [done|].
    specialize (Hsame y.1). by rewrite filter_cons_True in Hsame.
  - apply StronglySorted_inv in H1 as [Hs1 Hx].
    destruct l2 as [|y l2].
    { specialize (Hsame x.1). by rewrite filter_cons_True in Hsame. }
    apply StronglySorted_inv in H2 as [Hs2 Hy].
    assert (Hxy : x = y).
    { destruct (decide (y.1 = x.1)) as [Heq|Hne].
      - specialize (Hsame x.1). rewrite !filter_cons_True in Hsame by done. congruence.
      - exfalso. apply Hne.
        apply not_after_antisym.
        + pose proof (Hsame x.1) as Hk.
          rewrite filter_cons_True, filter_cons_False in Hk by done.
          assert (Hin : x ∈ filter (λ z, z.1 = x.1) l2) by (rewrite <- Hk; set_solver).
          apply list_elem_of_filter in Hin as [_ Hin].
          rewrite Forall_forall in Hy. by apply Hy.
        + pose proof (Hsame y.1) as Hk.
          rewrite filter_cons_False, filter_cons_True in Hk by done.
          assert (Hin : y ∈ filter (λ z, z.1 = y.1) l1) by (rewrite Hk; set_solver).
          apply list_elem_of_filter in Hin as [_ Hin].
          rewrite Forall_forall in Hx. by apply Hx. }
    subst y. f_equal. apply IH; [done..|].
    intros k. specialize (Hsame k). destruct (decide (x.1 = k)).
    + rewrite !filter_cons_True in Hsame by done. congruence.
    + by rewrite !filter_cons_False in Hsame by done.
Qed.

(** Whatever stable sorting procedure is used, the result is that of
    [sort_by]. *)
Lemma stable_sort_is_sort_by l l' :
  ascending ltb l' → same_order_per_key l' l → l' = sort_by ltb l.
Proof.
  intros Hasc Hsame. apply ascending_unique; [done | apply sort_by_ascending |].
  intros k. by rewrite Hsame, sort_by_stable.
Qed.

End StableSort.

(** *** The order of the keys *)

Lemma str_ltb_spec (s t : string) : str_ltb s t = true ↔ String.le s t ∧ s ≠ t.
Proof.
  unfold str_ltb, String.ltb, String.le, String.leb.
  destruct (String.compare s t) eqn:Hc; simpl.
  - apply String.compare_eq_iff in Hc. naive_solver.
  - split; [|done]. intros _. split; [done|]. intros ->.
    pose proof (String.compare_antisym t t) as Ha. rewrite Hc in Ha. done.
  - naive_solver.
Qed.

#[global] Instance str_ltb_strict : StrictTotalB str_ltb.
Proof.
  split.
  - intros s. destruct (str_ltb s s) eqn:H; [|done].
    apply str_ltb_spec in H as [_ ?]. done.
  - intros a b c [Hab Hne]%str_ltb_spec [Hbc Hne']%str_ltb_spec. apply str_ltb_spec. split.
    + by etrans.
    + intros ->. apply Hne. by apply (anti_symm String.le).
  - intros a b Hne. destruct (total String.le a b); [left|right]; by apply str_ltb_spec.
Qed.

Lemma seq_ltb_irrefl (a : list Z) : seq_ltb a a = false.
Proof. induction a as [|x a IH]; [done|]. simpl. by rewrite bool_decide_eq_true_2. Qed.

Lemma seq_ltb_trans (a b c : list Z) :
  seq_ltb a b = true → seq_ltb b c = true → seq_ltb a c = true.
Proof.
  revert b c. induction a as [|x a IH]; intros [|y b] [|z c]; simpl; try done.
  repeat case_bool_decide; subst; try done; try (by apply IH);
    intros ?%Z.ltb_lt ?%Z.ltb_lt; try apply Z.ltb_lt; lia.
Qed.

Lemma seq_ltb_total (a b : list Z) : a ≠ b → seq_ltb a b = true ∨ seq_ltb b a = true.
Proof.
  revert b. induction a as [|x a IH]; intros [|y b] Hne; simpl; auto.
  repeat case_bool_decide; subst; try done.
  - apply IH. congruence.
  - rewrite !Z.ltb_lt. lia.
Qed.

#[global] Instance seq_ltb_strict : StrictTotalB seq_ltb.
Proof. split; [apply seq_ltb_irrefl | apply seq_ltb_trans | apply seq_ltb_total]. Qed.

Lemma struct_time_fields_inj (s t : struct_time) :
  struct_time_fields s = struct_time_fields t → s = t.
Proof. destruct s, t. unfold struct_time_fields. simpl. by intros [= -> -> -> -> -> -> -> -> ->]. Qed.

#[global] Instance struct_time_ltb_strict : StrictTotalB struct_time_ltb.
Proof.
  unfold struct_time_ltb. split.
  - intros s. apply seq_ltb_irrefl.
  - intros a b c. apply seq_ltb_trans.
  - intros a b Hne. apply seq_ltb_total. intros ?%struct_time_fields_inj. done.
Qed.

#[global] Instance key_ltb_strict : StrictTotalB key_ltb.
Proof.
  unfold key_ltb. split.
  - intros [t n]. simpl. rewrite bool_decide_eq_true_2 by done. apply ltb_irrefl.
  - intros [t1 n1] [t2 n2] [t3 n3]. simpl.
    repeat case_bool_decide; subst; try done.
    + apply ltb_trans.
    + intros H1 H2. by rewrite (ltb_asym _ _ _ H1) in H2.
    + apply ltb_trans.
  - intros [t1 n1] [t2 n2] Hne. simpl.
    repeat case_bool_decide; subst; try done.
    + apply ltb_total. congruence.
    + by apply ltb_total.
Qed.

(** ** PageScanner: the scanning loop *)

Lemma mapM_Ok {A B} (f : A → result B) (l : list A) (ys : list B) :
  mapM f l = Ok ys ↔ Forall2 (λ x y, f x = Ok y) l ys.
Proof.
  revert ys. induction l as [|x l IH]; intros ys; simpl.
  - split; [intros [= <-]; constructor | by intros ->%Forall2_nil_inv_l].
  - split.
    + destruct (f x) as [y|] eqn:Hx; [|done]. simpl.
      destruct (mapM f l) as [ys'|] eqn:Hl; [|done]. simpl. intros [= <-].
      constructor; [done|]. by apply IH.
    + intros (y & ys' & Hx & Hl & ->)%Forall2_cons_inv_l.
      rewrite Hx. simpl. apply IH in Hl. by rewrite Hl.
Qed.

Lemma mapM_app_Ok {A B} (f : A → result B) (l1 l2 : list A) (ys : list B) :
  mapM f (l1 ++ l2) = Ok ys ↔
  ∃ ys1 ys2, mapM f l1 = Ok ys1 ∧ mapM f l2 = Ok ys2 ∧ ys = ys1 ++ ys2.
Proof.
  rewrite mapM_Ok. split.
  - intros (ys1 & ys2 & H1 & H2 & ->)%Forall2_app_inv_l.
    exists ys1, ys2. by rewrite !mapM_Ok.
  - intros (ys1 & ys2 & H1%mapM_Ok & H2%mapM_Ok & ->). by apply Forall2_app.
Qed.

Lemma state_after_nil comics_dir del (st : scan_state) :
  state_after comics_dir del st [] [] = st.
Proof.
  destruct st. unfold state_after, scheduled_count. simpl.
  rewrite app_nil_r, Z.add_0_r. by destruct del; rewrite app_nil_r.
Qed.

Lemma state_after_cons comics_dir del (st : scan_state) p pages o outcomes :
  state_after comics_dir del (state_after comics_dir del st [p] [o]) pages outcomes =
  state_after comics_dir del st (p :: pages) (o :: outcomes).
Proof.
  unfold state_after, published_records, scheduled_count. simpl.
  rewrite !app_nil_r. f_equal.
  - rewrite <- app_assoc. f_equal. by destruct o.
  - rewrite <- Z.add_assoc. f_equal. destruct (decide (o = Scheduled)).
    + rewrite !filter_cons_True by done. rewrite filter_nil. simpl length. lia.
    + rewrite !filter_cons_False by done. rewrite filter_nil. simpl length. lia.
  - rewrite <- app_assoc. f_equal. by destruct del.
Qed.

Section Scanner.
Context `{Collaborators}.
Context (comics_dir comic_folder theme : string) (comic_info : config)
        (date_format : string) (tz_info : tzinfo) (local_time : Z)
        (auto_detect delete_scheduled publish_all : bool).

Local Abbreviation scan :=
  (scan_page comics_dir comic_folder theme comic_info date_format tz_info local_time
     auto_detect delete_scheduled publish_all).
Local Abbreviation outcome :=
  (outcome_of comics_dir comic_folder theme comic_info date_format tz_info local_time
     auto_detect publish_all).

(** One iteration is the page's outcome applied to the state. *)
Lemma scan_page_outcome (st : scan_state) (p : page_dir) :
  scan st p = (λ o, state_after comics_dir delete_scheduled st [p] [o]) <$> outcome p.
Proof.
  unfold scan_page, outcome_of. destruct (info_ini p) as [[info|e]|]; simpl; try done.
  - destruct (info !! "Post date") as [text|]; simpl; [|done].
    destruct (datetime_strptime text date_format) as [dt|]; simpl; [|done].
    destruct (localize tz_info dt) as [post_date|]; simpl; [|done].
    destruct ((local_time <? post_date) && negb publish_all); simpl.
    + unfold state_after, scheduled_count. simpl. rewrite !app_nil_r.
      by destruct delete_scheduled; rewrite ?app_nil_r.
    + destruct (publish_page _ _ _ _ _ _ _) as [r|]; simpl; [|done].
      unfold state_after, scheduled_count. simpl. rewrite Z.add_0_r.
      by destruct delete_scheduled; rewrite ?app_nil_r.
  - destruct st. unfold state_after, scheduled_count. simpl.
    rewrite app_nil_r, Z.add_0_r. by destruct delete_scheduled; rewrite app_nil_r.
Qed.

(** The loop is the list of outcomes applied to the initial state. *)
Lemma scan_loop_outcomes (pages : list page_dir) (st : scan_state) :
  for_each scan pages st =
    (state_after comics_dir delete_scheduled st pages) <$> mapM outcome pages.
Proof.
  revert st. induction pages as [|p pages IH]; intros st.
  - simpl. by rewrite state_after_nil.
  - simpl. rewrite scan_page_outcome. destruct (outcome p) as [o|e]; simpl; [|done].
    rewrite IH. destruct (mapM outcome pages) as [os|e]; simpl; [|done].
    by rewrite state_after_cons.
Qed.

End Scanner.


Section PageOrder.
Context `{Collaborators}.

Lemma sorted_pages_inv (date_format : string) (records l : list dict) :
  sorted_pages date_format records = Ok l →
  ∃ keyed, keyed_by date_format keyed ∧ keyed.*2 = records ∧
           l = (sort_by key_ltb keyed).*2.
Proof.
  unfold sorted_pages.
  destruct (mapM _ records) as [keyed|] eqn:Hk; [|done]. simpl. intros [= <-].
  exists keyed. apply mapM_Ok in Hk. split; [|split; [|done]].
  - induction Hk as [|x kx records keyed Hx _ IH]; [constructor|].
    constructor; [|done]. destruct (sort_key date_format x) as [k|] eqn:Hs; [|done].
    simpl in Hx. by injection Hx as <-.
  - induction Hk as [|x kx records keyed Hx _ IH]; [done|].
    rewrite fmap_cons, IH. f_equal.
    destruct (sort_key date_format x) as [k|]; [|done]. simpl in Hx. by injection Hx as <-.
Qed.

Lemma keyed_by_remap (date_format : string) keyed :
  keyed_by date_format keyed →
  mapM (λ x, k ← sort_key date_format x; Ok (k, x)) (keyed.*2) = Ok keyed ∧
  mapM (sort_key date_format) (keyed.*2) = Ok (keyed.*1).
Proof.
  intros Hk. rewrite !mapM_Ok. split.
  - apply Forall2_fmap_l, Forall_Forall2_diag.
    eapply Forall_impl; [exact Hk|]. intros [k x] Hx. simpl in *. by rewrite Hx.
  - apply Forall2_fmap, Forall_Forall2_diag.
    eapply Forall_impl; [exact Hk|]. by intros [k x] Hx.
Qed.

(** [sorted] returns an ascending list, which sorting again leaves as it
    is. *)
Lemma sorted_pages_spec (date_format : string) (records l : list dict) :
  sorted_pages date_format records = Ok l →
  ∃ keys keys0, mapM (sort_key date_format) l = Ok keys ∧
    StronglySorted (not_after key_ltb) keys ∧
    mapM (sort_key date_format) records = Ok keys0 ∧ keys ≡ₚ keys0 ∧
    l ≡ₚ records ∧
    sorted_pages date_format l = Ok l.
Proof.
  intros (keyed & Hk & <- & ->)%sorted_pages_inv.
  set (sorted := sort_by key_ltb keyed).
  assert (Hperm : sorted ≡ₚ keyed) by apply sort_by_perm.
  assert (Hks : keyed_by date_format sorted).
  { unfold keyed_by. by rewrite Hperm. }
  destruct (keyed_by_remap date_format sorted Hks) as [Hre Hkeys].
  destruct (keyed_by_remap date_format keyed Hk) as [_ Hkeys0].
  exists (sorted.*1), (keyed.*1). split; [done|]. split; [|split; [done|split; [|split]]].
  - apply (StronglySorted_fmap fst (λ x y, not_after key_ltb x.1 y.1)); [done|].
    apply (sort_by_ascending key_ltb).
  - by rewrite Hperm.
  - by rewrite Hperm.
  - unfold sorted_pages. rewrite Hre. simpl. unfold sorted. by rewrite (sort_by_idemp key_ltb).
Qed.



End PageOrder.

Section PageInfoList.
Context `{Collaborators}.
Context (comics_dir : string) (pages : list page_dir) (local_time : Z)
        (comic_folder : string) (comic_info : config)
        (delete_scheduled publish_all : bool).

(** [get_page_info_list] in terms of the outcomes of the pages, once the
    settings are read. *)
Lemma get_page_info_list_outcomes date_format tz_name tz_info auto_detect theme :
  cfg_get comic_info "Comic Settings" "Date format" = Ok date_format →
  cfg_get comic_info "Comic Settings" "Timezone" = Ok tz_name →
  timezone tz_name = Ok tz_info →
  get_option_bool comic_info "Comic Settings" "Auto-detect comic images" false = Ok auto_detect →
  get_option comic_info "Comic Settings" "Theme" "default" = Ok theme →
  get_page_info_list comics_dir pages local_time comic_folder comic_info
    delete_scheduled publish_all =
    (outcomes ← mapM (outcome_of comics_dir comic_folder theme comic_info date_format tz_info
                        local_time auto_detect publish_all) pages;
     sorted ← sorted_pages date_format (published_records outcomes);
     Ok (sorted, scheduled_count outcomes,
         if delete_scheduled then scheduled_paths comics_dir pages outcomes else [])).
Proof.
  intros H1 H2 H3 H4 H5. unfold get_page_info_list.
  rewrite H1. simpl. rewrite H2. simpl. rewrite H3. simpl. rewrite H4. simpl.
  rewrite H5. simpl. rewrite scan_loop_outcomes.
  destruct (mapM _ pages) as [os|]; simpl; [|done].
  rewrite Z.add_0_l. done.
Qed.

Lemma get_page_info_list_inv l n deleted :
  get_page_info_list comics_dir pages local_time comic_folder comic_info
    delete_scheduled publish_all = Ok (l, n, deleted) →
  ∃ date_format tz_name tz_info auto_detect theme outcomes,
    cfg_get comic_info "Comic Settings" "Date format" = Ok date_format ∧
    cfg_get comic_info "Comic Settings" "Timezone" = Ok tz_name ∧
    timezone tz_name = Ok tz_info ∧
    get_option_bool comic_info "Comic Settings" "Auto-detect comic images" false
      = Ok auto_detect ∧
    get_option comic_info "Comic Settings" "Theme" "default" = Ok theme ∧
    mapM (outcome_of comics_dir comic_folder theme comic_info date_format tz_info
            local_time auto_detect publish_all) pages = Ok outcomes ∧
    sorted_pages date_format (published_records outcomes) = Ok l ∧
    n = scheduled_count outcomes ∧
    deleted = (if delete_scheduled then scheduled_paths comics_dir pages outcomes else []).
Proof.
  intros Hrun.
  destruct (cfg_get comic_info "Comic Settings" "Date format") as [fmt|] eqn:H1;
    [|by unfold get_page_info_list in Hrun; rewrite H1 in Hrun].
  destruct (cfg_get comic_info "Comic Settings" "Timezone") as [tzn|] eqn:H2;
    [|by unfold get_page_info_list in Hrun; rewrite H1, H2 in Hrun].
  destruct (timezone tzn) as [tz|] eqn:H3;
    [|by unfold get_page_info_list in Hrun; rewrite H1, H2 in Hrun; simpl in Hrun;
         rewrite H3 in Hrun].
  destruct (get_option_bool comic_info "Comic Settings" "Auto-detect comic images" false)
    as [auto|] eqn:H4;
    [|by unfold get_page_info_list in Hrun; rewrite H1, H2 in Hrun; simpl in Hrun;
         rewrite H3 in Hrun; simpl in Hrun; rewrite H4 in Hrun].
  destruct (get_option comic_info "Comic Settings" "Theme" "default") as [theme|] eqn:H5;
    [|by unfold get_page_info_list in Hrun; rewrite H1, H2 in Hrun; simpl in Hrun;
         rewrite H3 in Hrun; simpl in Hrun; rewrite H4 in Hrun; simpl in Hrun;
         rewrite H5 in Hrun].
  rewrite (get_page_info_list_outcomes fmt tzn tz auto theme H1 H2 H3 H4 H5) in Hrun.
  destruct (mapM _ pages) as [os|] eqn:Hos; [|done]. simpl in Hrun.
  destruct (sorted_pages fmt (published_records os)) as [sorted|] eqn:Hs; [|done].
  simpl in Hrun. injection Hrun as <- <- <-.
  exists fmt, tzn, tz, auto, theme, os. done.
Qed.

End PageInfoList.

Section PageNames.
Context `{Collaborators}.

Lemma sort_key_name (date_format : string) (x : dict) (t : struct_time) (n : string) :
  sort_key date_format x = Ok (t, n) → x !! "page_name" = Some (VStr n).
Proof.
  unfold sort_key, getitem. destruct (x !! "Post date") as [d|]; [|done]. simpl.
  destruct d as [|text| |]; try done.
  destruct (time_strptime text date_format) as [t'|]; [|done]. simpl.
  destruct (x !! "page_name") as [[|name| |]|]; try done. simpl. by intros [= _ ->].
Qed.

Lemma publish_page_name comics_dir comic_folder theme comic_info auto_detect
    (p : page_dir) (info : gmap string string) (r : dict) :
  hook_keeps_page_name →
  publish_page comics_dir comic_folder theme comic_info auto_detect p info = Ok r →
  r !! "page_name" = Some (VStr (dir_name p)).
Proof.
  intros Hhook. unfold publish_page.
  match goal with |- (?resolve ≫= _) = _ → _ => destruct resolve as [info'|] end; [|done].
  simpl.
  match goal with |- (extra_page_info_processing ?a ?b ?c ?d ?page_info ≫= _) = _ → _ =>
    destruct (extra_page_info_processing a b c d page_info) as [[d' res]|] eqn:Hh;
    [|done];
    assert (Hname : page_info !! "page_name" = Some (VStr (dir_name p)))
      by (by rewrite !lookup_insert_ne, lookup_insert_eq by done)
  end.
  simpl. apply Hhook in Hh. unfold after_hook in Hh. simpl in Hh.
  destruct res as [replaced|]; [case_bool_decide|]; intros [= <-]; congruence.
Qed.

(** The names of the published records are names of scanned directories,
    in scanning order. *)
Lemma published_names comics_dir comic_folder theme comic_info date_format tz_info
    local_time auto_detect publish_all (pages : list page_dir) (outcomes : list page_outcome) :
  hook_keeps_page_name →
  mapM (outcome_of comics_dir comic_folder theme comic_info date_format tz_info
          local_time auto_detect publish_all) pages = Ok outcomes →
  ∃ names, names `sublist_of` (dir_name <$> pages) ∧
    Forall2 (λ r name, r !! "page_name" = Some (VStr name)) (published_records outcomes) names.
Proof.
  intros Hhook Hos%mapM_Ok.
  induction Hos as [|p o pages outcomes Hp _ (names & Hsub & Hn)].
  - exists []. split; [done | constructor].
  - destruct o as [| |r].
    + exists names. split; [by apply sublist_cons | done].
    + exists names. split; [by apply sublist_cons | done].
    + exists (dir_name p :: names). split; [by apply sublist_skip|].
      unfold published_records. simpl. constructor; [|done].
      unfold outcome_of in Hp. destruct (info_ini p) as [[info|]|]; try done. simpl in Hp.
      destruct (info !! "Post date") as [text|]; [|done]. simpl in Hp.
      destruct (datetime_strptime text date_format) as [dt|]; [|done]. simpl in Hp.
      destruct (localize tz_info dt) as [post_date|]; [|done]. simpl in Hp.
      destruct ((local_time <? post_date) && negb publish_all); [done|].
      destruct (publish_page _ _ _ _ _ _ _) as [r'|] eqn:Hr; [|done].
      simpl in Hp. injection Hp as ->. by eapply publish_page_name.
Qed.

Lemma keys_names (date_format : string) (records : list dict)
    (keys : list (struct_time * string)) (names : list string) :
  mapM (sort_key date_format) records = Ok keys →
  Forall2 (λ r name, r !! "page_name" = Some (VStr name)) records names →
  keys.*2 = names.
Proof.
  intros Hk%mapM_Ok. revert names.
  induction Hk as [|x [t n] records keys Hx _ IH]; intros names Hn.
  - by apply Forall2_nil_inv_l in Hn as ->.
  - apply Forall2_cons_inv_l in Hn as (name & names' & Hname & Hn & ->).
    rewrite fmap_cons, (IH _ Hn). f_equal. simpl.
    apply sort_key_name in Hx. congruence.
Qed.

End PageNames.




(** ** PageScanner: scheduled pages *)

Lemma mapM_app_result {A B} (f : A → result B) (l1 l2 : list A) :
  mapM f (l1 ++ l2) = (ys1 ← mapM f l1; ys2 ← mapM f l2; Ok (ys1 ++ ys2)).
Proof.
  induction l1 as [|x l1 IH]; simpl.
  - by destruct (mapM f l2).
  - destruct (f x) as [y|]; simpl; [|done]. rewrite IH.
    destruct (mapM f l1) as [ys1|]; simpl; [|done].
    by destruct (mapM f l2).
Qed.

Lemma published_records_app (os1 os2 : list page_outcome) :
  published_records (os1 ++ os2) = published_records os1 ++ published_records os2.
Proof. unfold published_records. by rewrite omap_app. Qed.

Lemma scheduled_count_app (os1 os2 : list page_outcome) :
  scheduled_count (os1 ++ os2) = scheduled_count os1 + scheduled_count os2.
Proof. unfold scheduled_count. rewrite filter_app, length_app. lia. Qed.

Lemma scheduled_count_none (os : list page_outcome) :
  Forall (λ o, o ≠ Scheduled) os → scheduled_count os = 0.
Proof.
  unfold scheduled_count. induction 1 as [|o os Ho _ IH]; [done|].
  by rewrite filter_cons_False.
Qed.

Lemma scheduled_paths_app comics_dir (ps1 ps2 : list page_dir) (os1 os2 : list page_outcome) :
  length ps1 = length os1 →
  scheduled_paths comics_dir (ps1 ++ ps2) (os1 ++ os2) =
    scheduled_paths comics_dir ps1 os1 ++ scheduled_paths comics_dir ps2 os2.
Proof.
  revert os1. induction ps1 as [|p ps1 IH]; intros [|o os1] Hlen; try done.
  simpl. rewrite IH by (simpl in Hlen; lia). by rewrite app_assoc.
Qed.

Section Scheduling.
Context `{Collaborators}.
Context (comics_dir : string) (local_time : Z) (comic_folder : string) (comic_info : config).
Context (date_format tz_name : string) (tz_info : tzinfo).
Context (p : page_dir) (info : gmap string string) (text : string) (dt : datetime)
        (post_date : Z).
Hypothesis Hformat : cfg_get comic_info "Comic Settings" "Date format" = Ok date_format.
Hypothesis Hzone : cfg_get comic_info "Comic Settings" "Timezone" = Ok tz_name.
Hypothesis Htz : timezone tz_name = Ok tz_info.
Hypothesis Hinfo : info_ini p = Some (Ok info).
Hypothesis Htext : info !! "Post date" = Some text.
Hypothesis Hparse : datetime_strptime text date_format = Ok dt.
Hypothesis Hlocal : localize tz_info dt = Ok post_date.
Hypothesis Hfuture : local_time < post_date.

Lemma outcome_scheduled theme auto_detect :
  outcome_of comics_dir comic_folder theme comic_info date_format tz_info local_time
    auto_detect false p = Ok Scheduled.
Proof.
  unfold outcome_of. rewrite Hinfo. simpl. rewrite Htext. simpl. rewrite Hparse. simpl.
  rewrite Hlocal. simpl. by rewrite (proj2 (Z.ltb_lt _ _) Hfuture).
Qed.

Lemma outcome_published theme auto_detect :
  outcome_of comics_dir comic_folder theme comic_info date_format tz_info local_time
    auto_detect true p =
  Published <$> publish_page comics_dir comic_folder theme comic_info auto_detect p info.
Proof.
  unfold outcome_of. rewrite Hinfo. simpl. rewrite Htext. simpl. rewrite Hparse. simpl.
  rewrite Hlocal. simpl. by rewrite andb_false_r.
Qed.

End Scheduling.

Lemma outcome_publish_all `{Collaborators} comics_dir comic_folder theme comic_info
    date_format tz_info local_time auto_detect (p : page_dir) (o : page_outcome) :
  outcome_of comics_dir comic_folder theme comic_info date_format tz_info local_time
    auto_detect true p = Ok o → o ≠ Scheduled.
Proof.
  unfold outcome_of. destruct (info_ini p) as [[info|]|]; simpl; try done.
  - destruct (info !! "Post date") as [text|]; simpl; [|done].
    destruct (datetime_strptime text date_format) as [dt|]; simpl; [|done].
    destruct (localize tz_info dt) as [post_date|]; simpl; [|done].
    rewrite andb_false_r. destruct (publish_page _ _ _ _ _ _ _); simpl; [|done].
    by intros [= <-].
  - by intros [= <-].
Qed.

(** C3.  Let a scanned page have a post date that parses and, localized,
    lies strictly after the build time.  With publish-all off, the run
    returns the record list it returns without that page, and a scheduled
    count that is greater by one (and raises exactly when the run without
    the page raises); with delete-scheduled on, the page's directory is
    among those removed.  With publish-all on, the scheduled count of a run
    is zero and the record the page is published as is in the returned
    list. *)
Theorem scheduled_page_is_held_back `{Collaborators} (comics_dir : string)
    (before after : list page_dir) (p : page_dir) (local_time : Z) (comic_folder : string)
    (comic_info : config) (delete_scheduled : bool)
    (date_format tz_name : string) (tz_info : tzinfo)
    (info : gmap string string) (text : string) (dt : datetime) (post_date : Z) :
  cfg_get comic_info "Comic Settings" "Date format" = Ok date_format →
  cfg_get comic_info "Comic Settings" "Timezone" = Ok tz_name →
  timezone tz_name = Ok tz_info →
  info_ini p = Some (Ok info) →
  info !! "Post date" = Some text →
  datetime_strptime text date_format = Ok dt →
  localize tz_info dt = Ok post_date →
  local_time < post_date →
  (λ res, (res.1.1, res.1.2)) <$>
    get_page_info_list comics_dir (before ++ p :: after) local_time comic_folder comic_info
      delete_scheduled false =
  (λ res, (res.1.1, res.1.2 + 1)) <$>
    get_page_info_list comics_dir (before ++ after) local_time comic_folder comic_info
      delete_scheduled false ∧
  (∀ l n deleted,
     get_page_info_list comics_dir (before ++ p :: after) local_time comic_folder comic_info
       true false = Ok (l, n, deleted) →
     comics_dir +:+ dir_name p +:+ "/" ∈ deleted) ∧
  (∀ l n deleted,
     get_page_info_list comics_dir (before ++ p :: after) local_time comic_folder comic_info
       delete_scheduled true = Ok (l, n, deleted) →
     n = 0 ∧ deleted = [] ∧
     ∃ auto_detect theme r,
       get_option_bool comic_info "Comic Settings" "Auto-detect comic images" false
         = Ok auto_detect ∧
       get_option comic_info "Comic Settings" "Theme" "default" = Ok theme ∧
       publish_page comics_dir comic_folder theme comic_info auto_detect p info = Ok r ∧
       r ∈ l).
Proof.
  intros Hformat Hzone Htz Hinfo Htext Hparse Hlocal Hfuture.
  split; [|split].
  - destruct (get_option_bool comic_info "Comic Settings" "Auto-detect comic images" false)
      as [auto|e] eqn:Hauto;
      [|by unfold get_page_info_list; rewrite Hformat, Hzone; simpl; rewrite Htz; simpl;
           rewrite Hauto].
    destruct (get_option comic_info "Comic Settings" "Theme" "default") as [theme|e] eqn:Htheme;
      [|by unfold get_page_info_list; rewrite Hformat, Hzone; simpl; rewrite Htz; simpl;
           rewrite Hauto; simpl; rewrite Htheme].
    rewrite !(get_page_info_list_outcomes _ _ _ _ _ _ _ date_format tz_name tz_info auto theme)
      by done.
    rewrite !mapM_app_result.
    destruct (mapM _ before) as [os1|]; simpl; [|done].
    rewrite (outcome_scheduled comics_dir local_time comic_folder comic_info date_format
               tz_info p info text dt post_date) by done.
    simpl. destruct (mapM _ after) as [os2|]; simpl; [|done].
    rewrite !published_records_app.
    change (published_records (Scheduled :: os2)) with (published_records os2).
    destruct (sorted_pages date_format _) as [sorted|]; simpl; [|done].
    f_equal. f_equal. rewrite !scheduled_count_app.
    change (Scheduled :: os2) with ([Scheduled] ++ os2). rewrite scheduled_count_app.
    change (scheduled_count [Scheduled]) with 1. lia.
  - intros l n deleted Hrun.
    apply get_page_info_list_inv in Hrun
      as (fmt & tzn & tz & auto & theme & os & H1 & H2 & H3 & _ & _ & Hos & _ & _ & ->).
    assert (fmt = date_format) as -> by congruence.
    assert (tzn = tz_name) as -> by congruence.
    assert (tz = tz_info) as -> by congruence.
    apply mapM_app_Ok in Hos as (os1 & os2' & Hos1 & Hos2 & ->).
    apply mapM_Ok in Hos1, Hos2.
    apply Forall2_cons_inv_l in Hos2 as (o & os2 & Ho & Hos2 & ->).
    rewrite (outcome_scheduled comics_dir local_time comic_folder comic_info date_format
               tz_info p info text dt post_date) in Ho by done.
    injection Ho as <-.
    rewrite scheduled_paths_app by (by eapply Forall2_length).
    simpl. set_solver.
  - intros l n deleted Hrun.
    apply get_page_info_list_inv in Hrun
      as (fmt & tzn & tz & auto & theme & os & H1 & H2 & H3 & Hauto & Htheme & Hos & Hsorted
          & -> & ->).
    assert (fmt = date_format) as -> by congruence.
    assert (tzn = tz_name) as -> by congruence.
    assert (tz = tz_info) as -> by congruence.
    assert (Hnone : Forall (λ o, o ≠ Scheduled) os).
    { apply mapM_Ok in Hos. clear Hsorted.
      induction Hos as [|q o ? ? Hq _ IH]; constructor; [|done].
      by eapply outcome_publish_all. }
    split; [by apply scheduled_count_none|]. split.
    { destruct delete_scheduled; [|done]. apply mapM_Ok in Hos. clear Hsorted.
      induction Hos as [|q o ? ? Hq _ IH]; [done|].
      apply Forall_cons in Hnone as [Ho Hnone]. simpl. rewrite decide_False by done.
      by apply IH. }
    apply mapM_app_Ok in Hos as (os1 & os2' & Hos1 & Hos2 & ->).
    apply mapM_Ok in Hos2.
    apply Forall2_cons_inv_l in Hos2 as (o & os2 & Ho & Hos2 & ->).
    rewrite (outcome_published comics_dir local_time comic_folder comic_info date_format
               tz_info p info text dt post_date) in Ho by done.
    destruct (publish_page comics_dir comic_folder theme comic_info auto p info) as [r|] eqn:Hr;
      [|done].
    simpl in Ho. injection Ho as <-.
    exists auto, theme, r. split; [done|]. split; [done|]. split; [done|].
    destruct (sorted_pages_spec date_format _ _ Hsorted) as (_ & _ & _ & _ & _ & _ & Hperm & _).
    rewrite Hperm, published_records_app. apply elem_of_app. right.
    unfold published_records. simpl. set_solver.
Qed.

Lemma scheduled_page_is_held_back_witness :
  cfg_get sample_comic_info "Comic Settings" "Date format" = Ok "%Y%m%d" ∧
  cfg_get sample_comic_info "Comic Settings" "Timezone" = Ok "UTC" ∧
  @timezone sample_collaborators "UTC" = Ok () ∧
  info_ini (sample_page "later" "20990101") = Some (Ok sample_later_info) ∧
  sample_later_info !! "Post date" = Some "20990101" ∧
  @datetime_strptime sample_collaborators "20990101" "%Y%m%d" = Ok 20990101 ∧
  @localize sample_collaborators () 20990101 = Ok 20990101 ∧
  sample_now < 20990101 ∧
  (λ res, (res.1.1, res.1.2)) <$>
    @get_page_info_list sample_collaborators "content/comics/"
      ([sample_page "b" "20240105"] ++ sample_page "later" "20990101" ::
       [sample_page "a" "20240105"])
      sample_now "" sample_comic_info true false =
  (λ res, (res.1.1, res.1.2 + 1)) <$>
    @get_page_info_list sample_collaborators "content/comics/"
      ([sample_page "b" "20240105"] ++ [sample_page "a" "20240105"])
      sample_now "" sample_comic_info true false.
Proof.
  assert (H1 : cfg_get sample_comic_info "Comic Settings" "Date format" = Ok "%Y%m%d")
    by reflexivity.
  assert (H2 : cfg_get sample_comic_info "Comic Settings" "Timezone" = Ok "UTC") by reflexivity.
  assert (H3 : @timezone sample_collaborators "UTC" = Ok ()) by reflexivity.
  assert (H4 : info_ini (sample_page "later" "20990101") = Some (Ok sample_later_info))
    by reflexivity.
  assert (H5 : sample_later_info !! "Post date" = Some "20990101") by reflexivity.
  assert (H6 : @datetime_strptime sample_collaborators "20990101" "%Y%m%d" = Ok 20990101)
    by reflexivity.
  assert (H7 : @localize sample_collaborators () 20990101 = Ok 20990101) by reflexivity.
  assert (H8 : sample_now < 20990101) by (unfold sample_now; lia).
  repeat (split; [assumption|]).
  exact (proj1 (@scheduled_page_is_held_back sample_collaborators "content/comics/"
                  [sample_page "b" "20240105"] [sample_page "a" "20240105"]
                  (sample_page "later" "20990101") sample_now "" sample_comic_info true
                  "%Y%m%d" "UTC" () sample_later_info "20990101" 20990101 20990101
                  H1 H2 H3 H4 H5 H6 H7 H8)).
Defined.

(** On the sample pages: one page is held back with publish-all off, none
    with publish-all on, and the two pages of the same day come out in the
    order of their names. *)
Example sample_scan :
  (λ res : list dict * Z * list string,
     ((λ r : dict, r !! "page_name") <$> res.1.1, res.1.2)) <$>
    @get_page_info_list sample_collaborators "content/comics/" sample_pages sample_now
      "" sample_comic_info false false
    = Ok ([Some (VStr "a"); Some (VStr "b")], 1) ∧
  (λ res : list dict * Z * list string,
     ((λ r : dict, r !! "page_name") <$> res.1.1, res.1.2)) <$>
    @get_page_info_list sample_collaborators "content/comics/" sample_pages sample_now
      "" sample_comic_info false true
    = Ok ([Some (VStr "a"); Some (VStr "b"); Some (VStr "later")], 0).
Proof. split; by vm_compute. Qed.

(** * Further properties *)

(** ** Configuration: [get_option] *)

Lemma not_is_Some_None {A} : ¬ is_Some (@None A).
Proof. by intros [? ?]. Qed.

Lemma get_option_found (c : config) (section name dflt : string) :
  section ≠ "" → section ≠ DEFAULT_SECTION →
  get_option c section name dflt =
    Ok match cfg_sections c !! section with
       | Some opts =>
           match opts !! name with
           | Some v => v
           | None => default dflt (cfg_defaults c !! name)
           end
       | None => dflt
       end.
Proof.
  intros H1 H2. unfold get_option, has_section, has_option, cfg_get.
  rewrite (bool_decide_eq_false_2 (section = "")) by done.
  rewrite !(bool_decide_eq_false_2 (section = DEFAULT_SECTION)) by done. cbn [orb].
  destruct (cfg_sections c !! section) as [opts|] eqn:Hs.
  2: { rewrite bool_decide_eq_false_2; [done | apply not_is_Some_None]. }
  rewrite bool_decide_eq_true_2 by eauto. cbn [andb].
  destruct (opts !! name) as [v|] eqn:Hv.
  - rewrite bool_decide_eq_true_2 by eauto. cbn. by rewrite Hv.
  - destruct (cfg_defaults c !! name) as [w|] eqn:Hw.
    + rewrite (bool_decide_eq_false_2 (is_Some None)) by apply not_is_Some_None.
      rewrite bool_decide_eq_true_2 by eauto. cbn. rewrite Hv. cbn. done.
    + rewrite !bool_decide_eq_false_2 by apply not_is_Some_None. done.
Qed.

Lemma guarded_get (c : config) (section name : string) :
  has_section c section && has_option c section name = true →
  is_Ok (cfg_get c section name).
Proof.
  unfold has_section, has_option, cfg_get, is_Ok. intros [Hs Ho]%andb_true_iff.
  apply bool_decide_eq_true_1 in Hs as [opts Hs]. rewrite Hs in *.
  assert (Hd : is_Some (cfg_defaults c !! name) → ∀ o : gmap string string,
    ∃ a, match o !! name with
         | Some v => Ok v
         | None => match cfg_defaults c !! name with
                   | Some v => Ok v
                   | None => Raise (ExternalError "NoOptionError" name)
                   end
         end = Ok a).
  { intros [w Hw] o. rewrite Hw. destruct (o !! name); eauto. }
  destruct (bool_decide (section = DEFAULT_SECTION)) eqn:H2; cbn.
  { rewrite orb_true_r in Ho. apply bool_decide_eq_true_1 in Ho. by apply Hd. }
  destruct (bool_decide (section = "")) eqn:H1; cbn in Ho.
  { apply bool_decide_eq_true_1 in Ho. by apply Hd. }
  apply orb_true_iff in Ho as [Ho|Ho]; apply bool_decide_eq_true_1 in Ho.
  - destruct Ho as [v Hv]. rewrite Hv. eauto.
  - by apply Hd.
Qed.

(** X1.  [get_option] with a string type never raises, whatever the
    configuration holds: for a named section it returns the section's own
    value of the option, else the value of the default section, else the
    default given by the caller; when the section itself is missing it
    returns the caller's default even if the default section has the
    option. *)
Theorem get_option_never_raises (c : config) (section name dflt : string) :
  section ≠ "" → section ≠ DEFAULT_SECTION →
  get_option c section name dflt =
    Ok match cfg_sections c !! section with
       | Some opts =>
           match opts !! name with
           | Some v => v
           | None => default dflt (cfg_defaults c !! name)
           end
       | None => dflt
       end.
Proof. apply get_option_found. Qed.

(** X2.  [get_option] with the type [bool] raises in one case only: the
    option is set, and its value, in lower case, is none of the eight
    literals 1, yes, true, on, 0, no, false, off.  The exception is then the
    [ValueError] of [getboolean] for that value; a missing section or option
    never raises. *)
Theorem get_option_bool_raises (c : config) (section name : string) (dflt : bool) (e : exn) :
  get_option_bool c section name dflt = Raise e →
  ∃ v, cfg_get c section name = Ok v ∧ e = InvalidLiteral v ∧
       lower v ∉ ["1"; "yes"; "true"; "on"; "0"; "no"; "false"; "off"].
Proof.
  unfold get_option_bool.
  destruct (has_section c section && has_option c section name) eqn:Hg; [|done].
  destruct (guarded_get _ _ _ Hg) as [v Hv]. unfold cfg_getboolean. rewrite Hv. cbn.
  case_bool_decide as Ht; [done|]. case_bool_decide as Hf; [done|].
  intros [= <-]. exists v. repeat split.
  change ["1"; "yes"; "true"; "on"; "0"; "no"; "false"; "off"]
    with (["1"; "yes"; "true"; "on"] ++ ["0"; "no"; "false"; "off"]).
  rewrite elem_of_app. tauto.
Qed.

Lemma get_option_never_raises_witness :
  "Comic Settings" ≠ "" ∧ "Comic Settings" ≠ DEFAULT_SECTION ∧
  get_option sample_comic_info "Comic Settings" "Theme" "default" = Ok "default" ∧
  get_option sample_comic_info "Archive" "Date format" "%x" = Ok "%x".
Proof.
  assert (H1 : "Comic Settings" ≠ "") by discriminate.
  assert (H2 : "Comic Settings" ≠ DEFAULT_SECTION) by discriminate.
  repeat (split; [assumption|]). split.
  - rewrite (get_option_never_raises sample_comic_info "Comic Settings" "Theme" "default" H1 H2).
    reflexivity.
  - rewrite (get_option_never_raises sample_comic_info "Archive" "Date format" "%x");
      [reflexivity | discriminate | discriminate].
Defined.

Lemma get_option_bool_raises_witness :
  get_option_bool sample_bad_flag "Comic Settings" "Auto-detect comic images" false
    = Raise (InvalidLiteral "maybe") ∧
  ∃ v, cfg_get sample_bad_flag "Comic Settings" "Auto-detect comic images" = Ok v ∧
       InvalidLiteral "maybe" = InvalidLiteral v.
Proof.
  assert (H1 : get_option_bool sample_bad_flag "Comic Settings" "Auto-detect comic images" false
               = Raise (InvalidLiteral "maybe")) by reflexivity.
  split; [exact H1|].
  destruct (get_option_bool_raises _ _ _ _ _ H1) as (v & Hv & He & _).
  exists v. split; [exact Hv | exact He].
Defined.

(** ** NavigationLinker: indices out of range and neighbouring pages *)

Lemma list_getitem_out_of_range {A} (l : list A) (i : Z) :
  i < - Z.of_nat (length l) ∨ Z.of_nat (length l) ≤ i →
  list_getitem l i = Raise IndexError.
Proof.
  intros Hi. unfold list_getitem.
  destruct (Z.ltb_spec i 0);
    destruct (Z.leb_spec 0 (i + Z.of_nat (length l)));
    destruct (Z.leb_spec 0 i);
    destruct (Z.ltb_spec i (Z.of_nat (length l)));
    destruct (Z.ltb_spec (i + Z.of_nat (length l)) (Z.of_nat (length l)));
    cbn; try done; lia.
Qed.

Lemma list_getitem_wraps {A} (l : list A) (i : Z) :
  - Z.of_nat (length l) ≤ i < 0 →
  list_getitem l i = list_getitem l (i + Z.of_nat (length l)).
Proof.
  intros Hi. unfold list_getitem.
  destruct (Z.ltb_spec i 0); [|lia].
  destruct (Z.ltb_spec (i + Z.of_nat (length l)) 0); [lia|done].
Qed.

Lemma page_name_at_defined (comic_list : list dict) (i : Z) :
  Forall (λ page : dict, is_Some (page !! "page_name")) comic_list →
  - Z.of_nat (length comic_list) ≤ i < Z.of_nat (length comic_list) →
  is_Ok (page_name_at comic_list i).
Proof.
  intros Hall Hi. destruct (Z.lt_ge_cases i 0).
  - destruct (page_name_at_in_range comic_list (i + Z.of_nat (length comic_list)))
      as (v & _ & Hv); [lia|done|].
    exists v. unfold page_name_at in *. by rewrite list_getitem_wraps by lia.
  - destruct (page_name_at_in_range comic_list i) as (v & _ & Hv); [lia|done|].
    by exists v.
Qed.

Lemma page_name_at_out_of_range (comic_list : list dict) (i : Z) :
  i < - Z.of_nat (length comic_list) ∨ Z.of_nat (length comic_list) ≤ i →
  page_name_at comic_list i = Raise IndexError.
Proof. intros Hi. unfold page_name_at. by rewrite list_getitem_out_of_range. Qed.

(** X3.  On records that carry a page name, [get_ids] raises [IndexError]
    exactly when the list is empty or the index lies outside
    [-len, len): the empty list fails at the first entry, an index too large
    at the previous or the current entry, an index too small at the current
    entry. *)
Theorem get_ids_index_error (comic_list : list dict) (index : Z) :
  Forall (λ page : dict, is_Some (page !! "page_name")) comic_list →
  get_ids comic_list index = Raise IndexError ↔
    comic_list = [] ∨ index < - Z.of_nat (length comic_list) ∨
    Z.of_nat (length comic_list) ≤ index.
Proof.
  intros Hall.
  destruct (decide (comic_list = [])) as [->|Hne].
  { split; [by left | done]. }
  remember (Z.of_nat (length comic_list)) as n eqn:Hn.
  assert (0 < n) by (subst n; destruct comic_list; [done | simpl; lia]).
  destruct (page_name_at_defined comic_list 0 Hall) as [vf Ef]; [lia|].
  destruct (page_name_at_defined comic_list (-1) Hall) as [vl El]; [lia|].
  unfold get_ids. rewrite Ef. cbn. rewrite <- Hn.
  destruct (Z.lt_ge_cases n (index - 1)) as [Hbig|Hp].
  { rewrite (page_name_at_out_of_range _ (Z.max 0 (index - 1))) by lia.
    cbn. split; [intros _; lia | done]. }
  destruct (Z.eq_dec (index - 1) n) as [Heq|Hneq].
  { rewrite (page_name_at_out_of_range _ (Z.max 0 (index - 1))) by lia.
    cbn. split; [intros _; lia | done]. }
  destruct (page_name_at_defined comic_list (Z.max 0 (index - 1)) Hall) as [vp Ep]; [lia|].
  rewrite Ep. cbn.
  destruct (decide (- n ≤ index < n)) as [Hin|Hout].
  - destruct (page_name_at_defined comic_list index Hall) as [vc Ec]; [lia|].
    destruct (page_name_at_defined comic_list (Z.min (n - 1) (index + 1)) Hall)
      as [vn En]; [lia|].
    rewrite Ec. cbn. rewrite En. cbn. rewrite El. cbn.
    split; [done | intros [?|?]; [done | lia]].
  - rewrite (page_name_at_out_of_range _ index) by lia.
    cbn. split; [intros _; lia | done].
Qed.

(** X4.  The identifiers of neighbouring pages fit together: for two
    consecutive positions of the list, the [next_id] of the first is the
    [current_id] of the second, the [previous_id] of the second is the
    [current_id] of the first, and both have the same [first_id] and
    [last_id]. *)
Theorem get_ids_neighbours_agree (comic_list : list dict) (index : Z) :
  0 ≤ index → index + 1 < Z.of_nat (length comic_list) →
  Forall (λ page : dict, is_Some (page !! "page_name")) comic_list →
  ∃ here there,
    get_ids comic_list index = Ok here ∧
    get_ids comic_list (index + 1) = Ok there ∧
    next_id here = current_id there ∧
    previous_id there = current_id here ∧
    first_id here = first_id there ∧
    last_id here = last_id there.
Proof.
  intros H0 Hlt Hall. remember (Z.of_nat (length comic_list)) as n eqn:Hn.
  destruct (page_name_at_defined comic_list 0 Hall) as [vf Ef]; [lia|].
  destruct (page_name_at_defined comic_list (-1) Hall) as [vl El]; [lia|].
  destruct (page_name_at_defined comic_list (Z.max 0 (index - 1)) Hall) as [vp Ep]; [lia|].
  destruct (page_name_at_defined comic_list index Hall) as [vc Ec]; [lia|].
  destruct (page_name_at_defined comic_list (index + 1) Hall) as [vn En]; [lia|].
  destruct (page_name_at_defined comic_list (Z.min (n - 1) (index + 1 + 1)) Hall)
    as [vm Em]; [lia|].
  exists {| first_id := vf; previous_id := vp; current_id := vc; next_id := vn; last_id := vl |},
         {| first_id := vf; previous_id := vc; current_id := vn; next_id := vm; last_id := vl |}.
  unfold get_ids. rewrite <- Hn.
  replace (Z.min (n - 1) (index + 1)) with (index + 1) by lia.
  replace (Z.max 0 (index + 1 - 1)) with index by lia.
  rewrite Ef, Ep, Ec, En, Em, El. cbn. done.
Qed.

Lemma get_ids_index_error_witness :
  Forall (λ page : dict, is_Some (page !! "page_name")) two_pages ∧
  get_ids two_pages 2 = Raise IndexError ∧ get_ids two_pages (-3) = Raise IndexError.
Proof.
  assert (H1 : Forall (λ page : dict, is_Some (page !! "page_name")) two_pages).
  { repeat constructor; eexists; apply lookup_singleton_eq. }
  split; [exact H1|]. split.
  - apply (get_ids_index_error two_pages 2 H1). right. right. simpl. lia.
  - apply (get_ids_index_error two_pages (-3) H1). right. left. simpl. lia.
Defined.

Lemma get_ids_neighbours_agree_witness :
  0 ≤ 0 ∧ 0 + 1 < Z.of_nat (length two_pages) ∧
  Forall (λ page : dict, is_Some (page !! "page_name")) two_pages ∧
  ∃ here there,
    get_ids two_pages 0 = Ok here ∧ get_ids two_pages (0 + 1) = Ok there ∧
    next_id here = current_id there ∧ previous_id there = current_id here.
Proof.
  assert (H0 : 0 ≤ 0) by lia.
  assert (H1 : 0 + 1 < Z.of_nat (length two_pages)) by (simpl; lia).
  assert (H2 : Forall (λ page : dict, is_Some (page !! "page_name")) two_pages).
  { repeat constructor; eexists; apply lookup_singleton_eq. }
  repeat (split; [assumption|]).
  destruct (get_ids_neighbours_agree two_pages 0 H0 H1 H2)
    as (here & there & Hh & Ht & Hn & Hp & _).
  exists here, there. repeat split; assumption.
Defined.

(** ** PageScanner: what a run accounts for *)

Lemma mapM_Ok_fmap {A B} (f : A → result B) (dflt : B) (l : list A) (ys : list B) :
  mapM f l = Ok ys ↔
  Forall (λ x, is_Ok (f x)) l ∧ ys = (λ x, result_default dflt (f x)) <$> l.
Proof.
  rewrite mapM_Ok. split.
  - induction 1 as [|x y l ys Hx _ [IH1 IH2]]; [done|]. split.
    + constructor; [by exists y | done].
    + rewrite fmap_cons, Hx. simpl. by f_equal.
  - intros [Hall ->]. induction Hall as [|x l [y Hx] _ IH]; [constructor|].
    rewrite fmap_cons. constructor; [|done]. by rewrite Hx.
Qed.

Lemma omap_cons {A B} (f : A → option B) (x : A) (l : list A) :
  omap f (x :: l) = match f x with Some y => y :: omap f l | None => omap f l end.
Proof. reflexivity. Qed.

Lemma scheduled_paths_omap comics_dir (f : page_dir → page_outcome) (pages : list page_dir) :
  scheduled_paths comics_dir pages (f <$> pages) =
  omap (λ p, if decide (f p = Scheduled) then Some (comics_dir +:+ dir_name p +:+ "/") else None)
       pages.
Proof.
  induction pages as [|p pages IH]; [done|].
  rewrite fmap_cons, omap_cons. cbn [scheduled_paths]. rewrite IH.
  by destruct (decide (f p = Scheduled)).
Qed.

Lemma published_records_length (outcomes : list page_outcome) :
  Z.of_nat (length (published_records outcomes)) + scheduled_count outcomes =
  Z.of_nat (length (filter (λ o, o ≠ Skipped) outcomes)).
Proof.
  unfold published_records, scheduled_count.
  induction outcomes as [|o os IH]; [done|].
  destruct o as [| |r].
  - rewrite filter_cons_False by done. rewrite (filter_cons_False (λ o, o ≠ Skipped)) by tauto.
    by rewrite omap_cons.
  - rewrite filter_cons_True by done. rewrite (filter_cons_True (λ o, o ≠ Skipped)) by done.
    rewrite omap_cons, !length_cons. lia.
  - rewrite filter_cons_False by done. rewrite (filter_cons_True (λ o, o ≠ Skipped)) by done.
    rewrite omap_cons, !length_cons. lia.
Qed.

Section Accounting.
Context `{Collaborators}.
Context (comics_dir : string) (local_time : Z) (comic_folder : string) (comic_info : config).

Lemma outcome_skipped theme date_format tz_info auto_detect publish_all (p : page_dir)
    (o : page_outcome) :
  outcome_of comics_dir comic_folder theme comic_info date_format tz_info local_time
    auto_detect publish_all p = Ok o →
  o = Skipped ↔ info_ini p = None.
Proof.
  unfold outcome_of. destruct (info_ini p) as [[info|e]|]; simpl; try done.
  - destruct (info !! "Post date") as [text|]; simpl; [|done].
    destruct (datetime_strptime text date_format) as [dt|]; simpl; [|done].
    destruct (localize tz_info dt) as [post_date|]; simpl; [|done].
    destruct ((local_time <? post_date) && negb publish_all); simpl.
    + by intros [= <-].
    + destruct (publish_page _ _ _ _ _ _ _) as [r|]; simpl; [|done]. by intros [= <-].
  - by intros [= <-].
Qed.

(** X5.  A run of [get_page_info_list] that returns accounts for every
    page directory: the number of returned records plus the scheduled count
    is the number of directories that have an [info.ini]; the count is not
    negative and is zero when everything is published; no directory is
    removed unless deletion was asked for, and then one directory is removed
    per scheduled page, each of them one of the scanned directories. *)
Theorem get_page_info_list_accounts_for_pages (pages : list page_dir)
    (delete_scheduled publish_all : bool) (l : list dict) (n : Z) (deleted : list string) :
  get_page_info_list comics_dir pages local_time comic_folder comic_info
    delete_scheduled publish_all = Ok (l, n, deleted) →
  0 ≤ n ∧
  Z.of_nat (length l) + n = Z.of_nat (length (filter (λ p, is_Some (info_ini p)) pages)) ∧
  (publish_all = true → n = 0) ∧
  (delete_scheduled = false → deleted = []) ∧
  (delete_scheduled = true → Z.of_nat (length deleted) = n) ∧
  deleted ⊆ (λ p, comics_dir +:+ dir_name p +:+ "/") <$> pages.
Proof.
  intros Hrun.
  apply get_page_info_list_inv in Hrun
    as (fmt & tzn & tz & auto & theme & os & _ & _ & _ & _ & _ & Hos & Hsorted & -> & ->).
  destruct (sorted_pages_spec fmt _ _ Hsorted) as (_ & _ & _ & _ & _ & _ & Hperm & _).
  pose proof Hos as Hf2. rewrite mapM_Ok in Hf2.
  split; [unfold scheduled_count; lia|].
  split.
  { rewrite Hperm, published_records_length. f_equal.
    clear Hos Hsorted Hperm. induction Hf2 as [|p o pages os Hp _ IH]; [done|].
    apply outcome_skipped in Hp.
    destruct (info_ini p) as [i|] eqn:Hi.
    - rewrite (filter_cons_True (λ p, is_Some (info_ini p))) by (rewrite Hi; eauto).
      rewrite filter_cons_True by (intros Ho; by apply Hp in Ho). simpl. by rewrite IH.
    - rewrite (filter_cons_False (λ p, is_Some (info_ini p)))
        by (rewrite Hi; by intros [? ?]).
      rewrite filter_cons_False by (intros Ho; apply Ho; by apply Hp). done. }
  split.
  { intros ->. apply scheduled_count_none.
    clear Hos Hsorted Hperm. induction Hf2 as [|p o pages os Hp _ IH]; constructor; [|done].
    intros ->. unfold outcome_of in Hp. destruct (info_ini p) as [[info|e]|]; simpl in Hp; try done.
    destruct (info !! "Post date") as [text|]; simpl in Hp; [|done].
    destruct (datetime_strptime text fmt) as [dt|]; simpl in Hp; [|done].
    destruct (localize tz dt) as [post_date|]; simpl in Hp; [|done].
    rewrite andb_false_r in Hp.
    by destruct (publish_page _ _ _ _ _ _ _). }
  split; [by intros ->|].
  assert (Hpaths : length (scheduled_paths comics_dir pages os)
                   = length (filter (λ o, o = Scheduled) os)
                   ∧ scheduled_paths comics_dir pages os
                     ⊆ (λ p, comics_dir +:+ dir_name p +:+ "/") <$> pages).
  { clear Hos Hsorted Hperm. induction Hf2 as [|p o pages os Hp _ [IH1 IH2]]; [done|].
    cbn [scheduled_paths]. rewrite fmap_cons.
    destruct (decide (o = Scheduled)) as [->|Hne].
    - rewrite filter_cons_True by done. simpl. split; [by rewrite IH1 | set_solver].
    - rewrite filter_cons_False by done. simpl. split; [done | set_solver]. }
  destruct Hpaths as [Hlen Hsub].
  split.
  - intros ->. unfold scheduled_count. by rewrite Hlen.
  - destruct delete_scheduled; [done | set_solver].
Qed.

End Accounting.

Lemma get_page_info_list_accounts_for_pages_witness :
  @get_page_info_list sample_collaborators "content/comics/" sample_pages sample_now
    "" sample_comic_info true false = Ok (sample_sorted, 1, ["content/comics/later/"]) ∧
  Z.of_nat (length sample_sorted) + 1
    = Z.of_nat (length (filter (λ p, is_Some (info_ini p)) sample_pages)) ∧
  Z.of_nat (length ["content/comics/later/"]) = 1.
Proof.
  assert (Hrun : @get_page_info_list sample_collaborators "content/comics/" sample_pages
                   sample_now "" sample_comic_info true false
                 = Ok (sample_sorted, 1, ["content/comics/later/"])) by (vm_compute; reflexivity).
  split; [exact Hrun|].
  destruct (@get_page_info_list_accounts_for_pages sample_collaborators _ _ _ _ _ _ _ _ _ _ Hrun)
    as (_ & Hcount & _ & _ & Hdel & _).
  split; [exact Hcount | exact (Hdel eq_refl)].
Defined.

(** *** Paths of page directories *)

Lemma str_app_inj_l (s a b : string) : s +:+ a = s +:+ b → a = b.
Proof.
  induction s as [|c s IH]; [done|]. rewrite !str_app_cons. intros [= Heq]. by apply IH.
Qed.

Lemma str_app_inj_r (a b s : string) : a +:+ s = b +:+ s → a = b.
Proof.
  intros Heq. apply (f_equal String.rev) in Heq. rewrite !rev_append in Heq.
  apply str_app_inj_l in Heq. apply (f_equal String.rev) in Heq.
  by rewrite !rev_involutive in Heq.
Qed.

Lemma page_path_inj (comics_dir a b : string) :
  comics_dir +:+ a +:+ "/" = comics_dir +:+ b +:+ "/" → a = b.
Proof. intros Heq%str_app_inj_l. by apply str_app_inj_r in Heq. Qed.

Lemma NoDup_fmap_elem_inj {A B} (f : A → B) (l : list A) (x y : A) :
  NoDup (f <$> l) → x ∈ l → y ∈ l → f x = f y → x = y.
Proof.
  intros Hnd [i Hi]%list_elem_of_lookup [j Hj]%list_elem_of_lookup Hxy.
  assert (i = j) as ->; [|congruence].
  apply (NoDup_lookup (f <$> l) i j (f x) Hnd); rewrite list_lookup_fmap.
  - by rewrite Hi.
  - rewrite Hj. simpl. by rewrite Hxy.
Qed.

Section Deletion.
Context `{Collaborators}.
Context (comics_dir : string) (local_time : Z) (comic_folder : string) (comic_info : config).

Lemma outcome_published_name theme date_format tz_info auto_detect publish_all
    (p : page_dir) (r : dict) :
  hook_keeps_page_name →
  outcome_of comics_dir comic_folder theme comic_info date_format tz_info local_time
    auto_detect publish_all p = Ok (Published r) →
  r !! "page_name" = Some (VStr (dir_name p)).
Proof.
  intros Hhook Hp.
  unfold outcome_of in Hp. destruct (info_ini p) as [[info|]|]; try done. simpl in Hp.
  destruct (info !! "Post date") as [text|]; [|done]. simpl in Hp.
  destruct (datetime_strptime text date_format) as [dt|]; [|done]. simpl in Hp.
  destruct (localize tz_info dt) as [post_date|]; [|done]. simpl in Hp.
  destruct ((local_time <? post_date) && negb publish_all); [done|].
  destruct (publish_page _ _ _ _ _ _ _) as [r'|] eqn:Hr; [|done].
  simpl in Hp. injection Hp as ->. by eapply publish_page_name.
Qed.

(** X6.  The run never removes the directory of a page it publishes: when
    the page directories have distinct names and the theme's hook leaves the
    page name alone, the directory of no returned record is among the
    removed ones. *)
Theorem published_pages_are_not_deleted (pages : list page_dir)
    (delete_scheduled publish_all : bool) (l : list dict) (n : Z) (deleted : list string)
    (r : dict) (name : string) :
  hook_keeps_page_name →
  NoDup (dir_name <$> pages) →
  get_page_info_list comics_dir pages local_time comic_folder comic_info
    delete_scheduled publish_all = Ok (l, n, deleted) →
  r ∈ l → r !! "page_name" = Some (VStr name) →
  comics_dir +:+ name +:+ "/" ∉ deleted.
Proof.
  intros Hhook Hnd Hrun Hr Hname Hdel.
  apply get_page_info_list_inv in Hrun
    as (fmt & tzn & tz & auto & theme & os & _ & _ & _ & _ & _ & Hos & Hsorted & -> & ->).
  destruct (sorted_pages_spec fmt _ _ Hsorted) as (_ & _ & _ & _ & _ & _ & Hperm & _).
  rewrite Hperm in Hr.
  apply (mapM_Ok_fmap _ Skipped) in Hos as [Hall ->].
  destruct delete_scheduled; [|by apply elem_of_nil in Hdel].
  rewrite scheduled_paths_omap in Hdel.
  apply list_elem_of_omap in Hdel as (p & Hp & Hpath).
  destruct (decide (_ = Scheduled)) as [Hsched|]; [|done].
  injection Hpath as Hpath. apply page_path_inj in Hpath.
  unfold published_records in Hr. apply list_elem_of_omap in Hr as (o & Ho & Hpub).
  destruct o as [| |r']; try done. injection Hpub as ->.
  apply list_elem_of_fmap in Ho as (p' & Ho & Hp').
  rewrite Forall_forall in Hall. destruct (Hall p' Hp') as [o' Ho'].
  rewrite Ho' in Ho. simpl in Ho. subst o'.
  pose proof (outcome_published_name _ _ _ _ _ _ _ Hhook Ho') as Hn.
  assert (p = p').
  { apply (NoDup_fmap_elem_inj dir_name pages); [done..|]. congruence. }
  subst p'. rewrite Ho' in Hsched. done.
Qed.

End Deletion.

Lemma published_pages_are_not_deleted_witness :
  @hook_keeps_page_name sample_collaborators ∧
  NoDup (dir_name <$> sample_pages) ∧
  @get_page_info_list sample_collaborators "content/comics/" sample_pages sample_now
    "" sample_comic_info true false = Ok (sample_sorted, 1, ["content/comics/later/"]) ∧
  sample_first ∈ sample_sorted ∧
  sample_first !! "page_name" = Some (VStr "a") ∧
  "content/comics/" +:+ "a" +:+ "/" ∉ ["content/comics/later/"].
Proof.
  assert (H1 : @hook_keeps_page_name sample_collaborators).
  { intros theme folder ci path d hooked [= <-]. reflexivity. }
  assert (H2 : NoDup (dir_name <$> sample_pages)).
  { vm_compute. repeat constructor; set_solver. }
  assert (H3 : @get_page_info_list sample_collaborators "content/comics/" sample_pages
                 sample_now "" sample_comic_info true false
               = Ok (sample_sorted, 1, ["content/comics/later/"])) by (vm_compute; reflexivity).
  assert (H4 : sample_first ∈ sample_sorted).
  { apply (list_elem_of_lookup_2 _ 0%nat). vm_compute. reflexivity. }
  assert (H5 : sample_first !! "page_name" = Some (VStr "a")) by (vm_compute; reflexivity).
  repeat (split; [assumption|]).
  exact (@published_pages_are_not_deleted sample_collaborators _ _ _ _ _ _ _ _ _ _ _ _
           H1 H2 H3 H4 H5).
Defined.

(** *** The order in which the directories are listed *)

Lemma perm_short_eq {A} (l1 l2 : list A) : l1 ≡ₚ l2 → (length l1 ≤ 1)%nat → l1 = l2.
Proof.
  intros Hperm Hlen. destruct l1 as [|x [|y l1]]; [| |simpl in Hlen; lia].
  - by apply Permutation_nil_l in Hperm.
  - by apply Permutation_singleton_l in Hperm.
Qed.

Lemma filter_key_short {K A} `{EqDecision K} (k : K) (l : list (K * A)) :
  NoDup l.*1 → (length (filter (λ x, x.1 = k) l) ≤ 1)%nat.
Proof.
  induction l as [|x l IH]; [simpl; lia|]. rewrite fmap_cons. intros [Hx Hl]%NoDup_cons.
  destruct (decide (x.1 = k)) as [Hk|Hk].
  - rewrite filter_cons_True by done.
    assert (Hnone : filter (λ x, x.1 = k) l = []).
    { apply elem_of_nil_inv. intros y [Hyk Hy]%list_elem_of_filter. apply Hx.
      rewrite Hk, <- Hyk. by apply list_elem_of_fmap_2. }
    rewrite Hnone. simpl. lia.
  - rewrite filter_cons_False by done. by apply IH.
Qed.

(** With pairwise distinct keys the sorted list depends on the elements
    alone, not on the order they come in. *)
Lemma sort_by_perm_unique {K A} `{!EqDecision K} (ltb : K → K → bool) `{!StrictTotalB ltb}
    (l1 l2 : list (K * A)) :
  l1 ≡ₚ l2 → NoDup l1.*1 → sort_by ltb l1 = sort_by ltb l2.
Proof.
  intros Hperm Hnd.
  apply (ascending_unique ltb); [apply (sort_by_ascending ltb)..|].
  intros k. rewrite (sort_by_stable ltb l1 k), (sort_by_stable ltb l2 k).
  apply perm_short_eq; [by rewrite Hperm | by apply filter_key_short].
Qed.

(** X7.  For a theme without a hook for page records, the result does not
    depend on the order in which [glob] lists the page directories: when the
    directories have distinct names, a run over the same directories in
    another order returns the same list of records and the same scheduled
    count, and removes the same directories. *)
Theorem get_page_info_list_ignores_listing_order `{Collaborators} (comics_dir : string)
    (pages pages' : list page_dir) (local_time : Z) (comic_folder : string)
    (comic_info : config) (delete_scheduled publish_all : bool)
    (l : list dict) (n : Z) (deleted : list string) :
  no_page_hook →
  NoDup (dir_name <$> pages) →
  pages' ≡ₚ pages →
  get_page_info_list comics_dir pages local_time comic_folder comic_info
    delete_scheduled publish_all = Ok (l, n, deleted) →
  ∃ deleted',
    get_page_info_list comics_dir pages' local_time comic_folder comic_info
      delete_scheduled publish_all = Ok (l, n, deleted') ∧
    deleted' ≡ₚ deleted.
Proof.
  intros Hnone Hnd Hperm Hrun.
  assert (Hhook : hook_keeps_page_name).
  { intros theme folder ci path d hooked. rewrite Hnone. by intros [= <-]. }
  apply get_page_info_list_inv in Hrun
    as (fmt & tzn & tz & auto & theme & os & H1 & H2 & H3 & H4 & H5 & Hos & Hsorted & -> & ->).
  rewrite (get_page_info_list_outcomes _ _ _ _ _ _ _ fmt tzn tz auto theme H1 H2 H3 H4 H5).
  destruct (published_names _ _ _ _ _ _ _ _ _ _ _ Hhook Hos) as (names & Hsub & Hnames).
  set (outcome := outcome_of comics_dir comic_folder theme comic_info fmt tz local_time
                    auto publish_all) in *.
  apply (mapM_Ok_fmap _ Skipped) in Hos as [Hall ->].
  set (g := λ p, result_default Skipped (outcome p)) in *.
  assert (Hos' : mapM outcome pages' = Ok (g <$> pages')).
  { apply (mapM_Ok_fmap _ Skipped). split; [by rewrite Hperm | done]. }
  rewrite Hos'. simpl.
  assert (Hrecs : published_records (g <$> pages') ≡ₚ published_records (g <$> pages)).
  { unfold published_records. by rewrite Hperm. }
  apply sorted_pages_inv in Hsorted as (keyed & Hk & Hk2 & ->).
  destruct (keyed_by_remap fmt keyed Hk) as [Hremap Hkeys]. rewrite Hk2 in Hremap, Hkeys.
  set (F := λ x : dict, k ← sort_key fmt x; Ok (k, x)) in *.
  set (dd := (sample_struct_time 0, "", (∅ : dict))).
  apply (mapM_Ok_fmap _ dd) in Hremap as [Hkall Hkeyed].
  assert (Hremap' : mapM F (published_records (g <$> pages'))
                    = Ok ((λ x, result_default dd (F x)) <$> published_records (g <$> pages'))).
  { apply (mapM_Ok_fmap _ dd). split; [by rewrite Hrecs | done]. }
  unfold sorted_pages. fold F. rewrite Hremap'. simpl.
  assert (Hsame : sort_by key_ltb
                    ((λ x, result_default dd (F x)) <$> published_records (g <$> pages'))
                  = sort_by key_ltb keyed).
  { apply (sort_by_perm_unique key_ltb).
    - by rewrite Hkeyed, Hrecs.
    - rewrite Hrecs, <- Hkeyed.
      apply (NoDup_fmap_1 snd). rewrite (keys_names _ _ _ _ Hkeys Hnames).
      by eapply sublist_NoDup. }
  rewrite Hsame.
  exists (if delete_scheduled then scheduled_paths comics_dir pages' (g <$> pages') else []).
  split.
  - do 3 f_equal. unfold scheduled_count. f_equal. apply Permutation_length.
    by rewrite Hperm.
  - destruct delete_scheduled; [|done]. rewrite !scheduled_paths_omap. by rewrite Hperm.
Qed.

Lemma get_page_info_list_ignores_listing_order_witness :
  @no_page_hook sample_collaborators ∧
  NoDup (dir_name <$> sample_pages) ∧
  reverse sample_pages ≡ₚ sample_pages ∧
  @get_page_info_list sample_collaborators "content/comics/" sample_pages sample_now
    "" sample_comic_info true false = Ok (sample_sorted, 1, ["content/comics/later/"]) ∧
  ∃ deleted',
    @get_page_info_list sample_collaborators "content/comics/" (reverse sample_pages)
      sample_now "" sample_comic_info true false = Ok (sample_sorted, 1, deleted').
Proof.
  assert (H1 : @no_page_hook sample_collaborators).
  { intros theme folder ci path d. reflexivity. }
  assert (H2 : NoDup (dir_name <$> sample_pages)).
  { vm_compute. repeat constructor; set_solver. }
  assert (H3 : reverse sample_pages ≡ₚ sample_pages) by apply reverse_Permutation.
  assert (H4 : @get_page_info_list sample_collaborators "content/comics/" sample_pages
                 sample_now "" sample_comic_info true false
               = Ok (sample_sorted, 1, ["content/comics/later/"])) by (vm_compute; reflexivity).
  repeat (split; [assumption|]).
  destruct (@get_page_info_list_ignores_listing_order sample_collaborators _ _ _ _ _ _ _ _
              _ _ _ H1 H2 H3 H4) as (deleted' & Hrun & _).
  exists deleted'. exact Hrun.
Defined.

(** ** PageScanner: the image file of a page *)

Lemma filter_unique {A} (P : A → Prop) `{∀ x, Decision (P x)} (l : list A) (x : A) :
  NoDup l → x ∈ l → P x → (∀ y, y ∈ l → P y → y = x) → filter P l = [x].
Proof.
  induction l as [|a l IH]; intros Hnd Hx HP Huniq; [by apply elem_of_nil in Hx|].
  apply NoDup_cons in Hnd as [Ha Hnd].
  destruct (decide (P a)) as [HPa|HPa].
  - assert (a = x) as -> by (apply Huniq; [by left | done]).
    rewrite filter_cons_True by done. f_equal.
    apply elem_of_nil_inv. intros y [HPy Hy]%list_elem_of_filter.
    assert (y = x) by (apply Huniq; [by right | done]). by subst.
  - rewrite filter_cons_False by done.
    apply elem_of_cons in Hx as [->|Hx]; [done|].
    apply IH; [done..|]. intros y Hy. apply Huniq. by right.
Qed.

Section ImageFile.
Context `{Collaborators}.
Context (comics_dir comic_folder theme : string) (comic_info : config).

(** X9.  With auto-detection on, a page whose [info.ini] names no image
    and whose directory holds exactly one image file besides
    [thumbnail.jpg] is published exactly as if that file had been written as
    its [Filename]; the order in which [os.listdir] lists the directory does
    not matter. *)
Theorem auto_detected_filename (p : page_dir) (info : gmap string string)
    (image : string) (auto_detect : bool) :
  default "" (info !! "Filename") = "" →
  NoDup (dir_listing p) →
  image ∈ dir_listing p → image ≠ "thumbnail.jpg" → is_image_file image = true →
  (∀ filename, filename ∈ dir_listing p → is_image_file filename = true →
     filename = image ∨ filename = "thumbnail.jpg") →
  publish_page comics_dir comic_folder theme comic_info true p info =
  publish_page comics_dir comic_folder theme comic_info auto_detect p
    (<["Filename" := image]> info).
Proof.
  intros Hempty Hnd Hin Hthumb Himage Honly. unfold publish_page.
  rewrite bool_decide_eq_true_2 by done. cbn [negb].
  assert (Hdetect : detect_image_files (dir_listing p) = [image]).
  { unfold detect_image_files. apply filter_unique; [done..| |].
    - split; [done | by rewrite Himage].
    - intros y Hy [Hyt Hyi]. destruct (Honly y Hy) as [?|?]; [|done..].
      by destruct (is_image_file y). }
  rewrite Hdetect.
  assert (image ≠ "") by (intros ->; done).
  rewrite lookup_insert_eq. cbn [default]. by rewrite bool_decide_eq_false_2.
Qed.

End ImageFile.

Section MissingImage.
Context `{Collaborators}.
Context (comics_dir : string) (local_time : Z) (comic_folder : string) (comic_info : config).

(** X8.  A page that is due (or published because everything is) and
    names no image stops the whole run, once the pages listed before it have
    been scanned without error: with auto-detection off the run raises the
    error that asks for a filename in the page's [info.ini]; with
    auto-detection on and not exactly one candidate in the directory it
    raises the error that lists the candidates found. *)
Theorem page_without_image_stops_the_run (before after : list page_dir) (p : page_dir)
    (delete_scheduled publish_all auto_detect : bool)
    (date_format tz_name theme : string) (tz_info : tzinfo)
    (outcomes : list page_outcome) (info : gmap string string) (text : string)
    (dt : datetime) (post_date : Z) :
  cfg_get comic_info "Comic Settings" "Date format" = Ok date_format →
  cfg_get comic_info "Comic Settings" "Timezone" = Ok tz_name →
  timezone tz_name = Ok tz_info →
  get_option_bool comic_info "Comic Settings" "Auto-detect comic images" false
    = Ok auto_detect →
  get_option comic_info "Comic Settings" "Theme" "default" = Ok theme →
  mapM (outcome_of comics_dir comic_folder theme comic_info date_format tz_info local_time
          auto_detect publish_all) before = Ok outcomes →
  info_ini p = Some (Ok info) →
  info !! "Post date" = Some text →
  datetime_strptime text date_format = Ok dt →
  localize tz_info dt = Ok post_date →
  post_date ≤ local_time ∨ publish_all = true →
  default "" (info !! "Filename") = "" →
  auto_detect = false ∨ length (detect_image_files (dir_listing p)) ≠ 1%nat →
  get_page_info_list comics_dir (before ++ p :: after) local_time comic_folder comic_info
    delete_scheduled publish_all =
  Raise (if auto_detect
         then AmbiguousImage (comics_dir +:+ dir_name p +:+ "/")
                (detect_image_files (dir_listing p))
         else MissingImageFilename (comics_dir +:+ dir_name p +:+ "/")).
Proof.
  intros H1 H2 H3 H4 H5 Hbefore Hini Hdate Hdt Hloc Hdue Hempty Hnone.
  rewrite (get_page_info_list_outcomes _ _ _ _ _ _ _ _ _ _ _ _ H1 H2 H3 H4 H5).
  rewrite mapM_app_result, Hbefore. cbn [mbind result_bind mapM].
  assert (Hp : outcome_of comics_dir comic_folder theme comic_info date_format tz_info
                 local_time auto_detect publish_all p
             = Raise (if auto_detect
                      then AmbiguousImage (comics_dir +:+ dir_name p +:+ "/")
                             (detect_image_files (dir_listing p))
                      else MissingImageFilename (comics_dir +:+ dir_name p +:+ "/"))).
  { unfold outcome_of. rewrite Hini. cbn. rewrite Hdate. cbn. rewrite Hdt. cbn.
    rewrite Hloc. cbn.
    assert (Hnow : (local_time <? post_date) && negb publish_all = false).
    { destruct Hdue as [Hle| ->]; [|by rewrite andb_false_r].
      destruct (Z.ltb_spec local_time post_date); [lia|done]. }
    rewrite Hnow. unfold publish_page. rewrite bool_decide_eq_true_2 by done.
    destruct auto_detect; cbn [negb]; [|done].
    destruct Hnone as [?|Hlen]; [done|].
    by destruct (detect_image_files (dir_listing p)) as [|a [|b rest]]. }
  rewrite Hp. done.
Qed.

End MissingImage.

(** X10.  [get_ids] is defined at every position of the list that
    [get_page_info_list] returns, as [build_comic_data_dicts] calls it: when
    the theme's hook leaves the page name alone, the five identifiers exist,
    each is the name of a scanned directory, and [current_id] is the page
    name of the record at that position. *)
Theorem get_ids_defined_on_scanned_pages `{Collaborators} (comics_dir : string)
    (pages : list page_dir) (local_time : Z) (comic_folder : string) (comic_info : config)
    (delete_scheduled publish_all : bool) (l : list dict) (n : Z) (deleted : list string)
    (index : Z) :
  hook_keeps_page_name →
  get_page_info_list comics_dir pages local_time comic_folder comic_info
    delete_scheduled publish_all = Ok (l, n, deleted) →
  0 ≤ index < Z.of_nat (length l) →
  ∃ ids, get_ids l index = Ok ids ∧
    page_name_of l (Z.to_nat index) = Some (current_id ids) ∧
    Forall (λ v, ∃ p, p ∈ pages ∧ v = VStr (dir_name p))
      [first_id ids; previous_id ids; current_id ids; next_id ids; last_id ids].
Proof.
  intros Hhook Hrun Hi.
  apply get_page_info_list_inv in Hrun
    as (fmt & tzn & tz & auto & theme & os & _ & _ & _ & _ & _ & Hos & Hsorted & _ & _).
  destruct (sorted_pages_spec fmt _ _ Hsorted) as (_ & _ & _ & _ & _ & _ & Hperm & _).
  assert (Hnames : Forall (λ r : dict, ∃ p, p ∈ pages ∧ r !! "page_name" = Some (VStr (dir_name p))) l).
  { rewrite Hperm. apply (mapM_Ok_fmap _ Skipped) in Hos as [Hall ->].
    apply Forall_forall. intros r Hr. unfold published_records in Hr.
    apply list_elem_of_omap in Hr as (o & Ho & Hpub).
    destruct o as [| |r']; try done. injection Hpub as ->.
    apply list_elem_of_fmap in Ho as (p & Ho & Hp).
    rewrite Forall_forall in Hall. destruct (Hall p Hp) as [o' Ho'].
    rewrite Ho' in Ho. simpl in Ho. subst o'.
    exists p. split; [done|]. by eapply outcome_published_name. }
  assert (Hall : Forall (λ page : dict, is_Some (page !! "page_name")) l).
  { eapply Forall_impl; [exact Hnames|]. intros r (p & _ & ->). eauto. }
  assert (Hstr : ∀ j v, page_name_of l j = Some v → ∃ p, p ∈ pages ∧ v = VStr (dir_name p)).
  { intros j v. unfold page_name_of. destruct (l !! j) as [r|] eqn:Hr; [|done]. simpl.
    rewrite Forall_lookup in Hnames. destruct (Hnames _ _ Hr) as (p & Hp & Hn).
    rewrite Hn. intros [= <-]. eauto. }
  remember (Z.of_nat (length l)) as len eqn:Hlen.
  destruct (page_name_at_in_range l 0) as (vf & Hf & Ef); [lia|done|].
  destruct (page_name_at_in_range l (Z.max 0 (index - 1))) as (vp & Hp & Ep); [lia|done|].
  destruct (page_name_at_in_range l index) as (vc & Hc & Ec); [lia|done|].
  destruct (page_name_at_in_range l (Z.min (len - 1) (index + 1))) as (vn & Hn & En);
    [lia|done|].
  destruct (page_name_at_in_range l (len - 1)) as (vl & Hl & El); [lia|done|].
  assert (El' : page_name_at l (-1) = Ok vl).
  { unfold page_name_at in *. rewrite list_getitem_last, <- Hlen; [done|].
    intros ->. simpl in *. lia. }
  exists {| first_id := vf; previous_id := vp; current_id := vc; next_id := vn; last_id := vl |}.
  split.
  { unfold get_ids. rewrite <- Hlen. rewrite Ef, Ep, Ec, En, El'. reflexivity. }
  split; [done|]. cbn. repeat constructor; eauto.
Qed.

Lemma auto_detected_filename_witness :
  default "" (sample_info_no_image !! "Filename") = "" ∧
  NoDup (dir_listing sample_page_no_image) ∧
  "c.png" ∈ dir_listing sample_page_no_image ∧
  "c.png" ≠ "thumbnail.jpg" ∧
  is_image_file "c.png" = true ∧
  (∀ filename, filename ∈ dir_listing sample_page_no_image →
     is_image_file filename = true → filename = "c.png" ∨ filename = "thumbnail.jpg") ∧
  @publish_page sample_collaborators "content/comics/" "" "default" sample_comic_info true
    sample_page_no_image sample_info_no_image =
  @publish_page sample_collaborators "content/comics/" "" "default" sample_comic_info false
    sample_page_no_image (<["Filename" := "c.png"]> sample_info_no_image).
Proof.
  assert (H1 : default "" (sample_info_no_image !! "Filename") = "") by reflexivity.
  assert (H2 : NoDup (dir_listing sample_page_no_image)).
  { simpl. repeat constructor; set_solver. }
  assert (H3 : "c.png" ∈ dir_listing sample_page_no_image) by (simpl; set_solver).
  assert (H4 : "c.png" ≠ "thumbnail.jpg") by discriminate.
  assert (H5 : is_image_file "c.png" = true) by reflexivity.
  assert (H6 : ∀ filename, filename ∈ dir_listing sample_page_no_image →
                 is_image_file filename = true →
                 filename = "c.png" ∨ filename = "thumbnail.jpg").
  { simpl. intros filename Hin Himage.
    repeat (apply elem_of_cons in Hin as [->|Hin]; [tauto || discriminate|]).
    by apply elem_of_nil in Hin. }
  repeat (split; [assumption|]).
  exact (@auto_detected_filename sample_collaborators "content/comics/" "" "default"
           sample_comic_info sample_page_no_image sample_info_no_image "c.png" false
           H1 H2 H3 H4 H5 H6).
Defined.

Lemma page_without_image_stops_the_run_witness :
  cfg_get sample_comic_info "Comic Settings" "Date format" = Ok "%Y%m%d" ∧
  cfg_get sample_comic_info "Comic Settings" "Timezone" = Ok "UTC" ∧
  @timezone sample_collaborators "UTC" = Ok () ∧
  get_option_bool sample_comic_info "Comic Settings" "Auto-detect comic images" false
    = Ok false ∧
  get_option sample_comic_info "Comic Settings" "Theme" "default" = Ok "default" ∧
  is_Ok (mapM (@outcome_of sample_collaborators "content/comics/" "" "default"
                 sample_comic_info "%Y%m%d" () sample_now false false)
           [sample_page "a" "20240105"]) ∧
  info_ini sample_page_no_image = Some (Ok sample_info_no_image) ∧
  sample_info_no_image !! "Post date" = Some "20240110" ∧
  @datetime_strptime sample_collaborators "20240110" "%Y%m%d" = Ok 20240110 ∧
  @localize sample_collaborators () 20240110 = Ok 20240110 ∧
  (20240110 ≤ sample_now ∨ false = true) ∧
  default "" (sample_info_no_image !! "Filename") = "" ∧
  (false = false ∨ length (detect_image_files (dir_listing sample_page_no_image)) ≠ 1%nat) ∧
  @get_page_info_list sample_collaborators "content/comics/"
    ([sample_page "a" "20240105"] ++ sample_page_no_image :: [sample_page "b" "20240105"])
    sample_now "" sample_comic_info false false
  = Raise (MissingImageFilename "content/comics/c/").
Proof.
  assert (H1 : cfg_get sample_comic_info "Comic Settings" "Date format" = Ok "%Y%m%d")
    by reflexivity.
  assert (H2 : cfg_get sample_comic_info "Comic Settings" "Timezone" = Ok "UTC") by reflexivity.
  assert (H3 : @timezone sample_collaborators "UTC" = Ok ()) by reflexivity.
  assert (H4 : get_option_bool sample_comic_info "Comic Settings" "Auto-detect comic images"
                 false = Ok false) by reflexivity.
  assert (H5 : get_option sample_comic_info "Comic Settings" "Theme" "default" = Ok "default")
    by reflexivity.
  assert (H6 : is_Ok (mapM (@outcome_of sample_collaborators "content/comics/" "" "default"
                              sample_comic_info "%Y%m%d" () sample_now false false)
                        [sample_page "a" "20240105"])).
  { eexists. vm_compute. reflexivity. }
  assert (H7 : info_ini sample_page_no_image = Some (Ok sample_info_no_image)) by reflexivity.
  assert (H8 : sample_info_no_image !! "Post date" = Some "20240110") by reflexivity.
  assert (H9 : @datetime_strptime sample_collaborators "20240110" "%Y%m%d" = Ok 20240110)
    by reflexivity.
  assert (H10 : @localize sample_collaborators () 20240110 = Ok 20240110) by reflexivity.
  assert (H11 : 20240110 ≤ sample_now ∨ false = true) by (left; unfold sample_now; lia).
  assert (H12 : default "" (sample_info_no_image !! "Filename") = "") by reflexivity.
  assert (H13 : false = false
                ∨ length (detect_image_files (dir_listing sample_page_no_image)) ≠ 1%nat)
    by (left; reflexivity).
  repeat (split; [assumption|]).
  destruct H6 as [outcomes H6].
  exact (@page_without_image_stops_the_run sample_collaborators "content/comics/" sample_now
           "" sample_comic_info [sample_page "a" "20240105"] [sample_page "b" "20240105"]
           sample_page_no_image false false false "%Y%m%d" "UTC" "default" () outcomes
           sample_info_no_image "20240110" 20240110 20240110
           H1 H2 H3 H4 H5 H6 H7 H8 H9 H10 H11 H12 H13).
Defined.

Lemma get_ids_defined_on_scanned_pages_witness :
  @hook_keeps_page_name sample_collaborators ∧
  @get_page_info_list sample_collaborators "content/comics/" sample_pages sample_now
    "" sample_comic_info true false = Ok (sample_sorted, 1, ["content/comics/later/"]) ∧
  0 ≤ 1 < Z.of_nat (length sample_sorted) ∧
  ∃ ids, get_ids sample_sorted 1 = Ok ids ∧
         page_name_of sample_sorted (Z.to_nat 1) = Some (current_id ids).
Proof.
  assert (H1 : @hook_keeps_page_name sample_collaborators).
  { intros theme folder ci path d hooked [= <-]. reflexivity. }
  assert (H2 : @get_page_info_list sample_collaborators "content/comics/" sample_pages
                 sample_now "" sample_comic_info true false
               = Ok (sample_sorted, 1, ["content/comics/later/"])) by (vm_compute; reflexivity).
  assert (H3 : 0 ≤ 1 < Z.of_nat (length sample_sorted)).
  { assert (Hlen : length sample_sorted = 2%nat) by (vm_compute; reflexivity).
    rewrite Hlen. simpl. lia. }
  repeat (split; [assumption|]).
  destruct (@get_ids_defined_on_scanned_pages sample_collaborators _ _ _ _ _ _ _ _ _ _ 1
              H1 H2 H3) as (ids & Hids & Hcur & _).
  exists ids. split; [exact Hids | exact Hcur].
Defined.

(** ** GroupIndexer: every record is filed once *)

Lemma index_entry_lookup (idx : index) (label : string) (bucket : list loc) :
  NoDup idx.*1 → (label, bucket) ∈ idx → index_lookup label idx = Some bucket.
Proof.
  induction idx as [|[k b] idx IH]; intros Hnd Hin; [by apply elem_of_nil in Hin|].
  rewrite fmap_cons in Hnd. apply NoDup_cons in Hnd as [Hk Hnd].
  apply elem_of_cons in Hin as [[= -> ->]|Hin]; simpl.
  - by rewrite bool_decide_eq_true_2.
  - rewrite bool_decide_eq_false_2; [by apply IH|].
    intros ->. apply Hk. by apply (list_elem_of_fmap_2 fst) in Hin.
Qed.

(** The elements that have a key, grouped by key, are those elements. *)
Lemma concat_filter_partition {A K} `{EqDecision K} (f : A → option K) (l : list A)
    (ks : list K) :
  NoDup ks → (∀ x k, x ∈ l → f x = Some k → k ∈ ks) →
  concat ((λ k, filter (λ x, f x = Some k) l) <$> ks) ≡ₚ filter (λ x, is_Some (f x)) l.
Proof.
  intros Hnd. induction l as [|x l IH]; intros Hcover.
  - clear. induction ks as [|k ks IH]; [done|]. by rewrite fmap_cons.
  - assert (IH' := IH (λ y k Hy, Hcover y k (list_elem_of_further _ _ _ Hy))). clear IH.
    destruct (f x) as [k0|] eqn:Hx.
    + rewrite (filter_cons_True (λ x, is_Some (f x))) by (rewrite Hx; eauto).
      rewrite <- IH'.
      assert (Hk0 : k0 ∈ ks) by (apply (Hcover x); [by left | done]).
      apply list_elem_of_split in Hk0 as (ks1 & ks2 & ->).
      apply NoDup_app in Hnd as (_ & Hd & [Hk2 _]%NoDup_cons).
      rewrite !fmap_app, !fmap_cons, !concat_app, !concat_cons.
      rewrite filter_cons_True by done.
      assert (Hskip : ∀ ks' : list K, k0 ∉ ks' →
                (λ k, filter (λ y, f y = Some k) (x :: l)) <$> ks'
                = (λ k, filter (λ y, f y = Some k) l) <$> ks').
      { intros ks' Hk. apply list_fmap_ext. intros i k Hi.
        rewrite filter_cons_False; [done|]. rewrite Hx. intros [= ->].
        apply Hk. by eapply list_elem_of_lookup_2. }
      rewrite (Hskip ks1) by (intros Hin; by apply (Hd k0 Hin); left).
      rewrite (Hskip ks2) by done.
      rewrite <- app_comm_cons. symmetry. apply Permutation_middle.
    + rewrite (filter_cons_False (λ x, is_Some (f x))) by (rewrite Hx; by intros [? ?]).
      rewrite <- IH'.
      rewrite (list_fmap_ext _ (λ k, filter (λ y, f y = Some k) l) ks); [done|].
      intros i k Hi. rewrite filter_cons_False; [done|]. by rewrite Hx.
Qed.

Lemma fmap_concat {A B} (f : A → B) (ls : list (list A)) :
  f <$> concat ls = concat ((λ l : list A, f <$> l) <$> ls).
Proof.
  induction ls as [|l ls IH]; [done|]. by rewrite fmap_cons, !concat_cons, fmap_app, IH.
Qed.

Lemma index_buckets_by_key (idx : index) :
  NoDup idx.*1 → idx.*2 = (λ k, default [] (index_lookup k idx)) <$> idx.*1.
Proof.
  intros Hnd. apply list_eq. intros i. rewrite !list_lookup_fmap.
  destruct (idx !! i) as [[k b]|] eqn:Hi; [|done]. simpl.
  by rewrite (index_entry_lookup idx k b Hnd) by (by eapply list_elem_of_lookup_2).
Qed.

(** X11.  [get_storylines] files every record that has a label exactly
    once: the labels of the index are pairwise distinct, no bucket is empty,
    and the entries of all buckets taken together are, up to order, the
    entries of the records that have a label; a record without a label
    (an empty storyline with uncategorized display off) is in no bucket. *)
Theorem get_storylines_files_each_record_once (h : store) (records : list loc) (show : bool) :
  well_labelled h show records →
  ∃ h' idx, get_storylines h records show = Ok (h', idx) ∧
    NoDup idx.*1 ∧
    Forall (λ kv, kv.2 ≠ []) idx ∧
    contents h' (concat idx.*2) ≡ₚ
      contents h (filter (λ r, is_Some (record_label h show r)) records).
Proof.
  intros Hwl.
  destruct (get_storylines_spec h records show Hwl) as (h' & idx & Hrun & _ & Hkeys & Hb).
  exists h', idx. split; [done|].
  set (labels := omap (record_label h show) records) in *.
  assert (Hnd : NoDup idx.*1).
  { rewrite Hkeys. apply NoDup_app. split; [apply NoDup_filter, first_seen_NoDup|]. split.
    - intros k [Hk _]%list_elem_of_filter Hin. destruct (decide _); set_solver.
    - destruct (decide _); [apply NoDup_singleton | constructor]. }
  assert (Hin : ∀ k, k ∈ idx.*1 ↔ k ∈ labels).
  { intros k. rewrite Hkeys, elem_of_app, list_elem_of_filter, first_seen_elem.
    destruct (decide ("Uncategorized" ∈ labels)) as [Hu|Hu].
    - rewrite list_elem_of_singleton. destruct (decide (k = "Uncategorized")) as [->|]; tauto.
    - split; [intros [[_ ?]|?%elem_of_nil]; done|]. intros Hk. left. split; [|done].
      by intros ->. }
  assert (Hbucket : ∀ k, k ∈ idx.*1 →
            contents h' (default [] (index_lookup k idx))
            = contents h (records_labelled h show k records)).
  { intros k Hk. destruct (index_lookup_is_Some k idx Hk) as [b Hl].
    rewrite Hl. simpl. by apply Hb. }
  split; [done|]. split.
  { apply Forall_forall. intros [k b] Hkb. simpl. intros ->.
    assert (Hk : k ∈ idx.*1) by (by apply (list_elem_of_fmap_2 fst) in Hkb).
    specialize (Hbucket k Hk). rewrite (index_entry_lookup idx k [] Hnd Hkb) in Hbucket.
    simpl in Hbucket. symmetry in Hbucket. apply fmap_nil_inv in Hbucket.
    apply Hin in Hk. unfold labels in Hk. apply list_elem_of_omap in Hk as (r & Hr & Hlab).
    assert (r ∈ records_labelled h show k records) by (by apply list_elem_of_filter).
    rewrite Hbucket in *. by apply elem_of_nil in H. }
  rewrite (index_buckets_by_key idx Hnd). unfold contents.
  rewrite <- (concat_filter_partition (record_label h show) records idx.*1 Hnd).
  2: { intros r k Hr Hk. apply Hin. unfold labels. apply list_elem_of_omap. eauto. }
  rewrite !fmap_concat, <- !list_fmap_compose.
  match goal with |- concat ?a ≡ₚ concat ?b => assert (a = b) as ->; [|done] end.
  apply list_fmap_ext. intros i [k b] Hi. simpl.
  apply (Hbucket k). apply list_elem_of_lookup_2 in Hi.
  by apply (list_elem_of_fmap_2 fst) in Hi.
Qed.

Lemma get_storylines_files_each_record_once_witness :
  well_labelled sample_store false sample_records ∧
  ∃ h' idx, get_storylines sample_store sample_records false = Ok (h', idx) ∧
    NoDup idx.*1 ∧
    contents h' (concat idx.*2) ≡ₚ
      contents sample_store
        (filter (λ r, is_Some (record_label sample_store false r)) sample_records).
Proof.
  assert (H1 : well_labelled sample_store false sample_records).
  { intros r Hr. unfold sample_records in Hr.
    repeat (apply elem_of_cons in Hr as [->|Hr]; [by eexists|]).
    by apply elem_of_nil in Hr. }
  split; [exact H1|].
  destruct (get_storylines_files_each_record_once sample_store sample_records false H1)
    as (h' & idx & Hrun & Hnd & _ & Hperm).
  exists h', idx. split; [exact Hrun|]. split; [exact Hnd | exact Hperm].
Defined.

(** ** GroupIndexer: records that cannot be filed or rendered *)

Lemma for_each_app {A S} (body : S → A → result S) (l1 l2 : list A) (s : S) :
  for_each body (l1 ++ l2) s = (s' ← for_each body l1 s; for_each body l2 s').
Proof.
  revert s. induction l1 as [|x l1 IH]; intros s; [done|].
  simpl. destruct (body s x) as [s1|]; simpl; [apply IH | done].
Qed.

(** X12.  A record that lacks the key [storyline] makes [get_storylines]
    raise [KeyError] for that key, once the records before it have been
    filed. *)
Theorem get_storylines_needs_storyline (h : store) (before after : list loc) (r : loc)
    (d : dict) (show : bool) :
  well_labelled h show before →
  h !! r = Some d → d !! "storyline" = None →
  get_storylines h (before ++ r :: after) show = Raise (KeyError "storyline").
Proof.
  intros Hwl Hr Hd.
  destruct (for_each_total (storylines_step show) (storylines_inv h show) before (h, []))
    as ([h1 idx1] & Hrun & Ha & _).
  { split; [done|]. split; [done|]. by intros ??. }
  { intros visited x st Hx Hinv. apply storylines_step_inv; [by apply Hwl | done]. }
  simpl in Ha.
  unfold get_storylines. rewrite for_each_app, Hrun. cbn [mbind result_bind for_each].
  unfold storylines_step, deref. rewrite (Ha r d Hr). cbn [mbind result_bind].
  unfold storyline_label, getitem. rewrite Hd. done.
Qed.

(** The loop of [write_html_files], from any store and any pages already
    written. *)
Lemma write_html_files_loop (global_values : dict) (records : list loc) (h : store)
    (written0 : list comic_write) :
  NoDup records →
  (∀ r, r ∈ records → ∃ d, h !! r = Some d ∧ is_Some (d !! "page_name")) →
  ∃ h' written,
    for_each (write_html_files_step global_values) records (h, written0)
      = Ok (h', written0 ++ written) ∧
    (∀ e, e ∉ records → h' !! e = h !! e) ∧
    Forall2 (λ r w, ∃ d, h !! r = Some d ∧ h' !! r = Some (cw_data w) ∧
                         d !! "page_name" = Some (cw_page_name w) ∧
                         cw_data w = dict_update d global_values)
            records written.
Proof.
  revert h written0. induction records as [|r records IH]; intros h written0 Hnd Hrec.
  - exists h, []. rewrite app_nil_r. split; [done|]. split; [done | constructor].
  - apply NoDup_cons in Hnd as [Hr Hnd].
    destruct (Hrec r) as (d & Hd & [name Hname]); [by left|].
    cbn [for_each write_html_files_step]. unfold deref, getitem. rewrite Hd. cbn.
    rewrite Hname. cbn.
    set (w := {| cw_page_name := name; cw_data := dict_update d global_values |}).
    destruct (IH (<[r := dict_update d global_values]> h) (written0 ++ [w]) Hnd)
      as (h' & written & Hrun & Hout & Hall).
    { intros r' Hr'. rewrite lookup_insert_ne by (by intros ->).
      apply Hrec. by right. }
    exists h', (w :: written). split; [by rewrite Hrun, <- app_assoc|]. split.
    + intros e He. rewrite Hout by set_solver. rewrite lookup_insert_ne; [done|]. set_solver.
    + constructor.
      * exists d. split; [done|]. split; [|done]. rewrite Hout by done.
        by rewrite lookup_insert_eq.
      * assert (Hne : Forall (λ r', r' ≠ r) records).
        { apply Forall_forall. by intros r' ? ->. }
        clear -Hall Hne. induction Hall as [|r' w' records written Hrw _ IH]; [constructor|].
        apply Forall_cons in Hne as [Hr' Hne]. constructor; [|by apply IH].
        destruct Hrw as (d' & Hd' & Hrest). exists d'.
        by rewrite lookup_insert_ne in Hd'.
Qed.

Lemma get_storylines_needs_storyline_witness :
  well_labelled sample_store_unlabelled true [1; 2]%positive ∧
  sample_store_unlabelled !! 5%positive = Some {[ "page_name" := VStr "p5" ]} ∧
  ({[ "page_name" := VStr "p5" ]} : dict) !! "storyline" = None ∧
  get_storylines sample_store_unlabelled
    ([1%positive; 2%positive] ++ 5%positive :: [3%positive; 4%positive]) true
    = Raise (KeyError "storyline").
Proof.
  assert (H1 : well_labelled sample_store_unlabelled true [1; 2]%positive).
  { intros r Hr.
    repeat (apply elem_of_cons in Hr as [->|Hr]; [by eexists|]).
    by apply elem_of_nil in Hr. }
  assert (H2 : sample_store_unlabelled !! 5%positive = Some {[ "page_name" := VStr "p5" ]})
    by reflexivity.
  assert (H3 : ({[ "page_name" := VStr "p5" ]} : dict) !! "storyline" = None) by reflexivity.
  repeat (split; [assumption|]).
  exact (get_storylines_needs_storyline sample_store_unlabelled [1; 2]%positive
           [3; 4]%positive 5%positive _ true H1 H2 H3).
Defined.

(** X14.  On distinct records that carry a page name, the loop of
    [write_html_files] renders one page per record, in order: the path is
    made from the page name the record had before the global values were
    merged into it, the template receives the record itself as the store
    then has it, and in that dictionary a global value wins over the
    record's own entry of the same key. *)
Theorem write_html_files_renders_each_record (h : store) (records : list loc)
    (global_values : dict) :
  NoDup records →
  (∀ r, r ∈ records → ∃ d, h !! r = Some d ∧ is_Some (d !! "page_name")) →
  ∃ h' written,
    write_html_files h records global_values = Ok (h', written) ∧
    Forall2 (λ r w, ∃ d, h !! r = Some d ∧
                         d !! "page_name" = Some (cw_page_name w) ∧
                         h' !! r = Some (cw_data w) ∧
                         ∀ k, cw_data w !! k =
                              match global_values !! k with
                              | Some v => Some v
                              | None => d !! k
                              end)
            records written.
Proof.
  intros Hnd Hrec.
  destruct (write_html_files_loop global_values records h [] Hnd Hrec)
    as (h' & written & Hrun & _ & Hall).
  exists h', written. split; [done|].
  eapply Forall2_impl; [exact Hall|]. intros r w (d & Hd & Hh & Hn & Hw).
  exists d. repeat split; try done. intros k. rewrite Hw. unfold dict_update.
  rewrite lookup_union. by destruct (global_values !! k), (d !! k).
Qed.

Lemma tagged_refs_elem (h : store) (label : string) (pages : list loc) (r : loc) :
  r ∈ tagged_refs h label pages → r ∈ pages ∧ label ∈ tag_labels_of h r.
Proof.
  unfold tagged_refs. rewrite list_elem_of_In, in_flat_map.
  intros (page & Hpage%list_elem_of_In & Hr%list_elem_of_In).
  apply elem_of_replicate in Hr as [-> Hocc]. split; [done|].
  unfold occurrences in Hocc.
  destruct (filter (λ l, l = label) (tag_labels_of h page)) as [|l ls] eqn:Hf; [done|].
  assert (Hl : l ∈ filter (λ l, l = label) (tag_labels_of h page)) by (rewrite Hf; by left).
  by apply list_elem_of_filter in Hl as [-> ?].
Qed.

(** X13.  The tagged pages, which are built after the comic pages, list the
    records themselves and not copies: each label is rendered once, every
    page listed under a label is one of the records and carries that label,
    and the store holds for it the record with the global values merged in,
    as [write_html_files] left it. *)
Theorem tagged_pages_hold_the_rendered_records (h : store) (records : list loc)
    (global_values : dict) :
  (∀ r, r ∈ records →
     ∃ d, h !! r = Some d ∧ is_Some (d !! "page_name") ∧
          taggable (dict_update d global_values)) →
  ∃ h2 written tagged,
    write_html_files h records global_values = Ok (h2, written) ∧
    write_tagged_pages h2 records global_values = Ok tagged ∧
    NoDup (tw_tag <$> tagged) ∧
    ∀ tw r, tw ∈ tagged → r ∈ tw_tagged_pages tw →
      r ∈ records ∧ tw_tag tw ∈ tag_labels_of h2 r ∧
      ∃ d, h !! r = Some d ∧ h2 !! r = Some (dict_update d global_values).
Proof.
  intros Hrec.
  destruct (write_html_files_spec h records global_values) as (h2 & written & Hw & _ & Hin).
  { intros r Hr. destruct (Hrec r Hr) as (d & Hd & Hn & _). eauto. }
  assert (Hlabels : ∀ p, p ∈ records → is_Ok (tag_labels h2 p)).
  { intros p Hp. destruct (Hrec p Hp) as (d & Hd & _ & [c Hc] & [t Ht]).
    unfold tag_labels, deref. rewrite (Hin p d Hp Hd). simpl. rewrite Hc. simpl.
    rewrite Ht. simpl. by eexists. }
  destruct (tag_index_spec h2 records Hlabels) as (tags & Htags & Hkeys & Hlk).
  exists h2, written. unfold write_tagged_pages. rewrite Htags. simpl.
  case_bool_decide as Hnil.
  { exists []. split; [done|]. split; [done|]. split; [constructor|].
    intros tw r Htw. by apply elem_of_nil in Htw. }
  eexists. split; [done|]. split; [done|].
  assert (Hnd : NoDup tags.*1) by (rewrite Hkeys; apply first_seen_NoDup).
  split.
  { change (map ?f tags) with (f <$> tags). by rewrite <- list_fmap_compose. }
  intros tw r Htw Hr. change (map ?f tags) with (f <$> tags) in Htw.
  apply list_elem_of_fmap in Htw as ([k b] & -> & Hkb). simpl in Hr |- *.
  pose proof (index_entry_lookup tags k b Hnd Hkb) as Hb. rewrite Hlk in Hb.
  destruct (decide _); [|done]. injection Hb as <-.
  apply tagged_refs_elem in Hr as [Hr Hk]. split; [done|]. split; [done|].
  destruct (Hrec r Hr) as (d & Hd & _). exists d. split; [done|]. by apply Hin.
Qed.

Lemma write_html_files_renders_each_record_witness :
  NoDup sample_records ∧
  (∀ r, r ∈ sample_records → ∃ d, sample_store !! r = Some d ∧ is_Some (d !! "page_name")) ∧
  ∃ h' written,
    write_html_files sample_store sample_records {["version" := VStr "0.3.8"]}
      = Ok (h', written) ∧
    length written = length sample_records.
Proof.
  assert (H1 : NoDup sample_records).
  { unfold sample_records. repeat constructor; set_solver. }
  assert (H2 : ∀ r, r ∈ sample_records →
                 ∃ d, sample_store !! r = Some d ∧ is_Some (d !! "page_name")).
  { intros r Hr. unfold sample_records in Hr.
    repeat (apply elem_of_cons in Hr as [->|Hr];
            [eexists; split; [reflexivity | by eexists]|]).
    by apply elem_of_nil in Hr. }
  repeat (split; [assumption|]).
  destruct (write_html_files_renders_each_record sample_store sample_records
              {["version" := VStr "0.3.8"]} H1 H2) as (h' & written & Hrun & Hall).
  exists h', written. split; [exact Hrun|]. symmetry. exact (Forall2_length _ _ _ Hall).
Defined.

Lemma tagged_pages_hold_the_rendered_records_witness :
  (∀ r, r ∈ sample_records →
     ∃ d, sample_store !! r = Some d ∧ is_Some (d !! "page_name") ∧
          taggable (dict_update d {["version" := VStr "0.3.8"]})) ∧
  ∃ h2 written tagged,
    write_html_files sample_store sample_records {["version" := VStr "0.3.8"]}
      = Ok (h2, written) ∧
    write_tagged_pages h2 sample_records {["version" := VStr "0.3.8"]} = Ok tagged ∧
    NoDup (tw_tag <$> tagged).
Proof.
  assert (H1 : ∀ r, r ∈ sample_records →
                 ∃ d, sample_store !! r = Some d ∧ is_Some (d !! "page_name") ∧
                      taggable (dict_update d {["version" := VStr "0.3.8"]})).
  { intros r Hr. unfold sample_records in Hr.
    repeat (apply elem_of_cons in Hr as [->|Hr];
            [eexists; split; [reflexivity|]; split; [by eexists|];
             split; eexists; vm_compute; reflexivity|]).
    by apply elem_of_nil in Hr. }
  split; [exact H1|].
  destruct (tagged_pages_hold_the_rendered_records sample_store sample_records
              {["version" := VStr "0.3.8"]} H1) as (h2 & written & tagged & Hw & Ht & Hnd & _).
  exists h2, written, tagged. split; [exact Hw|]. split; [exact Ht | exact Hnd].
Defined.

(** ** ConfigResolver: what a satellite inherits *)

Lemma get_extra_comic_info_result (h : config_store) (comic_info : loc)
    (main extra : config) (file : option (result config)) :
  h !! comic_info = Some main →
  file_config file = Ok extra →
  has_section main "Pages" = true →
  (has_section extra "Links Bar" = true → has_section main "Links Bar" = true) →
  let kept :=
    if has_section extra "Links Bar"
    then delete "Links Bar" (delete "Pages" (cfg_sections main))
    else delete "Pages" (cfg_sections main) in
  let derived := fresh (dom h) in
  get_extra_comic_info h comic_info file =
    Ok (<[derived :=
            read_into {| cfg_defaults := cfg_defaults main; cfg_sections := kept |} extra]> h,
        derived).
Proof.
  intros Hm Hfile Hpages Hlinks kept derived. subst kept.
  unfold get_extra_comic_info, deepcopy, modify. rewrite Hm. simpl. fold derived.
  rewrite lookup_insert_eq, (del_section_present main "Pages") by done. simpl.
  unfold file_config in Hfile. rewrite Hfile. simpl.
  destruct (has_section extra "Links Bar") eqn:Hl.
  - rewrite lookup_insert_eq. rewrite del_section_present; [|done|].
    + simpl. rewrite lookup_insert_eq. simpl. by rewrite !insert_insert_eq.
    + unfold has_section in *. simpl. rewrite lookup_delete_ne by done. by apply Hlinks.
  - simpl. rewrite lookup_insert_eq. simpl. by rewrite !insert_insert_eq.
Qed.

(** X16.  How a satellite comic resolves a setting outside [Pages] and
    [Links Bar]: [get_option] on the configuration that
    [get_extra_comic_info] returns finds, in this order, the satellite's own
    value in that section, the main site's value in that section, the
    satellite's default section, the main site's default section, and the
    caller's default; when neither file has the section it is the caller's
    default at once. *)
Theorem satellite_setting_precedence (h : config_store) (comic_info : loc)
    (main extra : config) (file : option (result config)) (section name dflt : string) :
  h !! comic_info = Some main →
  file_config file = Ok extra →
  has_section main "Pages" = true →
  (has_section extra "Links Bar" = true → has_section main "Links Bar" = true) →
  section ≠ "" → section ≠ DEFAULT_SECTION → section ≠ "Pages" → section ≠ "Links Bar" →
  ∃ h' derived c,
    get_extra_comic_info h comic_info file = Ok (h', derived) ∧
    h' !! derived = Some c ∧
    get_option c section name dflt =
      Ok (if has_section extra section || has_section main section
          then default dflt (section_option extra section name ∪
                             section_option main section name ∪
                             cfg_defaults extra !! name ∪ cfg_defaults main !! name)
          else dflt).
Proof.
  intros Hm Hfile Hpages Hlinks H1 H2 H3 H4.
  pose proof (get_extra_comic_info_result h comic_info main extra file Hm Hfile Hpages Hlinks)
    as Hrun. cbv zeta in Hrun.
  eexists _, _, _. split; [exact Hrun|]. split; [by rewrite lookup_insert_eq|].
  rewrite get_option_found by done. f_equal.
  unfold read_into. cbn [cfg_sections cfg_defaults].
  rewrite lookup_union_with.
  assert (Hkept : (if has_section extra "Links Bar"
                   then delete "Links Bar" (delete "Pages" (cfg_sections main))
                   else delete "Pages" (cfg_sections main)) !! section
                  = cfg_sections main !! section).
  { destruct (has_section extra "Links Bar"); by rewrite ?lookup_delete_ne by done. }
  rewrite Hkept. unfold has_section, section_option.
  rewrite lookup_union.
  destruct (cfg_sections extra !! section) as [es|], (cfg_sections main !! section) as [ms|];
    simpl;
    repeat (rewrite bool_decide_eq_true_2 by (by eexists));
    repeat (rewrite bool_decide_eq_false_2 by (by intros [? ?])); simpl; try done.
  - rewrite lookup_union.
    by destruct (es !! name), (ms !! name), (cfg_defaults extra !! name),
                (cfg_defaults main !! name).
  - by destruct (es !! name), (cfg_defaults extra !! name), (cfg_defaults main !! name).
  - by destruct (ms !! name), (cfg_defaults extra !! name), (cfg_defaults main !! name).
Qed.

(** X15.  When [get_extra_comic_info] raises: without a [Pages] section in
    the main configuration it raises [KeyError] for [Pages], whatever the
    satellite's file holds; with one, an error of parsing the satellite's
    file is passed on, and a satellite that defines a [Links Bar] while the
    main configuration has none raises [KeyError] for [Links Bar]. *)
Theorem get_extra_comic_info_missing_section (h : config_store) (comic_info : loc)
    (main : config) (file : option (result config)) :
  h !! comic_info = Some main →
  (has_section main "Pages" = false →
     get_extra_comic_info h comic_info file = Raise (KeyError "Pages")) ∧
  (has_section main "Pages" = true →
     (∀ e, file = Some (Raise e) → get_extra_comic_info h comic_info file = Raise e) ∧
     (∀ extra, file = Some (Ok extra) →
        has_section extra "Links Bar" = true → has_section main "Links Bar" = false →
        get_extra_comic_info h comic_info file = Raise (KeyError "Links Bar"))).
Proof.
  intros Hm. split; [by apply get_extra_comic_info_needs_pages|].
  intros Hpages.
  split.
  - intros e ->. unfold get_extra_comic_info, deepcopy, modify. rewrite Hm. simpl.
    rewrite lookup_insert_eq, (del_section_present main "Pages") by done. done.
  - intros extra -> He Hl. unfold get_extra_comic_info, deepcopy, modify. rewrite Hm. simpl.
    rewrite lookup_insert_eq, (del_section_present main "Pages") by done. simpl.
    rewrite He, lookup_insert_eq. unfold del_section.
    rewrite bool_decide_eq_false_2 by done.
    unfold has_section in *. simpl. rewrite lookup_delete_ne by done. by rewrite Hl.
Qed.

Lemma satellite_setting_precedence_witness :
  sample_config_store !! 1%positive = Some sample_main ∧
  file_config (Some (Ok sample_extra)) = Ok sample_extra ∧
  has_section sample_main "Pages" = true ∧
  (has_section sample_extra "Links Bar" = true → has_section sample_main "Links Bar" = true) ∧
  "Comic Settings" ≠ "" ∧ "Comic Settings" ≠ DEFAULT_SECTION ∧
  "Comic Settings" ≠ "Pages" ∧ "Comic Settings" ≠ "Links Bar" ∧
  ∃ h' derived c,
    get_extra_comic_info sample_config_store 1%positive (Some (Ok sample_extra))
      = Ok (h', derived) ∧
    h' !! derived = Some c ∧
    get_option c "Comic Settings" "Theme" "default" = Ok "dark" ∧
    get_option c "Comic Settings" "Date format" "%x" = Ok "%B %d, %Y".
Proof.
  assert (H1 : sample_config_store !! 1%positive = Some sample_main) by reflexivity.
  assert (H2 : file_config (Some (Ok sample_extra)) = Ok sample_extra) by reflexivity.
  assert (H3 : has_section sample_main "Pages" = true) by reflexivity.
  assert (H4 : has_section sample_extra "Links Bar" = true →
               has_section sample_main "Links Bar" = true) by (intros _; reflexivity).
  assert (H5 : "Comic Settings" ≠ "") by discriminate.
  assert (H6 : "Comic Settings" ≠ DEFAULT_SECTION) by discriminate.
  assert (H7 : "Comic Settings" ≠ "Pages") by discriminate.
  assert (H8 : "Comic Settings" ≠ "Links Bar") by discriminate.
  repeat (split; [assumption|]).
  destruct (satellite_setting_precedence sample_config_store 1%positive sample_main
              sample_extra (Some (Ok sample_extra)) "Comic Settings" "Theme" "default"
              H1 H2 H3 H4 H5 H6 H7 H8) as (h' & derived & c & Hrun & Hc & Htheme).
  destruct (satellite_setting_precedence sample_config_store 1%positive sample_main
              sample_extra (Some (Ok sample_extra)) "Comic Settings" "Date format" "%x"
              H1 H2 H3 H4 H5 H6 H7 H8) as (h'' & derived' & c' & Hrun' & Hc' & Hdate).
  rewrite Hrun in Hrun'. injection Hrun' as <- <-. rewrite Hc in Hc'. injection Hc' as <-.
  exists h', derived, c. split; [exact Hrun|]. split; [exact Hc|].
  split; [rewrite Htheme; reflexivity | rewrite Hdate; reflexivity].
Defined.

Lemma get_extra_comic_info_missing_section_witness :
  sample_config_store !! 1%positive = Some sample_main ∧
  has_section sample_main "Pages" = true ∧
  get_extra_comic_info sample_config_store 1%positive
    (Some (Raise (ExternalError "ParsingError" "comic_info.ini")))
  = Raise (ExternalError "ParsingError" "comic_info.ini").
Proof.
  assert (H1 : sample_config_store !! 1%positive = Some sample_main) by reflexivity.
  assert (H2 : has_section sample_main "Pages" = true) by reflexivity.
  repeat (split; [assumption|]).
  exact (proj1 (proj2 (get_extra_comic_info_missing_section sample_config_store 1%positive
                         sample_main _ H1) H2) _ eq_refl).
Defined.

(** ** ThumbnailProcessor: the number of commas *)

Lemma count_char_app c (s t : string) :
  count_char c (s +:+ t) = (count_char c s + count_char c t)%nat.
Proof.
  induction s as [|a s IH]; [done|]. rewrite str_app_cons. cbn [count_char]. rewrite IH. lia.
Qed.

Lemma count_char_rev c (s : string) : count_char c (String.rev s) = count_char c s.
Proof.
  induction s as [|a s IH]; [done|].
  rewrite rev_cons, count_char_app, IH. cbn [count_char]. lia.
Qed.

Lemma count_char_lstrip c drop (s : string) :
  drop c = false → count_char c (lstrip_with drop s) = count_char c s.
Proof.
  intros Hc. induction s as [|a s IH]; [done|]. cbn [lstrip_with].
  destruct (drop a) eqn:Ha; [|done]. rewrite IH. cbn [count_char].
  rewrite bool_decide_eq_false_2; [done|]. intros ->. congruence.
Qed.

Lemma count_char_strip c (s : string) :
  is_space c = false → count_char c (strip s) = count_char c s.
Proof.
  intros Hc. unfold strip, strip_with, rstrip_with.
  rewrite count_char_rev, count_char_lstrip by done.
  by rewrite count_char_rev, count_char_lstrip.
Qed.

Lemma split_on_length sep (s : string) :
  length (split_on sep s) = S (count_char sep s).
Proof.
  induction s as [|a s IH]; [done|]. cbn [split_on count_char].
  case_bool_decide; [simpl; by rewrite IH|].
  destruct (split_on sep s) as [|piece rest]; [done|]. simpl in *. lia.
Qed.

Lemma contains_char_count c (s : string) :
  contains_char c s = true ↔ (1 ≤ count_char c s)%nat.
Proof.
  induction s as [|a s IH]; [simpl; split; [done | lia]|].
  cbn [contains_char count_char]. case_bool_decide; simpl; [split; [lia | done]|].
  by rewrite IH.
Qed.

(** The arithmetic of [resize] raises no unpacking error. *)

Lemma no_unpack_bind {A B} (m : result A) (k : A → result B) :
  no_unpack m → (∀ a, no_unpack (k a)) → no_unpack (m ≫= k).
Proof. intros Hm Hk n. destruct m as [a|e]; simpl; [apply Hk|]. intros [= ->]. by eapply Hm. Qed.

Lemma no_unpack_Ok {A} (a : A) : no_unpack (Ok a).
Proof. by intros n. Qed.

Lemma no_unpack_int_of_str text : no_unpack (int_of_str text).
Proof. intros n. unfold int_of_str. by destruct (int_literal _). Qed.

Lemma no_unpack_float_of_str text : no_unpack (float_of_str text).
Proof. intros n. unfold float_of_str. by destruct (float_literal _). Qed.

Lemma no_unpack_float_of_int k : no_unpack (float_of_int k).
Proof. intros n. unfold float_of_int. by destruct (binary_normalize _ _ _ _ _). Qed.

Lemma no_unpack_int_of_float x : no_unpack (int_of_float x).
Proof. intros n. by destruct x. Qed.

Lemma no_unpack_int_truediv a b : no_unpack (int_truediv a b).
Proof.
  intros n. unfold int_truediv, rounded_quotient.
  destruct a, b; try done; by destruct (SFdiv _ _ _ _).
Qed.

Lemma no_unpack_mul_l k x : no_unpack (int_mul_float k x).
Proof. apply no_unpack_bind; [apply no_unpack_float_of_int | intros; apply no_unpack_Ok]. Qed.

Lemma no_unpack_mul_r x k : no_unpack (float_mul_int x k).
Proof. apply no_unpack_bind; [apply no_unpack_float_of_int | intros; apply no_unpack_Ok]. Qed.

Create HintDb no_unpack.

#[local] Hint Resolve no_unpack_Ok no_unpack_int_of_str no_unpack_float_of_str
  no_unpack_int_of_float no_unpack_int_truediv no_unpack_mul_l no_unpack_mul_r : no_unpack.

Ltac no_unpack :=
  repeat (apply no_unpack_bind; [auto with no_unpack | intros ?]); auto with no_unpack.

(** X17.  [resize] raises the error of unpacking exactly when the
    specification has two or more commas; with one comma it reads a pair,
    and without a comma no unpacking takes place. *)
Theorem resize_pair_needs_one_comma (im : Z * Z) (size : string) :
  (2 ≤ count_char "," size)%nat ↔
  ∃ n, resize im size = Raise (UnpackError n).
Proof.
  destruct im as [im_w im_h].
  assert (Hlen : length (split_on "," (strip size)) = S (count_char "," size)).
  { by rewrite split_on_length, count_char_strip. }
  split.
  - intros Hk. exists (S (count_char "," size)). unfold resize.
    rewrite (proj2 (contains_char_count "," size)) by lia.
    destruct (split_on "," (strip size)) as [|a [|b [|c rest]]] eqn:Hs;
      simpl in Hlen; try lia.
    by rewrite <- Hlen.
  - intros [n Hn]. unfold resize in Hn.
    destruct (contains_char "," size) eqn:Hc.
    + apply contains_char_count in Hc.
      destruct (split_on "," (strip size)) as [|a [|b [|c rest]]] eqn:Hs;
        simpl in Hlen; try lia.
      exfalso. revert Hn. by no_unpack.
    + exfalso. revert Hn.
      destruct (endswith size "%"); [by no_unpack|].
      destruct (endswith size "h"); [by no_unpack|].
      destruct (endswith size "w"); [by no_unpack | done].
Qed.

(** ** TranscriptLoader *)

Lemma odict_set_keys {V} (k : string) (v : V) (d : odict V) :
  (odict_set k v d).*1 = if decide (k ∈ d.*1) then d.*1 else d.*1 ++ [k].
Proof.
  induction d as [|[k' v'] d IH]; [done|]. cbn [odict_set]. rewrite !fmap_cons. simpl.
  case_bool_decide as Hk.
  - subst k'. rewrite fmap_cons. simpl. by rewrite decide_True by (by left).
  - rewrite fmap_cons, IH. simpl. destruct (decide (k ∈ d.*1)) as [Hin|Hin].
    + by rewrite decide_True by (by right).
    + rewrite decide_False; [done|]. intros [->|?]%elem_of_cons; done.
Qed.

Lemma odict_set_NoDup {V} (k : string) (v : V) (d : odict V) :
  NoDup d.*1 → NoDup (odict_set k v d).*1.
Proof.
  intros Hnd. rewrite odict_set_keys. destruct (decide (k ∈ d.*1)); [done|].
  apply NoDup_app. split; [done|]. split; [|apply NoDup_singleton].
  by intros x Hx ->%list_elem_of_singleton.
Qed.

Lemma odict_set_elem {V} (k : string) (v : V) (d : odict V) (x : string) :
  x ∈ (odict_set k v d).*1 ↔ x ∈ d.*1 ∨ x = k.
Proof.
  rewrite odict_set_keys. destruct (decide (k ∈ d.*1)).
  - split; [by left | by intros [?| ->]].
  - by rewrite elem_of_app, list_elem_of_singleton.
Qed.

Lemma odict_lookup_set {V} (k k' : string) (v : V) (d : odict V) :
  odict_lookup k' (odict_set k v d) = if decide (k = k') then Some v else odict_lookup k' d.
Proof.
  induction d as [|[k0 v0] d IH]; simpl.
  - case_bool_decide; by destruct (decide (k = k')).
  - case_bool_decide as H0; simpl.
    + subst k0. case_bool_decide; by destruct (decide (k = k')).
    + rewrite IH. case_bool_decide as H1; [|done].
      subst k0. by rewrite decide_False.
Qed.

Lemma odict_lookup_app {V} (k : string) (d1 d2 : odict V) :
  odict_lookup k (d1 ++ d2) =
    match odict_lookup k d1 with Some v => Some v | None => odict_lookup k d2 end.
Proof.
  induction d1 as [|[k0 v0] d1 IH]; [done|]. simpl. by case_bool_decide.
Qed.

Lemma odict_lookup_filter {V} (P : string → Prop) `{∀ k, Decision (P k)} (k : string)
    (d : odict V) :
  odict_lookup k (filter (λ kv, P kv.1) d) = if decide (P k) then odict_lookup k d else None.
Proof.
  induction d as [|[k0 v0] d IH]; [by destruct (decide (P k))|].
  destruct (decide (P k0)) as [H0|H0].
  - rewrite filter_cons_True by done. simpl. rewrite IH.
    case_bool_decide; [subst; by destruct (decide (P k)) | done].
  - rewrite filter_cons_False by done. simpl. rewrite IH.
    case_bool_decide; [subst; by destruct (decide (P k)) | done].
Qed.

Lemma odict_lookup_move_to_front {V} (k k' : string) (d : odict V) :
  odict_lookup k' (move_to_front k d) = odict_lookup k' d.
Proof.
  unfold move_to_front. rewrite odict_lookup_app.
  pose proof (odict_lookup_filter (λ x, x = k) k' d) as H1.
  pose proof (odict_lookup_filter (λ x, x ≠ k) k' d) as H2.
  cbv beta in H1, H2. rewrite H1, H2.
  destruct (decide (k' = k)), (decide (k' ≠ k)); try done; by destruct (odict_lookup k' d).
Qed.

Lemma move_to_front_perm {V} (k : string) (d : odict V) : move_to_front k d ≡ₚ d.
Proof.
  unfold move_to_front. induction d as [|kv d IH]; [done|].
  destruct (decide (kv.1 = k)).
  - rewrite filter_cons_True, filter_cons_False by tauto. simpl. by rewrite IH.
  - rewrite filter_cons_False, filter_cons_True by done.
    rewrite <- Permutation_middle. by rewrite IH.
Qed.

Lemma move_to_front_head {V} (k : string) (d : odict V) :
  k ∈ d.*1 → ∃ v rest, move_to_front k d = (k, v) :: rest.
Proof.
  intros ([k0 v] & Hk & Hin)%list_elem_of_fmap. simpl in Hk. subst k0.
  unfold move_to_front.
  destruct (filter (λ kv, kv.1 = k) d) as [|[k1 v1] rest] eqn:Hf.
  - assert (Hx : (k, v) ∈ filter (λ kv : string * V, kv.1 = k) d)
      by (by apply list_elem_of_filter).
    rewrite Hf in Hx. by apply elem_of_nil in Hx.
  - assert (Hx : (k1, v1) ∈ filter (λ kv : string * V, kv.1 = k) d)
      by (rewrite Hf; by left).
    apply list_elem_of_filter in Hx as [Hk1 _]. simpl in Hk1. subst k1.
    by eexists _, _.
Qed.

Section Transcripts.
Context `{TranscriptFiles}.

(** A file that the loader reads for the language [language]. *)
Local Abbreviation read_for language :=
  (λ file : string * result string,
     endswith file.1 "post.txt" = false ∧ splitext_root (basename file.1) = language).

Lemma load_loop_keys (files : list (string * result string)) (t0 t : odict string) :
  for_each load_transcript files t0 = Ok t →
  (NoDup t0.*1 → NoDup t.*1) ∧
  ∀ language, language ∈ t.*1 ↔
    language ∈ t0.*1 ∨ ∃ file, file ∈ files ∧ read_for language file.
Proof.
  revert t0. induction files as [|[path content] files IH]; intros t0 Hrun.
  - injection Hrun as <-. split; [done|]. intros l. split; [by left|].
    intros [?|(f & Hf & _)]; [done | by apply elem_of_nil in Hf].
  - cbn [for_each load_transcript] in Hrun.
    destruct (endswith path "post.txt") eqn:Hpost.
    + cbn in Hrun. destruct (IH _ Hrun) as [Hnd Hkeys]. split; [done|].
      intros l. rewrite Hkeys. split; intros [?|(f & Hf & Hr)]; try by left.
      * right. exists f. split; [by right | done].
      * apply elem_of_cons in Hf as [->|Hf]; [|right; by exists f].
        destruct Hr as [Hr _]. simpl in Hr. congruence.
    + destruct content as [text|e]; [|done]. cbn in Hrun.
      destruct (IH _ Hrun) as [Hnd Hkeys]. split.
      { intros H0. by apply Hnd, odict_set_NoDup. }
      intros l. rewrite Hkeys, odict_set_elem. split.
      * intros [[?| ->]|(f & Hf & Hr)]; [by left| |].
        -- right. exists (path, Ok text). split; [by left | done].
        -- right. exists f. split; [by right | done].
      * intros [?|(f & Hf & Hr)]; [by left; left|].
        apply elem_of_cons in Hf as [->|Hf]; [|right; by exists f].
        destruct Hr as [_ Hr]. simpl in Hr. left. by right.
Qed.

Lemma load_loop_lookup (files : list (string * result string)) (t0 t : odict string)
    (language : string) :
  for_each load_transcript files t0 = Ok t →
  ((∀ file, file ∈ files → ¬ read_for language file) →
     odict_lookup language t = odict_lookup language t0) ∧
  (∀ text,
     (∀ file, file ∈ files → read_for language file → file.2 = Ok text) →
     (odict_lookup language t0 = Some (markdown_convert text) ∨
      ∃ file, file ∈ files ∧ read_for language file) →
     odict_lookup language t = Some (markdown_convert text)).
Proof.
  revert t0. induction files as [|[path content] files IH]; intros t0 Hrun.
  - injection Hrun as <-. split; [done|]. intros text _ [?|(f & Hf & _)]; [done|].
    by apply elem_of_nil in Hf.
  - cbn [for_each load_transcript] in Hrun.
    destruct (endswith path "post.txt") eqn:Hpost.
    + cbn in Hrun. destruct (IH _ Hrun) as [Hnone Hsome]. split.
      * intros Hno. apply Hnone. intros f Hf. apply Hno. by right.
      * intros text Hall Hex. apply Hsome; [intros f Hf; apply Hall; by right|].
        destruct Hex as [?|(f & Hf & Hr)]; [by left|]. right.
        apply elem_of_cons in Hf as [->|Hf]; [|by exists f].
        destruct Hr as [Hr _]. simpl in Hr. congruence.
    + destruct content as [text0|e]; [|done]. cbn in Hrun.
      destruct (IH _ Hrun) as [Hnone Hsome]. split.
      * intros Hno. rewrite Hnone by (intros f Hf; apply Hno; by right).
        rewrite odict_lookup_set. rewrite decide_False; [done|].
        intros Hl. apply (Hno (path, Ok text0)); [by left | done].
      * intros text Hall Hex. apply Hsome; [intros f Hf; apply Hall; by right|].
        rewrite odict_lookup_set.
        destruct (decide (splitext_root (basename path) = language)) as [Hl|Hl].
        -- left. f_equal. f_equal.
           assert (Ht : (path, Ok text0).2 = Ok text) by (apply Hall; [by left | done]).
           simpl in Ht. congruence.
        -- destruct Hex as [?|(f & Hf & Hr)]; [by left|]. right.
           apply elem_of_cons in Hf as [->|Hf]; [|by exists f].
           destruct Hr as [_ Hr]. simpl in Hr. done.
Qed.

Lemma sorted_glob_perm (transcripts_dir page_name : string) :
  (sort_by str_ltb ((λ file : string * result string, (file.1, file)) <$>
                    glob_txt transcripts_dir page_name)).*2
  ≡ₚ glob_txt transcripts_dir page_name.
Proof.
  rewrite (sort_by_perm str_ltb), <- list_fmap_compose.
  by rewrite (list_fmap_ext _ id (glob_txt transcripts_dir page_name)), list_fmap_id.
Qed.

Lemma load_folder_keys (t0 t : odict string) (transcripts_dir page_name : string) :
  load_transcripts_from_folder t0 transcripts_dir page_name = Ok t →
  (NoDup t0.*1 → NoDup t.*1) ∧
  ∀ language, language ∈ t.*1 ↔
    language ∈ t0.*1 ∨ language_files transcripts_dir page_name language ≠ [].
Proof.
  intros Hrun. destruct (load_loop_keys _ _ _ Hrun) as [Hnd Hkeys]. split; [done|].
  intros l. rewrite Hkeys. f_equiv. unfold language_files. split.
  - intros (f & Hf & Hr) Hnil. rewrite sorted_glob_perm in Hf.
    assert (Hx : f ∈ filter (read_for l) (glob_txt transcripts_dir page_name))
      by (by apply list_elem_of_filter).
    rewrite Hnil in Hx. by apply elem_of_nil in Hx.
  - intros Hne. destruct (filter _ _) as [|f fs] eqn:Hf; [done|].
    assert (Hx : f ∈ filter (read_for l) (glob_txt transcripts_dir page_name))
      by (rewrite Hf; by left).
    apply list_elem_of_filter in Hx as [Hr Hx]. exists f. by rewrite sorted_glob_perm.
Qed.

End Transcripts.

Section TranscriptFolders.
Context `{TranscriptFiles}.
Context (content_dir comic_folder : string) (comic_info : config) (page_name : string).

Local Abbreviation load_folder :=
  (λ (transcripts : odict string) (transcripts_dir : string),
     load_transcripts_from_folder transcripts transcripts_dir page_name).

(** With transcripts enabled, [get_transcripts] loads the folders one
    after the other into one mapping and then moves the default language to
    the front. *)
Lemma get_transcripts_folders (t : odict string) :
  cfg_getboolean comic_info "Transcripts" "Enable transcripts" = Ok true →
  get_transcripts content_dir comic_folder comic_info page_name = Ok t →
  ∃ loaded default_language,
    for_each load_folder (transcript_folders content_dir comic_folder comic_info) []
      = Ok loaded ∧
    get_option comic_info "Transcripts" "Default language" "English" = Ok default_language ∧
    t = if bool_decide (default_language ∈ loaded.*1)
        then move_to_front default_language loaded else loaded.
Proof.
  intros Hen. unfold get_transcripts, transcript_folders. rewrite Hen. cbn.
  destruct (get_option_bool comic_info "Transcripts" "Load transcripts from comic folder" true)
    as [b|]; [|done]. cbn.
  set (dir1 := content_dir +:+ "/" +:+ comic_folder +:+ "comics").
  assert (Hfirst : (if b then load_transcripts_from_folder [] dir1 page_name else Ok [])
                   = for_each load_folder (if b then [dir1] else []) []).
  { destruct b; [|done]. cbn. by destruct (load_transcripts_from_folder [] dir1 page_name). }
  rewrite Hfirst. clear Hfirst.
  destruct (for_each load_folder (if b then [dir1] else []) []) as [t1|] eqn:H1; [|done]. cbn.
  destruct (get_option comic_info "Transcripts" "Transcripts folder" "") as [dir2|]; [|done].
  cbn.
  assert (Hsecond : (if bool_decide (dir2 ≠ "")
                     then load_transcripts_from_folder t1 dir2 page_name else Ok t1)
                    = for_each load_folder (if bool_decide (dir2 ≠ "") then [dir2] else []) t1).
  { case_bool_decide; [|done]. cbn. by destruct (load_transcripts_from_folder t1 dir2 page_name). }
  rewrite Hsecond. clear Hsecond.
  destruct (for_each load_folder (if bool_decide (dir2 ≠ "") then [dir2] else []) t1)
    as [t2|] eqn:H2; [|done]. cbn.
  destruct (get_option comic_info "Transcripts" "Default language" "English") as [dl|]; [|done].
  cbn. intros Ht. exists t2, dl. split; [|split; [done|]].
  - rewrite for_each_app. destruct b; by rewrite H1.
  - by destruct (bool_decide (dl ∈ t2.*1)); injection Ht as <-.
Qed.

Lemma load_folders_keys (folders : list string) (t0 t : odict string) :
  for_each load_folder folders t0 = Ok t →
  (NoDup t0.*1 → NoDup t.*1) ∧
  ∀ language, language ∈ t.*1 ↔
    language ∈ t0.*1 ∨
    ∃ transcripts_dir, transcripts_dir ∈ folders ∧
                       language_files transcripts_dir page_name language ≠ [].
Proof.
  revert t0. induction folders as [|dir folders IH]; intros t0 Hrun.
  - injection Hrun as <-. split; [done|]. intros l. split; [by left|].
    intros [?|(d & Hd & _)]; [done | by apply elem_of_nil in Hd].
  - cbn [for_each] in Hrun.
    destruct (load_transcripts_from_folder t0 dir page_name) as [t1|] eqn:H1; [|done].
    cbn in Hrun. destruct (IH _ Hrun) as [Hnd Hkeys].
    destruct (load_folder_keys _ _ _ _ H1) as [Hnd1 Hkeys1]. split; [by auto|].
    intros l. rewrite Hkeys, Hkeys1. split.
    + intros [[?|?]|(d & Hd & Hne)]; [by left| |].
      * right. exists dir. split; [by left | done].
      * right. exists d. split; [by right | done].
    + intros [?|(d & Hd & Hne)]; [by left; left|].
      apply elem_of_cons in Hd as [->|Hd]; [by left; right|]. right. by exists d.
Qed.

Lemma load_folder_lookup (t0 t : odict string) (transcripts_dir language : string) :
  load_transcripts_from_folder t0 transcripts_dir page_name = Ok t →
  (language_files transcripts_dir page_name language = [] →
     odict_lookup language t = odict_lookup language t0) ∧
  (∀ path text,
     language_files transcripts_dir page_name language = [(path, Ok text)] →
     odict_lookup language t = Some (markdown_convert text)).
Proof.
  intros Hrun. destruct (load_loop_lookup _ _ _ language Hrun) as [Hnone Hsome]. split.
  - intros Hnil. apply Hnone. intros f Hf Hr. rewrite sorted_glob_perm in Hf.
    assert (Hx : f ∈ language_files transcripts_dir page_name language)
      by (by apply list_elem_of_filter).
    rewrite Hnil in Hx. by apply elem_of_nil in Hx.
  - intros path text Hone. apply Hsome.
    + intros f Hf Hr. rewrite sorted_glob_perm in Hf.
      assert (Hx : f ∈ language_files transcripts_dir page_name language)
        by (by apply list_elem_of_filter).
      rewrite Hone in Hx. by apply list_elem_of_singleton in Hx as ->.
    + right. exists (path, Ok text).
      assert (Hx : (path, Ok text) ∈ language_files transcripts_dir page_name language)
        by (rewrite Hone; by left).
      apply list_elem_of_filter in Hx as [Hr Hx]. by rewrite sorted_glob_perm.
Qed.

Lemma load_folders_lookup_none (folders : list string) (t0 t : odict string)
    (language : string) :
  for_each load_folder folders t0 = Ok t →
  (∀ transcripts_dir, transcripts_dir ∈ folders →
     language_files transcripts_dir page_name language = []) →
  odict_lookup language t = odict_lookup language t0.
Proof.
  revert t0. induction folders as [|dir folders IH]; intros t0 Hrun Hnone.
  - by injection Hrun as <-.
  - cbn [for_each] in Hrun.
    destruct (load_transcripts_from_folder t0 dir page_name) as [t1|] eqn:H1; [|done].
    cbn in Hrun. rewrite (IH _ Hrun) by (intros d Hd; apply Hnone; by right).
    apply (load_folder_lookup _ _ _ _ H1). apply Hnone. by left.
Qed.

(** X18.  With transcripts enabled, the mapping that [get_transcripts]
    returns has pairwise distinct languages; a language is a key exactly
    when one of the folders read has a file for it that is not a post text;
    and when the default language is a key it is the first one. *)
Theorem get_transcripts_languages (t : odict string) :
  cfg_getboolean comic_info "Transcripts" "Enable transcripts" = Ok true →
  get_transcripts content_dir comic_folder comic_info page_name = Ok t →
  NoDup t.*1 ∧
  (∀ language, language ∈ t.*1 ↔
     ∃ transcripts_dir,
       transcripts_dir ∈ transcript_folders content_dir comic_folder comic_info ∧
       language_files transcripts_dir page_name language ≠ []) ∧
  (∀ default_language,
     get_option comic_info "Transcripts" "Default language" "English" = Ok default_language →
     default_language ∈ t.*1 → ∃ text rest, t = (default_language, text) :: rest).
Proof.
  intros Hen Hrun.
  destruct (get_transcripts_folders t Hen Hrun) as (t2 & dl & Hload & Hdl & ->).
  destruct (load_folders_keys _ _ _ Hload) as [Hnd Hkeys].
  assert (Hperm : (if bool_decide (dl ∈ t2.*1) then move_to_front dl t2 else t2) ≡ₚ t2).
  { case_bool_decide; [apply move_to_front_perm | done]. }
  split; [rewrite Hperm; apply Hnd; constructor|]. split.
  - intros l. rewrite Hperm, Hkeys. split; [|by right].
    intros [Hl|?]; [by apply elem_of_nil in Hl | done].
  - intros dl' Hdl' Hin. assert (dl' = dl) as -> by congruence.
    rewrite Hperm in Hin. rewrite bool_decide_eq_true_2 by done.
    by apply move_to_front_head.
Qed.

(** X19.  When several folders hold a transcript in the same language, the
    folder read last wins: the text of a language is the converted content
    of its file in the last folder that has one, so a file in the configured
    transcripts folder replaces the one in the comic folder. *)
Theorem get_transcripts_last_folder_wins (t : odict string) (language : string)
    (before after : list string) (transcripts_dir path text : string) :
  cfg_getboolean comic_info "Transcripts" "Enable transcripts" = Ok true →
  get_transcripts content_dir comic_folder comic_info page_name = Ok t →
  transcript_folders content_dir comic_folder comic_info
    = before ++ transcripts_dir :: after →
  language_files transcripts_dir page_name language = [(path, Ok text)] →
  (∀ later, later ∈ after → language_files later page_name language = []) →
  odict_lookup language t = Some (markdown_convert text).
Proof.
  intros Hen Hrun Hfolders Hone Hlater.
  destruct (get_transcripts_folders t Hen Hrun) as (t2 & dl & Hload & _ & ->).
  assert (Hmove : odict_lookup language
                    (if bool_decide (dl ∈ t2.*1) then move_to_front dl t2 else t2)
                  = odict_lookup language t2).
  { case_bool_decide; [apply odict_lookup_move_to_front | done]. }
  rewrite Hmove, Hfolders in *. clear Hmove Hfolders.
  rewrite for_each_app in Hload.
  destruct (for_each load_folder before []) as [t0|]; [|done]. cbn in Hload.
  destruct (load_transcripts_from_folder t0 transcripts_dir page_name) as [t1|] eqn:H1;
    [|done]. cbn in Hload.
  rewrite (load_folders_lookup_none _ _ _ _ Hload Hlater).
  by eapply (load_folder_lookup _ _ _ _ H1).
Qed.

End TranscriptFolders.

Lemma get_transcripts_languages_witness :
  cfg_getboolean sample_transcripts_info "Transcripts" "Enable transcripts" = Ok true ∧
  @get_transcripts sample_transcript_files "content" "" sample_transcripts_info "p1"
    = Ok sample_transcripts ∧
  NoDup sample_transcripts.*1 ∧
  get_option sample_transcripts_info "Transcripts" "Default language" "English" = Ok "Deutsch" ∧
  "Deutsch" ∈ sample_transcripts.*1 ∧
  ∃ text rest, sample_transcripts = ("Deutsch", text) :: rest.
Proof.
  assert (H1 : cfg_getboolean sample_transcripts_info "Transcripts" "Enable transcripts"
               = Ok true) by reflexivity.
  assert (H2 : @get_transcripts sample_transcript_files "content" "" sample_transcripts_info
                 "p1" = Ok sample_transcripts) by (vm_compute; reflexivity).
  assert (H3 : get_option sample_transcripts_info "Transcripts" "Default language" "English"
               = Ok "Deutsch") by reflexivity.
  assert (H4 : "Deutsch" ∈ sample_transcripts.*1) by (simpl; set_solver).
  destruct (@get_transcripts_languages sample_transcript_files "content" ""
              sample_transcripts_info "p1" sample_transcripts H1 H2) as (Hnd & _ & Hfirst).
  split; [exact H1|]. split; [exact H2|]. split; [exact Hnd|].
  split; [exact H3|]. split; [exact H4|]. exact (Hfirst "Deutsch" H3 H4).
Defined.

Lemma get_transcripts_last_folder_wins_witness :
  cfg_getboolean sample_transcripts_info "Transcripts" "Enable transcripts" = Ok true ∧
  @get_transcripts sample_transcript_files "content" "" sample_transcripts_info "p1"
    = Ok sample_transcripts ∧
  transcript_folders "content" "" sample_transcripts_info
    = ["content/comics"] ++ "scripts" :: [] ∧
  @language_files sample_transcript_files "scripts" "p1" "French"
    = [("scripts/p1/French.txt", Ok "salut")] ∧
  (∀ later, later ∈ [] → @language_files sample_transcript_files later "p1" "French" = []) ∧
  odict_lookup "French" sample_transcripts = Some "<p>salut</p>".
Proof.
  assert (H1 : cfg_getboolean sample_transcripts_info "Transcripts" "Enable transcripts"
               = Ok true) by reflexivity.
  assert (H2 : @get_transcripts sample_transcript_files "content" "" sample_transcripts_info
                 "p1" = Ok sample_transcripts) by (vm_compute; reflexivity).
  assert (H3 : transcript_folders "content" "" sample_transcripts_info
               = ["content/comics"] ++ "scripts" :: []) by reflexivity.
  assert (H4 : @language_files sample_transcript_files "scripts" "p1" "French"
               = [("scripts/p1/French.txt", Ok "salut")]) by (vm_compute; reflexivity).
  assert (H5 : ∀ later, later ∈ [] →
                 @language_files sample_transcript_files later "p1" "French" = []).
  { intros later Hin. by apply elem_of_nil in Hin. }
  repeat (split; [assumption|]).
  exact (@get_transcripts_last_folder_wins sample_transcript_files "content" ""
           sample_transcripts_info "p1" sample_transcripts "French" ["content/comics"] []
           "scripts" "scripts/p1/French.txt" "salut" H1 H2 H3 H4 H5).
Defined.

(** *** The post text is no transcript *)

Lemma startswith_before_first c (s p : string) :
  startswith (before_first c s) p = true → startswith s p = true.
Proof.
  revert p. induction s as [|a s IH]; intros p; [done|].
  cbn [before_first]. case_bool_decide; [by destruct p|].
  destruct p as [|b p]; [done|]. cbn [startswith].
  intros [Hab Hrest]%andb_true_iff. rewrite Hab. cbn. by apply IH.
Qed.

Lemma before_first_cons_ne c a (s : string) :
  a ≠ c → before_first c (String a s) = String a (before_first c s).
Proof. intros Hne. cbn [before_first]. by rewrite bool_decide_eq_false_2. Qed.

Lemma after_first_cons_ne c a (s : string) :
  a ≠ c → after_first c (String a s) = after_first c s.
Proof. intros Hne. cbn [after_first]. by rewrite bool_decide_eq_false_2. Qed.

Lemma after_first_cons_eq c (s : string) : after_first c (String c s) = Some s.
Proof. cbn [after_first]. by rewrite bool_decide_eq_true_2. Qed.

(** A file whose path ends in [.txt] but not in [post.txt] stands for a
    language that does not end in [post]. *)
Lemma language_not_post (path : string) :
  endswith path ".txt" = true → endswith path "post.txt" = false →
  endswith (splitext_root (basename path)) "post" = false.
Proof.
  unfold endswith, splitext_root, basename.
  change (String.rev ".txt") with "txt.". change (String.rev "post.txt") with "txt.tsop".
  change (String.rev "post") with "tsop".
  rewrite rev_involutive.
  destruct (String.rev path) as [|a [|b [|c [|d r]]]]; cbn [startswith];
    rewrite ?andb_false_r; try done.
  intros Htxt Hpost.
  apply andb_true_iff in Htxt as [<-%bool_decide_eq_true_1 Htxt].
  apply andb_true_iff in Htxt as [<-%bool_decide_eq_true_1 Htxt].
  apply andb_true_iff in Htxt as [<-%bool_decide_eq_true_1 Htxt].
  apply andb_true_iff in Htxt as [<-%bool_decide_eq_true_1 _].
  rewrite !bool_decide_eq_true_2 in Hpost by done. cbn [andb] in Hpost.
  rewrite !before_first_cons_ne by done.
  rewrite !after_first_cons_ne by done. rewrite after_first_cons_eq.
  destruct (bool_decide (lstrip_with (λ a, bool_decide (a = "."%char))
                           (String.rev (before_first "/" r)) = "")).
  - rewrite rev_involutive. cbn [startswith].
    rewrite bool_decide_eq_true_2 by done.
    by rewrite bool_decide_eq_false_2 by done.
  - rewrite rev_involutive.
    destruct (startswith (before_first "/" r) "tsop") eqn:Hs; [|done].
    apply startswith_before_first in Hs. congruence.
Qed.

Section PostText.
Context `{TranscriptFiles}.

(** X20.  The post text of a page is never taken for a transcript: when
    the files found end in [.txt], no language of the returned mapping ends
    in [post]; every file whose path ends in [post.txt] is passed over, not
    only [post.txt] itself. *)
Theorem post_text_is_no_transcript (content_dir comic_folder : string)
    (comic_info : config) (page_name : string) (t : odict string) (language : string) :
  (∀ transcripts_dir file,
     file ∈ glob_txt transcripts_dir page_name → endswith file.1 ".txt" = true) →
  get_transcripts content_dir comic_folder comic_info page_name = Ok t →
  language ∈ t.*1 → endswith language "post" = false.
Proof.
  intros Htxt Hrun Hin.
  destruct (cfg_getboolean comic_info "Transcripts" "Enable transcripts") as [[|]|] eqn:Hen.
  - destruct (get_transcripts_folders _ _ _ _ t Hen Hrun) as (t2 & dl & Hload & _ & ->).
    destruct (load_folders_keys _ _ _ _ Hload) as [_ Hkeys].
    assert (Hperm : (if bool_decide (dl ∈ t2.*1) then move_to_front dl t2 else t2) ≡ₚ t2).
    { case_bool_decide; [apply move_to_front_perm | done]. }
    rewrite Hperm in Hin. apply Hkeys in Hin as [Hin|(dir & _ & Hne)];
      [by apply elem_of_nil in Hin|].
    destruct (language_files dir page_name language) as [|file files] eqn:Hf; [done|].
    assert (Hx : file ∈ language_files dir page_name language) by (rewrite Hf; by left).
    apply list_elem_of_filter in Hx as [[Hpost <-] Hx].
    apply language_not_post; [by eapply Htxt | done].
  - unfold get_transcripts in Hrun. rewrite Hen in Hrun. cbn in Hrun.
    injection Hrun as <-. by apply elem_of_nil in Hin.
  - unfold get_transcripts in Hrun. by rewrite Hen in Hrun.
Qed.

End PostText.

Lemma post_text_is_no_transcript_witness :
  (∀ transcripts_dir file,
     file ∈ @glob_txt sample_transcript_files transcripts_dir "p1" →
     endswith file.1 ".txt" = true) ∧
  @get_transcripts sample_transcript_files "content" "" sample_transcripts_info "p1"
    = Ok sample_transcripts ∧
  "English" ∈ sample_transcripts.*1 ∧
  endswith "English" "post" = false.
Proof.
  assert (H1 : ∀ transcripts_dir file,
                 file ∈ @glob_txt sample_transcript_files transcripts_dir "p1" →
                 endswith file.1 ".txt" = true).
  { intros dir file. cbn [glob_txt sample_transcript_files].
    case_bool_decide as Hd1; [subst dir|case_bool_decide as Hd2; [subst dir|]]; intros Hin;
      repeat (apply elem_of_cons in Hin as [->|Hin]; [reflexivity|]);
      by apply elem_of_nil in Hin. }
  assert (H2 : @get_transcripts sample_transcript_files "content" "" sample_transcripts_info
                 "p1" = Ok sample_transcripts) by (vm_compute; reflexivity).
  assert (H3 : "English" ∈ sample_transcripts.*1) by (simpl; set_solver).
  repeat (split; [assumption|]).
  exact (@post_text_is_no_transcript sample_transcript_files "content" ""
           sample_transcripts_info "p1" sample_transcripts "English" H1 H2 H3).
Defined.

(** ** PageWriter *)

Lemma write_other_pages_inv (h : store) (comic_folder : string) (pages_list : list page_entry)
    (comic_data_dicts : list loc) (global_values : dict) (writes : list other_write) :
  write_other_pages h comic_folder pages_list comic_data_dicts global_values = Ok writes →
  ∃ last_comic_page,
    (comic_data_dicts = [] ∧ last_comic_page = ∅ ∨
     comic_data_dicts ≠ [] ∧
     ∃ r, list_getitem comic_data_dicts (-1) = Ok r ∧ h !! r = Some last_comic_page) ∧
    ∀ o, o ∈ writes →
      ∃ p, p ∈ pages_list ∧
           write_other_page h comic_folder comic_data_dicts global_values last_comic_page p
             = Ok (Some o).
Proof.
  unfold write_other_pages. intros Hrun.
  destruct (if bool_decide (comic_data_dicts = []) then Ok ∅
            else r ← list_getitem comic_data_dicts (-1); deref h r)
    as [last_comic_page|] eqn:Hlast; [|done].
  cbn in Hrun.
  destruct (mapM _ pages_list) as [written|] eqn:Hw; [|done]. cbn in Hrun.
  injection Hrun as <-. exists last_comic_page. split.
  - case_bool_decide as Hnil; [left; split; [done | congruence]|].
    right. split; [done|].
    destruct (list_getitem comic_data_dicts (-1)) as [r|]; [|done]. cbn in Hlast.
    exists r. split; [done|]. unfold deref in Hlast.
    destruct (h !! r); [congruence | done].
  - intros o Ho. apply list_elem_of_omap in Ho as (oo & Hoo & Hid).
    unfold id in Hid. subst oo.
    apply mapM_Ok in Hw. apply list_elem_of_lookup_1 in Hoo as [i Hi].
    destruct (Forall2_lookup_r _ _ _ _ _ Hw Hi) as (p & Hp & Hpo).
    exists p. split; [by eapply list_elem_of_lookup_2 | done].
Qed.

(** X21.  Every page that [write_other_pages] writes from a template of its
    own is rendered with the data of the last comic page, or with nothing
    when no comic is published: a global value wins, then the page's own
    title as [page_title] when it has one, then the last record's entry.
    The page list's [tagged] entry gives no such page, and [latest] is left
    out when there is no comic. *)
Theorem other_pages_show_the_last_comic (h : store) (comic_folder : string)
    (pages_list : list page_entry) (comic_data_dicts : list loc) (global_values : dict)
    (writes : list other_write) :
  write_other_pages h comic_folder pages_list comic_data_dicts global_values = Ok writes →
  ∃ last_comic_page,
    (comic_data_dicts = [] ∧ last_comic_page = ∅ ∨
     comic_data_dicts ≠ [] ∧
     ∃ r, list_getitem comic_data_dicts (-1) = Ok r ∧ h !! r = Some last_comic_page) ∧
    ∀ w, TemplatePage w ∈ writes →
      ∃ p, p ∈ pages_list ∧ template_name p = pw_template w ∧
        pw_template w ≠ "tagged" ∧
        (pw_template w = "latest" → comic_data_dicts ≠ []) ∧
        ∀ k, pw_data w !! k =
             match global_values !! k with
             | Some v => Some v
             | None =>
                 if decide (k = "page_title" ∧ title p ≠ "") then Some (VStr (title p))
                 else last_comic_page !! k
             end.
Proof.
  intros Hrun.
  destruct (write_other_pages_inv _ _ _ _ _ _ Hrun) as (last & Hlast & Hall).
  exists last. split; [done|]. intros w Hw.
  destruct (Hall _ Hw) as (p & Hp & Hpage). exists p. split; [done|].
  unfold write_other_page in Hpage.
  case_bool_decide as Htag.
  { by destruct (write_tagged_pages h comic_data_dicts global_values). }
  destruct (bool_decide (template_name p = "latest") && bool_decide (comic_data_dicts = []))
    eqn:Hlatest; [done|].
  injection Hpage as <-. cbn. split; [done|]. split; [done|]. split.
  - intros Hl Hnil. rewrite !bool_decide_eq_true_2 in Hlatest by done. done.
  - intros k. unfold dict_update. rewrite lookup_union, (right_id_L ∅ (∪)).
    destruct (global_values !! k) as [v|]; [by destruct (_ !! k)|].
    rewrite (left_id_L None (∪)).
    destruct (decide (title p = "")) as [Ht|Ht].
    + rewrite bool_decide_eq_false_2 by (by intros ?).
      rewrite decide_False; [done|]. by intros [_ ?].
    + rewrite bool_decide_eq_true_2 by done.
      destruct (decide (k = "page_title")) as [->|Hk].
      * rewrite lookup_insert_eq. by rewrite decide_True.
      * rewrite lookup_insert_ne by done. rewrite decide_False; [done | tauto].
Qed.

(** *** Paths under a directory *)

Lemma contains_char_rev c (s : string) :
  contains_char c (String.rev s) = contains_char c s.
Proof.
  induction s as [|a s IH]; [done|].
  rewrite rev_cons, contains_char_app, IH. cbn [contains_char]. by rewrite orb_false_r, orb_comm.
Qed.

Lemma before_first_app c (a s : string) :
  contains_char c a = false → before_first c (a +:+ String c s) = a.
Proof.
  induction a as [|b a IH]; intros Ha.
  - change ("" +:+ String c s) with (String c s). cbn [before_first].
    by rewrite bool_decide_eq_true_2.
  - cbn [contains_char] in Ha. apply orb_false_iff in Ha as [Hb Ha].
    rewrite str_app_cons. cbn [before_first]. rewrite Hb. by rewrite IH.
Qed.

(** What [lstrip] takes away is made of the characters it drops. *)
Lemma lstrip_split drop (s : string) :
  ∃ pre, s = pre +:+ lstrip_with drop s ∧ all_chars drop pre = true.
Proof.
  induction s as [|c s (pre & Hpre & Hall)]; [by exists ""|].
  cbn [lstrip_with]. destruct (drop c) eqn:Hc; [|by exists ""].
  exists (String c pre). rewrite str_app_cons, <- Hpre. simpl. by rewrite Hc.
Qed.

Lemma slashes_comm (s : string) :
  all_chars is_slash s = true → s +:+ "/" = String "/" s.
Proof.
  induction s as [|c s IH]; [done|]. cbn [all_chars]. intros [Hc Hs]%andb_true_iff.
  apply bool_decide_eq_true_1 in Hc as ->. by rewrite str_app_cons, IH.
Qed.

(** A path made by [os.path.join] from a directory name that is not empty
    begins with that name, taken without the slashes at its end, and a
    slash. *)
Lemma path_join_under (dir rest : string) :
  dir ≠ "" → startswith rest "/" = false →
  ∃ rest', path_join dir rest = rstrip_with is_slash dir +:+ "/" +:+ rest'.
Proof.
  intros Hdir Hrest. unfold path_join. rewrite Hrest.
  rewrite (bool_decide_eq_false_2 (dir = "")) by done. cbn [orb].
  destruct (string_last dir Hdir) as (init & c & ->).
  change "/" with (String "/"%char "") at 1. rewrite endswith_snoc.
  case_bool_decide as Hc.
  - subst c. unfold rstrip_with. rewrite rev_snoc. cbn [lstrip_with].
    change (is_slash "/") with true. cbv iota.
    destruct (lstrip_split is_slash (String.rev init)) as (pre & Hpre & Hall).
    exists (String.rev pre +:+ rest).
    rewrite <- (rev_involutive init) at 1. rewrite Hpre at 1.
    rewrite rev_append, !str_app_assoc. f_equal.
    rewrite <- !str_app_assoc. f_equal.
    apply slashes_comm. by rewrite all_chars_rev.
  - exists rest. rewrite rstrip_kept; [by rewrite !str_app_assoc|done|].
    simpl. unfold is_slash. rewrite bool_decide_eq_false_2 by congruence. done.
Qed.

Lemma strip_slashes_plain (s : string) :
  s ≠ "" → startswith s "/" = false → endswith s "/" = false → strip_chars "/" s = s.
Proof.
  intros Hne Hstart Hend. unfold strip_chars, strip_with.
  assert (Hl : lstrip_with (λ c, contains_char c "/") s = s).
  { destruct s as [|c s]; [done|]. cbn [lstrip_with contains_char].
    cbn [startswith] in Hstart. apply andb_false_iff in Hstart as [Hstart|Hstart].
    - rewrite orb_false_r. rewrite (bool_decide_eq_false_2 ("/"%char = c)); [done|].
      by apply bool_decide_eq_false_1 in Hstart.
    - by destruct s. }
  rewrite Hl. destruct (string_last s Hne) as (init & c & ->).
  change "/" with (String "/"%char "") in Hend. rewrite endswith_snoc in Hend.
  apply bool_decide_eq_false_1 in Hend.
  apply rstrip_kept; [done|]. simpl. rewrite orb_false_r.
  by rewrite (bool_decide_eq_false_2 ("/"%char = c)).
Qed.

Lemma write_tagged_pages_paths (h : store) (comic_data_dicts : list loc) (global_values : dict)
    (tagged : list tagged_write) (tw : tagged_write) :
  write_tagged_pages h comic_data_dicts global_values = Ok tagged → tw ∈ tagged →
  tw_html_path tw = "tagged/" +:+ tw_tag tw +:+ "/index.html".
Proof.
  unfold write_tagged_pages. case_bool_decide as Hnil.
  - intros [= <-] Hin. by apply elem_of_nil in Hin.
  - destruct (tag_index h comic_data_dicts) as [tags|]; [|done]. cbn.
    intros [= <-] Hin. apply list_elem_of_In, in_map_iff in Hin as (kv & <- & _). done.
Qed.

Lemma tagged_path_covered (tag : string) :
  covers (RemoveTree "tagged") ("tagged/" +:+ tag +:+ "/index.html").
Proof. split; [done|]. by exists (tag +:+ "/index.html"). Qed.

Lemma remove_tagged_requested (pages_list : list page_entry) (extra_comics : list string) :
  RemoveTree "tagged" ∈ delete_output_file_space pages_list extra_comics ↔
  (∃ p, p ∈ pages_list ∧ template_name p = "tagged") ∨ "tagged" ∈ extra_comics.
Proof.
  unfold delete_output_file_space. rewrite !elem_of_app, !list_elem_of_fmap. split.
  - intros [Hin|[(p & Hp & Hin)|(e & He & Hin)]].
    + repeat (apply elem_of_cons in Hin as [Hin|Hin]; [done|]). by apply elem_of_nil in Hin.
    + left. exists p. split; [done|]. unfold page_removal in Hp.
      repeat case_bool_decide; congruence.
    + right. by injection He as ->.
  - intros [(p & Hin & Hp)|Hin].
    + right. left. exists p. split; [|done]. unfold page_removal. rewrite Hp.
      by rewrite !bool_decide_eq_false_2 by done.
    + right. right. by exists "tagged".
Qed.

(** X22.  What [write_other_pages] writes for the main comic is covered by
    what the next run's [delete_output_file_space] removes.  Every tagged
    page has the path [tagged/<tag>/index.html], which begins with the
    directory [tagged], and that directory is removed.  A page [index] or
    [404] is the file that is removed, and any other page has a path that
    begins with its template name, without slashes at the end, and a slash,
    and the directory of that name is removed.  For the pages of the second
    kind the template name is not empty, and is written exactly [index] or
    [404] when it is one of them up to letter case. *)
Theorem cleanup_covers_other_pages (h : store) (pages_list : list page_entry)
    (comic_data_dicts : list loc) (global_values : dict) (writes : list other_write)
    (extra_comics : list string) :
  write_other_pages h "" pages_list comic_data_dicts global_values = Ok writes →
  (∀ tagged tw, TaggedPages tagged ∈ writes → tw ∈ tagged →
     tw_html_path tw = "tagged/" +:+ tw_tag tw +:+ "/index.html" ∧
     RemoveTree "tagged" ∈ delete_output_file_space pages_list extra_comics ∧
     covers (RemoveTree "tagged") (tw_html_path tw)) ∧
  (∀ w, TemplatePage w ∈ writes →
     pw_template w ≠ "" →
     (lower (pw_template w) ∈ ["index"; "404"] → pw_template w ∈ ["index"; "404"]) →
     ∃ r, r ∈ delete_output_file_space pages_list extra_comics ∧
          covers r (pw_html_path w)).
Proof.
  intros Hrun.
  destruct (write_other_pages_inv _ _ _ _ _ _ Hrun) as (last & _ & Hall).
  assert (Hremoval : ∀ p, p ∈ pages_list →
            page_removal p ∈ delete_output_file_space pages_list extra_comics).
  { intros p Hp. unfold delete_output_file_space.
    apply elem_of_app. right. apply elem_of_app. left. by apply list_elem_of_fmap_2. }
  split.
  - intros tagged tw Hw Htw. destruct (Hall _ Hw) as (p & Hp & Hpage).
    unfold write_other_page in Hpage. case_bool_decide as Htag; [|by destruct (_ && _)].
    destruct (write_tagged_pages h comic_data_dicts global_values) as [tagged'|] eqn:Ht;
      [|done].
    cbn in Hpage. injection Hpage as ->.
    rewrite (write_tagged_pages_paths _ _ _ _ _ Ht Htw).
    split; [done|]. split; [|apply tagged_path_covered].
    apply remove_tagged_requested. left. by exists p.
  - intros w Hw Hne Hcase. destruct (Hall _ Hw) as (p & Hp & Hpage).
    unfold write_other_page in Hpage. case_bool_decide as Htag.
    { by destruct (write_tagged_pages h comic_data_dicts global_values). }
    destruct (_ && _); [done|]. injection Hpage as <-.
    cbn [pw_template pw_html_path] in *.
    specialize (Hremoval p Hp). eexists. split; [exact Hremoval|].
    unfold page_removal. case_bool_decide as Hroot.
    + apply Hcase in Hroot.
      apply elem_of_cons in Hroot as [->|Hroot]; [done|].
      apply list_elem_of_singleton in Hroot as ->. done.
    + rewrite !bool_decide_eq_false_2.
      * split; [done|]. by apply path_join_under.
      * intros Heq. apply Hroot. rewrite Heq. set_solver.
      * intros Heq. apply Hroot. rewrite Heq. set_solver.
Qed.

Lemma startswith_app_nonempty (t s : string) (c : ascii) :
  t ≠ "" → startswith (t +:+ s) (String c "") = startswith t (String c "").
Proof.
  destruct t as [|a t]; [done|]. intros _. rewrite str_app_cons. cbn [startswith].
  by destruct (t +:+ s), t.
Qed.

(** X23.  The pages of a satellite comic whose name has no slash at either
    end.  Every page that [write_other_pages] writes from a template of its
    own, under the folder [extra_comic.strip("/") + "/"] and from a template
    name that does not start with a slash, has a path that begins with the
    satellite's directory, which [delete_output_file_space] removes.  The
    tagged pages of the satellite do not: they are written to
    [tagged/<tag>/index.html] like those of the main comic, which is not
    below the directory of a satellite with a plain name other than
    [tagged]; the directory [tagged] is removed exactly when the page list
    of the main comic has the entry [tagged] or a satellite has that name. *)
Theorem cleanup_covers_satellite_pages (h : store) (pages_list cleaned : list page_entry)
    (comic_data_dicts : list loc) (global_values : dict) (writes : list other_write)
    (extra_comics : list string) (extra_comic : string) :
  extra_comic ∈ extra_comics →
  extra_comic ≠ "" → startswith extra_comic "/" = false → endswith extra_comic "/" = false →
  write_other_pages h (strip_chars "/" extra_comic +:+ "/") pages_list comic_data_dicts
    global_values = Ok writes →
  (∀ w, TemplatePage w ∈ writes → startswith (pw_template w) "/" = false →
     RemoveTree extra_comic ∈ delete_output_file_space cleaned extra_comics ∧
     covers (RemoveTree extra_comic) (pw_html_path w)) ∧
  (∀ tagged tw, TaggedPages tagged ∈ writes → tw ∈ tagged →
     tw_html_path tw = "tagged/" +:+ tw_tag tw +:+ "/index.html" ∧
     covers (RemoveTree "tagged") (tw_html_path tw) ∧
     (contains_char "/" extra_comic = false → extra_comic ≠ "tagged" →
        ¬ covers (RemoveTree extra_comic) (tw_html_path tw)) ∧
     (RemoveTree "tagged" ∈ delete_output_file_space cleaned extra_comics ↔
        (∃ p, p ∈ cleaned ∧ template_name p = "tagged") ∨ "tagged" ∈ extra_comics)).
Proof.
  intros Hextra Hne Hstart Hend Hrun.
  rewrite strip_slashes_plain in Hrun by done.
  destruct (write_other_pages_inv _ _ _ _ _ _ Hrun) as (last & _ & Hall).
  assert (Hkept : rstrip_with is_slash extra_comic = extra_comic).
  { destruct (string_last extra_comic Hne) as (init & c & ->).
    change "/" with (String "/"%char "") in Hend. rewrite endswith_snoc in Hend.
    apply bool_decide_eq_false_1 in Hend.
    apply rstrip_kept; [done|]. simpl. unfold is_slash.
    rewrite bool_decide_eq_false_2 by congruence. done. }
  split.
  - intros w Hw Habs. destruct (Hall _ Hw) as (p & Hp & Hpage).
    split.
    { unfold delete_output_file_space. rewrite !elem_of_app. right. right.
      by apply list_elem_of_fmap_2. }
    unfold write_other_page in Hpage. case_bool_decide as Htag.
    { by destruct (write_tagged_pages h comic_data_dicts global_values). }
    destruct (_ && _); [done|]. injection Hpage as <-.
    cbn [pw_template pw_html_path covers] in *.
    rewrite bool_decide_eq_true_2 by (by destruct extra_comic).
    set (html_path := if bool_decide (lower (template_name p) ∈ ["index"; "404"])
                      then template_name p +:+ ".html"
                      else path_join (template_name p) "index.html").
    assert (Hrel : startswith html_path "/" = false).
    { subst html_path.
      destruct (decide (lower (template_name p) ∈ ["index"; "404"])) as [Hroot|Hroot].
      - rewrite bool_decide_eq_true_2 by done.
        rewrite startswith_app_nonempty; [done|]. intros Hnil. rewrite Hnil in Hroot.
        set_solver.
      - rewrite bool_decide_eq_false_2 by done. unfold path_join.
        change (startswith "index.html" "/") with false. cbv iota.
        destruct (decide (template_name p = "")) as [Hnil|Hnil].
        + by rewrite Hnil.
        + rewrite (bool_decide_eq_false_2 (template_name p = "")) by done. cbn [orb].
          destruct (endswith (template_name p) "/"); by rewrite startswith_app_nonempty. }
    split; [done|]. rewrite Hkept.
    exists html_path. unfold path_join. rewrite Hrel.
    change "/" with (String "/"%char "") at 2. rewrite endswith_snoc.
    rewrite (bool_decide_eq_true_2 ("/"%char = "/"%char)) by done. rewrite orb_true_r.
    by rewrite str_app_assoc.
  - intros tagged tw Hw Htw. destruct (Hall _ Hw) as (p & Hp & Hpage).
    unfold write_other_page in Hpage. case_bool_decide as Htag; [|by destruct (_ && _)].
    destruct (write_tagged_pages h comic_data_dicts global_values) as [tagged'|] eqn:Ht;
      [|done].
    cbn in Hpage. injection Hpage as ->.
    rewrite (write_tagged_pages_paths _ _ _ _ _ Ht Htw).
    split; [done|]. split; [apply tagged_path_covered|].
    split; [|apply remove_tagged_requested].
    intros Hplain Hother [_ (rest & Hpath)]. rewrite Hkept in Hpath.
    apply Hother.
    assert (Hl : before_first "/" ("tagged/" +:+ tw_tag tw +:+ "/index.html") = "tagged").
    { apply (before_first_app "/" "tagged"). reflexivity. }
    rewrite Hpath in Hl.
    change (extra_comic +:+ "/" +:+ rest) with (extra_comic +:+ String "/" rest) in Hl.
    by rewrite before_first_app in Hl.
Qed.

Lemma other_pages_show_the_last_comic_witness :
  write_other_pages sample_store "" sample_pages_list sample_records
    {["version" := VStr "0.3.8"]} = Ok (sample_other_writes "") ∧
  TemplatePage (sample_archive_write "") ∈ sample_other_writes "" ∧
  ∃ p, p ∈ sample_pages_list ∧ template_name p = "archive" ∧
       pw_data (sample_archive_write "") !! "version" = Some (VStr "0.3.8").
Proof.
  assert (H1 : write_other_pages sample_store "" sample_pages_list sample_records
                 {["version" := VStr "0.3.8"]} = Ok (sample_other_writes ""))
    by (vm_compute; reflexivity).
  assert (H2 : TemplatePage (sample_archive_write "") ∈ sample_other_writes "").
  { apply (list_elem_of_lookup_2 _ 1%nat). vm_compute. reflexivity. }
  repeat (split; [assumption|]).
  destruct (other_pages_show_the_last_comic _ _ _ _ _ _ H1) as (last & _ & Hall).
  destruct (Hall _ H2) as (p & Hp & Ht & _ & _ & Hdata).
  exists p. split; [exact Hp|]. split; [exact Ht|].
  rewrite (Hdata "version"). reflexivity.
Defined.

Lemma cleanup_covers_other_pages_witness :
  write_other_pages sample_store "" sample_pages_list sample_records
    {["version" := VStr "0.3.8"]} = Ok (sample_other_writes "") ∧
  TaggedPages (sample_tagged "") ∈ sample_other_writes "" ∧
  sample_tagged_write "" ∈ sample_tagged "" ∧
  TemplatePage (sample_archive_write "") ∈ sample_other_writes "" ∧
  pw_template (sample_archive_write "") ≠ "" ∧
  (lower (pw_template (sample_archive_write "")) ∈ ["index"; "404"] →
   pw_template (sample_archive_write "") ∈ ["index"; "404"]) ∧
  tw_html_path (sample_tagged_write "") = "tagged/y/index.html" ∧
  RemoveTree "tagged" ∈ delete_output_file_space sample_pages_list ["extra"] ∧
  covers (RemoveTree "tagged") (tw_html_path (sample_tagged_write "")) ∧
  pw_html_path (sample_archive_write "") = "archive/index.html" ∧
  ∃ r, r ∈ delete_output_file_space sample_pages_list ["extra"] ∧
       covers r (pw_html_path (sample_archive_write "")).
Proof.
  assert (H1 : write_other_pages sample_store "" sample_pages_list sample_records
                 {["version" := VStr "0.3.8"]} = Ok (sample_other_writes ""))
    by (vm_compute; reflexivity).
  assert (H2 : TaggedPages (sample_tagged "") ∈ sample_other_writes "").
  { apply (list_elem_of_lookup_2 _ 2%nat). vm_compute. reflexivity. }
  assert (H3 : sample_tagged_write "" ∈ sample_tagged "").
  { apply (list_elem_of_lookup_2 _ 0%nat). vm_compute. reflexivity. }
  assert (H4 : TemplatePage (sample_archive_write "") ∈ sample_other_writes "").
  { apply (list_elem_of_lookup_2 _ 1%nat). vm_compute. reflexivity. }
  assert (H5 : pw_template (sample_archive_write "") ≠ "") by (vm_compute; discriminate).
  assert (H6 : lower (pw_template (sample_archive_write "")) ∈ ["index"; "404"] →
               pw_template (sample_archive_write "") ∈ ["index"; "404"]).
  { intros Hin. exfalso. revert Hin.
    change (lower (pw_template (sample_archive_write ""))) with "archive". set_solver. }
  repeat (split; [assumption|]).
  destruct (cleanup_covers_other_pages sample_store sample_pages_list sample_records
              {["version" := VStr "0.3.8"]} (sample_other_writes "") ["extra"] H1)
    as [Htagged Hpages].
  destruct (Htagged _ _ H2 H3) as (Hpath & Hremoved & Hcovered).
  split; [rewrite Hpath; vm_compute; reflexivity|].
  split; [exact Hremoved|]. split; [exact Hcovered|].
  split; [vm_compute; reflexivity|].
  exact (Hpages _ H4 H5 H6).
Defined.

Lemma cleanup_covers_satellite_pages_witness :
  "extra" ∈ ["extra"] ∧
  "extra" ≠ "" ∧ startswith "extra" "/" = false ∧ endswith "extra" "/" = false ∧
  write_other_pages sample_store (strip_chars "/" "extra" +:+ "/") sample_pages_list
    sample_records {["version" := VStr "0.3.8"]} = Ok (sample_other_writes "extra/") ∧
  TemplatePage (sample_archive_write "extra/") ∈ sample_other_writes "extra/" ∧
  startswith (pw_template (sample_archive_write "extra/")) "/" = false ∧
  TaggedPages (sample_tagged "extra/") ∈ sample_other_writes "extra/" ∧
  sample_tagged_write "extra/" ∈ sample_tagged "extra/" ∧
  contains_char "/" "extra" = false ∧ "extra" ≠ "tagged" ∧
  pw_html_path (sample_archive_write "extra/") = "extra/archive/index.html" ∧
  covers (RemoveTree "extra") (pw_html_path (sample_archive_write "extra/")) ∧
  tw_html_path (sample_tagged_write "extra/") = "tagged/y/index.html" ∧
  ¬ covers (RemoveTree "extra") (tw_html_path (sample_tagged_write "extra/")).
Proof.
  assert (H1 : "extra" ∈ ["extra"]) by (by left).
  assert (H2 : "extra" ≠ "") by discriminate.
  assert (H3 : startswith "extra" "/" = false) by reflexivity.
  assert (H4 : endswith "extra" "/" = false) by reflexivity.
  assert (H5 : write_other_pages sample_store (strip_chars "/" "extra" +:+ "/")
                 sample_pages_list sample_records {["version" := VStr "0.3.8"]}
               = Ok (sample_other_writes "extra/")) by (vm_compute; reflexivity).
  assert (H6 : TemplatePage (sample_archive_write "extra/") ∈ sample_other_writes "extra/").
  { apply (list_elem_of_lookup_2 _ 1%nat). vm_compute. reflexivity. }
  assert (H7 : startswith (pw_template (sample_archive_write "extra/")) "/" = false)
    by (vm_compute; reflexivity).
  assert (H8 : TaggedPages (sample_tagged "extra/") ∈ sample_other_writes "extra/").
  { apply (list_elem_of_lookup_2 _ 2%nat). vm_compute. reflexivity. }
  assert (H9 : sample_tagged_write "extra/" ∈ sample_tagged "extra/").
  { apply (list_elem_of_lookup_2 _ 0%nat). vm_compute. reflexivity. }
  assert (H10 : contains_char "/" "extra" = false) by reflexivity.
  assert (H11 : "extra" ≠ "tagged") by discriminate.
  repeat (split; [assumption|]).
  destruct (cleanup_covers_satellite_pages sample_store sample_pages_list sample_pages_list
              sample_records {["version" := VStr "0.3.8"]} (sample_other_writes "extra/")
              ["extra"] "extra" H1 H2 H3 H4 H5) as [Hpages Htagged].
  destruct (Hpages _ H6 H7) as [_ Hcovered].
  destruct (Htagged _ _ H8 H9) as (Hpath & _ & Houtside & _).
  split; [vm_compute; reflexivity|]. split; [exact Hcovered|].
  split; [rewrite Hpath; vm_compute; reflexivity|].
  exact (Houtside H10 H11).
Defined.

(** ** ThumbnailProcessor: where the thumbnail goes *)

Lemma from_first_app c (a s : string) :
  contains_char c a = false → from_first c (a +:+ String c s) = String c s.
Proof.
  induction a as [|b a IH]; intros Ha.
  - change ("" +:+ String c s) with (String c s). cbn [from_first].
    by rewrite bool_decide_eq_true_2.
  - cbn [contains_char] in Ha. apply orb_false_iff in Ha as [Hb Ha].
    rewrite str_app_cons. cbn [from_first]. rewrite Hb. by apply IH.
Qed.

Lemma lstrip_reaches drop (y s : string) (c : ascii) :
  drop c = false → lstrip_with drop (y +:+ String c s) ≠ "".
Proof.
  intros Hc. induction y as [|a y IH].
  - change ("" +:+ String c s) with (String c s). cbn [lstrip_with]. by rewrite Hc.
  - rewrite str_app_cons. cbn [lstrip_with]. by destruct (drop a).
Qed.

(** The directory of a file that lies in a directory whose name does not
    end in a slash. *)
Lemma dirname_file (y filename : string) (c : ascii) :
  c ≠ "/"%char → contains_char "/" filename = false →
  dirname ((y +:+ String c "") +:+ "/" +:+ filename) = y +:+ String c "".
Proof.
  intros Hc Hfile. unfold dirname.
  rewrite rev_append, rev_append.
  change (String.rev "/") with "/".
  rewrite str_app_assoc.
  change ("/" +:+ String.rev (y +:+ String c ""))
    with (String "/" (String.rev (y +:+ String c ""))).
  rewrite from_first_app by (by rewrite contains_char_rev).
  rewrite rev_cons, rev_involutive.
  assert (Hslash : is_slash c = false) by (unfold is_slash; by rewrite bool_decide_eq_false_2).
  rewrite bool_decide_eq_false_2.
  - rewrite rstrip_whitespace by done.
    apply rstrip_kept; [done|]. cbn. by rewrite Hslash.
  - rewrite str_app_assoc. by apply lstrip_reaches.
Qed.

(** X24.  [process_comic_image] puts the thumbnail where the comic data
    says it is: for a page directory with a plain name and an image file
    that lies directly in it, the path made from the directory of the image
    is the path [os.path.join(page_dir, "thumbnail.jpg")], that is the page
    directory followed by [thumbnail.jpg]; and since the file is named
    [thumbnail.jpg], adding it to the directory does not change what
    auto-detection finds there. *)
Theorem thumbnail_is_where_the_archive_looks (content_dir comic_folder page_name
    filename : string) (listing : list string) :
  page_name ≠ "" → contains_char "/" page_name = false →
  contains_char "/" filename = false →
  let page_dir := content_dir +:+ "/" +:+ comic_folder +:+ "comics/" +:+ page_name +:+ "/" in
  thumbnail_path_of (page_dir +:+ filename) = path_join page_dir "thumbnail.jpg" ∧
  thumbnail_path_of (page_dir +:+ filename) = page_dir +:+ "thumbnail.jpg" ∧
  basename (thumbnail_path_of (page_dir +:+ filename)) = "thumbnail.jpg" ∧
  detect_image_files (listing ++ [basename (thumbnail_path_of (page_dir +:+ filename))])
    = detect_image_files listing.
Proof.
  intros Hne Hname Hfile page_dir.
  destruct (string_last page_name Hne) as (init & c & Hlast).
  assert (Hc : c ≠ "/"%char).
  { intros ->. rewrite Hlast, contains_char_app in Hname. cbn in Hname.
    by rewrite orb_true_r in Hname. }
  set (y := content_dir +:+ "/" +:+ comic_folder +:+ "comics/" +:+ init).
  assert (Hdir : page_dir = (y +:+ String c "") +:+ "/").
  { subst page_dir y. rewrite Hlast. by rewrite !str_app_assoc. }
  clearbody page_dir. subst page_dir.
  assert (Hthumb : thumbnail_path_of (((y +:+ String c "") +:+ "/") +:+ filename)
                   = ((y +:+ String c "") +:+ "/") +:+ "thumbnail.jpg").
  { unfold thumbnail_path_of. rewrite (str_app_assoc _ "/" filename).
    rewrite dirname_file by done. unfold path_join.
    change (startswith "thumbnail.jpg" "/") with false. cbv iota.
    rewrite bool_decide_eq_false_2 by (by destruct y).
    change "/" with (String "/"%char "") at 1. rewrite endswith_snoc.
    rewrite bool_decide_eq_false_2 by congruence. cbn [orb].
    by rewrite !str_app_assoc. }
  assert (Hbase : basename (((y +:+ String c "") +:+ "/") +:+ "thumbnail.jpg")
                  = "thumbnail.jpg").
  { unfold basename. rewrite str_app_assoc, rev_append, rev_append.
    change (String.rev "/") with "/". rewrite str_app_assoc.
    change ("/" +:+ String.rev (y +:+ String c ""))
      with (String "/" (String.rev (y +:+ String c ""))).
    rewrite before_first_app by reflexivity. by rewrite rev_involutive. }
  split; [|split; [done|split]].
  - rewrite Hthumb. unfold path_join.
    change (startswith "thumbnail.jpg" "/") with false. cbv iota.
    change "/" with (String "/"%char "") at 4. rewrite endswith_snoc.
    rewrite (bool_decide_eq_true_2 ("/"%char = "/"%char)) by done. by rewrite orb_true_r.
  - by rewrite Hthumb.
  - rewrite Hthumb, Hbase. unfold detect_image_files.
    rewrite filter_app, filter_cons_False, filter_nil by (by intros [? _]).
    by rewrite app_nil_r.
Qed.

Lemma thumbnail_is_where_the_archive_looks_witness :
  "p1" ≠ "" ∧ contains_char "/" "p1" = false ∧ contains_char "/" "a.png" = false ∧
  thumbnail_path_of ("content" +:+ "/" +:+ "" +:+ "comics/" +:+ "p1" +:+ "/" +:+ "a.png")
    = "content" +:+ "/" +:+ "" +:+ "comics/" +:+ "p1" +:+ "/" +:+ "thumbnail.jpg".
Proof.
  assert (H1 : "p1" ≠ "") by discriminate.
  assert (H2 : contains_char "/" "p1" = false) by reflexivity.
  assert (H3 : contains_char "/" "a.png" = false) by reflexivity.
  repeat (split; [assumption|]).
  exact (proj1 (proj2 (thumbnail_is_where_the_archive_looks "content" "" "p1" "a.png" []
                         H1 H2 H3))).
Defined.

Section Thumbnails.
Context `{ImageFiles}.

Lemma process_each_kept (h : store) (comic_info : config) (records rest : list loc)
    (fs : files) :
  cfg_getboolean comic_info "Image Reprocessing" "Overwrite existing images" = Ok false →
  (∀ r, r ∈ records → thumbnail_kept h fs r) →
  process_each h comic_info (records ++ rest) fs = process_each h comic_info rest fs.
Proof.
  intros Hover. induction records as [|r records IH]; intros Hkept; [done|].
  destruct (Hkept r) as (d & path & im & Hd & Hpath & Hopen & Hfile); [by left|].
  cbn [app process_each]. unfold deref, getitem. rewrite Hd. cbn. rewrite Hpath. cbn.
  unfold process_comic_image. rewrite Hopen, Hover, Hfile. cbn.
  apply IH. intros r' Hr'. apply Hkept. by right.
Qed.

(** X25.  With thumbnails switched on and overwriting off,
    [process_comic_images] writes nothing for pages whose image opens and
    whose thumbnail exists: the file system is left as it is.  The image is
    opened before the thumbnail is looked for, so a page whose image does
    not open stops the run with that error, whether or not its thumbnail
    exists. *)
Theorem process_comic_images_keeps_thumbnails (h : store) (comic_info : config)
    (records : list loc) (fs : files) :
  cfg_getboolean comic_info "Image Reprocessing" "Create thumbnails" = Ok true →
  cfg_getboolean comic_info "Image Reprocessing" "Overwrite existing images" = Ok false →
  (∀ r, r ∈ records → thumbnail_kept h fs r) →
  process_comic_images h comic_info records fs = (fs, Ok ()) ∧
  ∀ r d comic_path e rest,
    h !! r = Some d → d !! "comic_path" = Some (VStr comic_path) →
    image_open comic_path fs = Raise e →
    process_comic_images h comic_info (records ++ r :: rest) fs = (fs, Raise e).
Proof.
  intros Hcreate Hover Hkept. unfold process_comic_images. rewrite Hcreate. split.
  - rewrite <- (app_nil_r records). by rewrite process_each_kept.
  - intros r d path e rest Hd Hpath Hopen. rewrite process_each_kept by done.
    cbn [process_each]. unfold deref, getitem. rewrite Hd. cbn. rewrite Hpath. cbn.
    unfold process_comic_image. by rewrite Hopen.
Qed.

End Thumbnails.

Lemma process_comic_images_keeps_thumbnails_witness :
  cfg_getboolean sample_thumbnail_info "Image Reprocessing" "Create thumbnails" = Ok true ∧
  cfg_getboolean sample_thumbnail_info "Image Reprocessing" "Overwrite existing images"
    = Ok false ∧
  (∀ r, r ∈ [1%positive] → @thumbnail_kept _ sample_image_files sample_comic_paths sample_files r) ∧
  @process_comic_images _ sample_image_files sample_comic_paths sample_thumbnail_info
    [1%positive] sample_files = (sample_files, Ok ()) ∧
  @process_comic_images _ sample_image_files sample_comic_paths sample_thumbnail_info
    ([1%positive] ++ 2%positive :: []) sample_files
  = (sample_files, Raise (ExternalError "FileNotFoundError" "content/comics/p2/b.png")).
Proof.
  assert (H1 : cfg_getboolean sample_thumbnail_info "Image Reprocessing" "Create thumbnails"
               = Ok true) by reflexivity.
  assert (H2 : cfg_getboolean sample_thumbnail_info "Image Reprocessing"
                 "Overwrite existing images" = Ok false) by reflexivity.
  assert (H3 : ∀ r, r ∈ [1%positive] →
                 @thumbnail_kept _ sample_image_files sample_comic_paths sample_files r).
  { intros r ->%list_elem_of_singleton.
    exists {[ "comic_path" := VStr "content/comics/p1/a.png" ]}, "content/comics/p1/a.png",
           "RGBA".
    repeat split; vm_compute; reflexivity. }
  repeat (split; [assumption|]).
  destruct (@process_comic_images_keeps_thumbnails _ sample_image_files sample_comic_paths
              sample_thumbnail_info [1%positive] sample_files H1 H2 H3) as [Hkeep Hfail].
  split; [exact Hkeep|].
  exact (Hfail 2%positive {[ "comic_path" := VStr "content/comics/p2/b.png" ]}
           "content/comics/p2/b.png" (ExternalError "FileNotFoundError" "content/comics/p2/b.png")
           [] eq_refl eq_refl eq_refl).
Defined.
